(** * Search and filter engine of the product endpoint

    Shallow embedding of [src/app/api/products/route.ts]: the string
    normaliser, the Levenshtein matcher, the match locator, the relevance
    scorer, the filter predicate and the query pipeline of the [GET]
    handler, together with the properties the specification states about
    them.

    Conventions of the embedding.
    - A JavaScript string is the list of its UTF-16 code units
      ([jsstring]); [js "..."] writes an ASCII literal.
    - The integers the code computes with (lengths, indices, scores) are
      [Z] or [nat]; the numeric fields of products and filter bounds
      (price, rating, protein content) are finite doubles, embedded as the
      rationals they denote ([Q]).  Comparison is exact on them; the
      subtraction of the protein bonus and the parse of its digits are
      rounded as doubles are ([JS.roundToDouble]); the comparators of the
      sorts use only the sign of a difference, which rounding keeps.
    - [String.prototype.toLowerCase] and [String.prototype.normalize]
      belong to the language runtime, not to the repository: the
      development is parametric in them (class [Runtime]).  A concrete
      excerpt of the Unicode tables ([unicodeExcerpt]) instantiates them
      where a statement is evaluated on an input.
    - The recursion of [findMatches] is not bounded by the code; it is
      embedded with a recursion budget, [None] meaning that the budget
      was exhausted (in the runtime: the call stack). *)

From Stdlib Require Import ZArith QArith Qabs Lia Permutation Sorted.
From Stdlib Require Import Ascii String.
From stdpp Require Import base option list sorting gmap.

Local Open Scope Z_scope.

(** ** JavaScript strings and the built-ins the route uses *)

Definition jsstring : Type := list N.

(** ASCII literal as a list of code units. *)
Definition js (s : string) : jsstring :=
  (λ c, N_of_ascii c) <$> list_ascii_of_string s.

Module JS.

(** [WhiteSpace] and [LineTerminator] code points of ECMA-262, the set
    removed by [trim] and matched by the regular expression class
    [\s]. *)
Definition isWhiteSpace (c : N) : bool :=
  ((9 <=? c) && (c <=? 13) ||
   (c =? 32) || (c =? 160) || (c =? 5760) ||
   (8192 <=? c) && (c <=? 8202) ||
   (c =? 8232) || (c =? 8233) || (c =? 8239) || (c =? 8287) ||
   (c =? 12288) || (c =? 65279))%N.

Fixpoint trimStart (s : jsstring) : jsstring :=
  match s with
  | c :: s' => if isWhiteSpace c then trimStart s' else s
  | [] => []
  end.

Definition trimEnd (s : jsstring) : jsstring :=
  reverse (trimStart (reverse s)).

(** [String.prototype.trim]. *)
Definition trim (s : jsstring) : jsstring := trimEnd (trimStart s).

(** [s.length], as a number. *)
Definition len (s : jsstring) : Z := Z.of_nat (length s).

(** [String.prototype.startsWith]: is [needle] a prefix of [s]. *)
Fixpoint startsWith (s needle : jsstring) : bool :=
  match needle, s with
  | [], _ => true
  | _ :: _, [] => false
  | d :: needle', c :: s' => (N.eqb c d) && startsWith s' needle'
  end.

(** [StringIndexOf(string, searchValue, fromIndex)] of ECMA-262, on the
    suffix [s] of the string that starts at index [i]: the first index
    [>= i] at which [needle] occurs, [-1] when there is none.  The empty
    needle occurs at every index up to the length. *)
Fixpoint stringIndexOf (s needle : jsstring) (i : Z) : Z :=
  if startsWith s needle then i
  else match s with
       | [] => -1
       | _ :: s' => stringIndexOf s' needle (i + 1)
       end.

(** [String.prototype.indexOf(searchString, position)]: the position is
    clamped to [0 .. length] first. *)
Definition indexOf (s needle : jsstring) (position : Z) : Z :=
  let start := Z.min (Z.max position 0) (len s) in
  stringIndexOf (drop (Z.to_nat start) s) needle start.

(** [String.prototype.includes]. *)
Definition includes (s needle : jsstring) : bool :=
  negb (indexOf s needle 0 =? -1).

(** [str.replace(/[\u0300-\u036f]/g, '')]: every code unit of the
    Combining Diacritical Marks block (U+0300 to U+036F) is removed. *)
Definition isCombiningMark (c : N) : bool :=
  ((768 <=? c) && (c <=? 879))%N.

Definition stripCombiningMarks (s : jsstring) : jsstring :=
  List.filter (λ c, negb (isCombiningMark c)) s.

(** Arithmetic on numbers is IEEE 754 binary64: the result of an
    operation is the double nearest to the exact result, ties going to
    the even significand; beyond the finite doubles it is an infinity,
    for which [None] stands.  [roundHalfEven num den] is the integer
    nearest to [num / den], [floorLog2 num den] the integer part of the
    binary logarithm of [num / den] for a positive [num]; a double is
    a significand below [2 ^ 53] times a power of two from [2 ^ -1074]
    to [2 ^ 971]. *)
Definition roundHalfEven (num : Z) (den : positive) : Z :=
  let floor := num / Z.pos den in
  let twice := 2 * (num mod Z.pos den) in
  if twice <? Z.pos den then floor
  else if Z.pos den <? twice then floor + 1
  else if Z.even floor then floor else floor + 1.

Definition floorLog2 (num : Z) (den : positive) : Z :=
  let k := Z.log2 num - Z.log2 (Z.pos den) in
  if Z.pos den * 2 ^ Z.max k 0 <=? num * 2 ^ Z.max (- k) 0 then k
  else k - 1.

Definition roundToDouble (x : Q) : option Q :=
  if Qnum x =? 0 then Some 0%Q
  else
    let magnitude := Z.abs (Qnum x) in
    let exponent := Z.max (floorLog2 magnitude (Qden x) - 52) (-1074) in
    let significand :=
      roundHalfEven (magnitude * 2 ^ Z.max (- exponent) 0)
        (Qden x * Z.to_pos (2 ^ Z.max exponent 0))%positive in
    if 2 ^ 1024 <=? significand * 2 ^ exponent then None
    else
      Some (Qred (Z.sgn (Qnum x) * significand * 2 ^ Z.max exponent 0
                  # Z.to_pos (2 ^ Z.max (- exponent) 0))).

(** [a - b]. *)
Definition subtract (a b : Q) : option Q := roundToDouble (a - b).

(** [parseInt(s, 10)] on a non-empty run of decimal digits, the only
    kind of argument the route passes: the double nearest to the
    integer the digits write ([mathInt]).  (Past the 20th significant
    digit ECMA-262 lets an implementation read the digits as 0; the
    engines round the integer itself, as here.) *)
Definition isDigit (c : N) : bool := ((48 <=? c) && (c <=? 57))%N.

Definition mathInt (s : jsstring) : Z :=
  foldl (λ acc c, 10 * acc + (Z.of_N c - 48)) 0 s.

Definition parseInt (s : jsstring) : option Q :=
  roundToDouble (inject_Z (mathInt s)).

(** The comparisons [a < b] and [a >= b] on numbers. *)
Definition lt (a b : Q) : bool := if Qlt_le_dec a b then true else false.
Definition ge (a b : Q) : bool := Qle_bool b a.

(** [Array.prototype.sort(comparefn)].  ECMA-262 (since ES2019) requires
    the sort to be stable; with a consistent comparator the result of a
    stable sort is unique, and insertion from the right computes it: an
    element is moved behind those that the comparator puts strictly
    before it ([comparefn x y > 0]), and stays in front of its ties. *)
Section Sort.
Context {A : Type} (comparefn : A → A → Q).

Fixpoint insert (x : A) (l : list A) : list A :=
  match l with
  | [] => [x]
  | y :: l' =>
      if Qlt_le_dec 0 (comparefn x y) then y :: insert x l'
      else x :: l
  end.

Definition sort (l : list A) : list A := foldr insert [] l.
End Sort.

End JS.

(** ** Levenshtein matcher *)

(** [x ?? 0] on the result of an array read. *)
Definition orZero (x : option Z) : Z := default 0 x.

(** [levenshteinDistance(str1, str2)] of the route, row by row as the
    [reduce] builds them: [Array.from({length: n + 1}, ...)] is a map over
    the indices [0 .. n], the accumulator is the previous row. *)
Definition levenshteinRow (str1 str2 : jsstring) (n : nat)
    (previousRow : list Z) (i : nat) : list Z :=
  (λ j : nat,
     if decide (j = 0%nat) then Z.of_nat i
     else
       let cost :=
         if decide (str1 !! (i - 1)%nat = str2 !! (j - 1)%nat) then 0 else 1 in
       Z.min (Z.min (orZero (previousRow !! j) + 1)
                    (orZero (previousRow !! (j - 1)%nat) + cost))
             (Z.of_nat i + 1))
  <$> seq 0 (n + 1).

Definition levenshteinDistance (str1 str2 : jsstring) : Z :=
  let m := length str1 in
  let n := length str2 in
  if decide (m = 0%nat) then Z.of_nat n
  else if decide (n = 0%nat) then Z.of_nat m
  else
    let initialRow := Z.of_nat <$> seq 0 (n + 1) in
    let finalRow :=
      foldl (levenshteinRow str1 str2 n) initialRow (seq 1 m) in
    orZero (finalRow !! n).

(** The classic edit distance, following the words of the specification:
    the table [D] over [(|a|+1) × (|b|+1)] with [D i 0 = i], [D 0 j = j]
    and [D i j = min (D (i-1) j + 1) (D i (j-1) + 1) (D (i-1) (j-1) + cost)],
    where [cost] is 0 when the characters agree and 1 otherwise; the
    distance is the last cell. *)
Fixpoint editDistanceTable (a b : jsstring) (i j : nat) {struct i} : Z :=
  match i with
  | O => Z.of_nat j
  | S i' =>
      (fix row (j : nat) : Z :=
         match j with
         | O => Z.of_nat (S i')
         | S j' =>
             let cost := if decide (a !! i' = b !! j') then 0 else 1 in
             Z.min (Z.min (editDistanceTable a b i' (S j') + 1)
                          (row j' + 1))
                   (editDistanceTable a b i' j' + cost)
         end) j
  end.

Definition editDistance (a b : jsstring) : Z :=
  editDistanceTable a b (length a) (length b).

(** ** Regular expressions of the route

    The one pattern of the scorer, [/(\d+)%?\s*protein/i], is a sequence
    of character classes, each with a quantifier.  Matching is the
    backtracking search of ECMA-262: a quantifier is greedy, takes the
    longest run first and gives characters back while the rest of the
    pattern fails. *)
Module Regex.

Inductive quantifier := One | Opt | Star | Plus.

Record item := Item { cls : N → bool; quant : quantifier }.

Section Match.
Context {R : Type}.

(** Greedy repetition: [taken] is the text consumed so far by this
    item, [k] continues with the rest of the pattern. *)
Fixpoint many (c : N → bool) (k : jsstring → jsstring → option R)
    (taken s : jsstring) : option R :=
  match s with
  | x :: s' =>
      if c x then
        match many c k (taken ++ [x]) s' with
        | Some r => Some r
        | None => k taken s
        end
      else k taken s
  | [] => k taken s
  end.

Definition matchItem (it : item) (k : jsstring → jsstring → option R)
    (s : jsstring) : option R :=
  match quant it, s with
  | One, x :: s' => if cls it x then k [x] s' else None
  | One, [] => None
  | Opt, x :: s' =>
      if cls it x then
        match k [x] s' with Some r => Some r | None => k [] s end
      else k [] s
  | Opt, [] => k [] s
  | Star, _ => many (cls it) k [] s
  | Plus, x :: s' => if cls it x then many (cls it) k [x] s' else None
  | Plus, [] => None
  end.
End Match.

(** A match of the whole pattern at the start of [s]: the text each item
    consumed, in order. *)
Fixpoint matchAt (items : list item) (s : jsstring) : option (list jsstring) :=
  match items with
  | [] => Some []
  | it :: items' =>
      matchItem it (λ taken rest, (taken ::.) <$> matchAt items' rest) s
  end.

(** [String.prototype.match] with a pattern that has no [g] flag: the
    match at the least start index, [None] for [null]. *)
Fixpoint exec (items : list item) (s : jsstring) : option (list jsstring) :=
  match matchAt items s with
  | Some m => Some m
  | None => match s with
            | [] => None
            | _ :: s' => exec items s'
            end
  end.

(** A letter of the pattern under the [i] flag (no [u] flag): the
    code units whose canonical form is that of the letter, which for an
    ASCII letter are its two cases. *)
Definition letter (lower : N) : item :=
  Item (λ c, (c =? lower)%N || (c =? lower - 32)%N) One.

(** [/(\d+)%?\s*protein/i]; the capture group is the first item. *)
Definition proteinPattern : list item :=
  [ Item JS.isDigit Plus; Item (λ c, (c =? 37)%N) Opt;
    Item JS.isWhiteSpace Star;
    letter 112; letter 114; letter 111; letter 116; letter 101;
    letter 105; letter 110 ].

End Regex.

(** ** An excerpt of the Unicode Character Database

    Case mapping, canonical decomposition and canonical combining classes
    of the blocks Basic Latin, Latin-1 Supplement, Combining Diacritical
    Marks (U+0300 to U+036F) and the Hebrew points and accents (U+0591 to
    U+05C7).  On strings over these blocks [Unicode.toLowerCase] and
    [Unicode.normalizeNFD] are the runtime's [toLowerCase()] and
    [normalize('NFD')]; other code units are left alone. *)
Module Unicode.

Definition toLowerCaseUnit (c : N) : N :=
  if ((65 <=? c) && (c <=? 90) ||
      (192 <=? c) && (c <=? 222) && negb (c =? 215))%N
  then (c + 32)%N else c.

Definition toLowerCase (s : jsstring) : jsstring := toLowerCaseUnit <$> s.

(** Canonical decompositions, fully expanded. *)
Definition decompositionTable : list (N * list N) :=
  [ (192, [65; 768]); (193, [65; 769]); (194, [65; 770]); (195, [65; 771]);
    (196, [65; 776]); (197, [65; 778]); (199, [67; 807]); (200, [69; 768]);
    (201, [69; 769]); (202, [69; 770]); (203, [69; 776]); (204, [73; 768]);
    (205, [73; 769]); (206, [73; 770]); (207, [73; 776]); (209, [78; 771]);
    (210, [79; 768]); (211, [79; 769]); (212, [79; 770]); (213, [79; 771]);
    (214, [79; 776]); (217, [85; 768]); (218, [85; 769]); (219, [85; 770]);
    (220, [85; 776]); (221, [89; 769]); (224, [97; 768]); (225, [97; 769]);
    (226, [97; 770]); (227, [97; 771]); (228, [97; 776]); (229, [97; 778]);
    (231, [99; 807]); (232, [101; 768]); (233, [101; 769]);
    (234, [101; 770]); (235, [101; 776]); (236, [105; 768]);
    (237, [105; 769]); (238, [105; 770]); (239, [105; 776]);
    (241, [110; 771]); (242, [111; 768]); (243, [111; 769]);
    (244, [111; 770]); (245, [111; 771]); (246, [111; 776]);
    (249, [117; 768]); (250, [117; 769]); (251, [117; 770]);
    (252, [117; 776]); (253, [121; 769]); (255, [121; 776]);
    (832, [768]); (833, [769]); (835, [787]); (836, [776; 769]) ]%N.

(** Canonical combining classes as ranges [(first, last, class)]; a code
    unit in no range is a starter (class 0), as is U+034F COMBINING
    GRAPHEME JOINER. *)
Definition combiningClassTable : list (N * N * N) :=
  [ (768, 788, 230); (789, 789, 232); (790, 793, 220); (794, 794, 232);
    (795, 795, 216); (796, 800, 220); (801, 802, 202); (803, 806, 220);
    (807, 808, 202); (809, 819, 220); (820, 824, 1); (825, 828, 220);
    (829, 836, 230); (837, 837, 240); (838, 838, 230); (839, 841, 220);
    (842, 844, 230); (845, 846, 220); (848, 850, 230); (851, 854, 220);
    (855, 855, 230); (856, 856, 232); (857, 858, 220); (859, 859, 230);
    (860, 860, 233); (861, 862, 234); (863, 863, 233); (864, 865, 234);
    (866, 866, 233); (867, 879, 230);
    (1425, 1425, 220); (1426, 1429, 230); (1430, 1430, 220);
    (1431, 1433, 230); (1434, 1434, 222); (1435, 1435, 220);
    (1436, 1441, 230); (1442, 1447, 220); (1448, 1449, 230);
    (1450, 1450, 220); (1451, 1452, 230); (1453, 1453, 222);
    (1454, 1454, 228); (1455, 1455, 230); (1456, 1456, 10);
    (1457, 1457, 11); (1458, 1458, 12); (1459, 1459, 13); (1460, 1460, 14);
    (1461, 1461, 15); (1462, 1462, 16); (1463, 1463, 17); (1464, 1464, 18);
    (1465, 1466, 19); (1467, 1467, 20); (1468, 1468, 21); (1469, 1469, 22);
    (1471, 1471, 23); (1473, 1473, 24); (1474, 1474, 25); (1476, 1476, 230);
    (1477, 1477, 220); (1479, 1479, 18) ]%N.

Definition decompose (c : N) : list N :=
  match list_find (λ e, e.1 = c) decompositionTable with
  | Some (_, e) => e.2
  | None => [c]
  end.

Definition combiningClass (c : N) : N :=
  match list_find (λ r, (r.1.1 ≤ c ∧ c ≤ r.1.2)%N) combiningClassTable with
  | Some (_, r) => r.2
  | None => 0%N
  end.

(** Canonical ordering: a combining mark moves behind the marks that
    follow it directly and have a smaller, non-zero class. *)
Fixpoint reorderInsert (c : N) (s : jsstring) : jsstring :=
  match s with
  | d :: s' =>
      if decide (0 < combiningClass d ∧ combiningClass d < combiningClass c)%N
      then d :: reorderInsert c s'
      else c :: s
  | [] => [c]
  end.

Definition canonicalOrder (s : jsstring) : jsstring :=
  foldr reorderInsert [] s.

Definition normalizeNFD (s : jsstring) : jsstring :=
  canonicalOrder (s ≫= decompose).

End Unicode.

(** ** Data model *)

(** [ProductCategory], the discriminant of the product union. *)
Inductive ProductCategory := flour | banneton | oven.

Definition categoryName (c : ProductCategory) : jsstring :=
  match c with
  | flour => js "flour"
  | banneton => js "banneton"
  | oven => js "oven"
  end.

(** The fields of [BaseProduct] that the route reads; the identifier is
    kept to tell products apart. *)
Record BaseProduct := {
  id : jsstring;
  name : jsstring;
  brand : jsstring;
  price : Q;
  description : jsstring;
  inStock : bool;
  rating : Q;
  tags : list jsstring
}.

(** [BakeryProduct = FlourProduct | BannetonProduct | OvenProduct], with
    the variant fields the route reads. *)
Inductive BakeryProduct :=
| FlourProduct (base : BaseProduct) (proteinContent : Q) (organic : bool)
| BannetonProduct (base : BaseProduct)
| OvenProduct (base : BaseProduct) (features : list jsstring).

Definition base (product : BakeryProduct) : BaseProduct :=
  match product with
  | FlourProduct b _ _ | BannetonProduct b | OvenProduct b _ => b
  end.

Definition category (product : BakeryProduct) : ProductCategory :=
  match product with
  | FlourProduct _ _ _ => flour
  | BannetonProduct _ => banneton
  | OvenProduct _ _ => oven
  end.

Definition isFlourProduct (product : BakeryProduct) : bool :=
  bool_decide (categoryName (category product) = js "flour").

Definition isOvenProduct (product : BakeryProduct) : bool :=
  bool_decide (categoryName (category product) = js "oven").

Inductive FilterLogic := AND | OR.

(** [ParsedSearchParams]; [None] is [undefined]. *)
Record ParsedSearchParams := {
  q : jsstring;
  categories : list jsstring;
  minPrice : Q;
  maxPrice : Q;
  minRating : Q;
  inStockParam : option bool;
  organicParam : option bool;
  logicMode : FilterLogic
}.

(** [SearchResult]. *)
Record SearchResult := {
  product : BakeryProduct;
  score : Z;
  matches : list (Z * Z)
}.

(** ** The route *)

(** The two built-ins the development is parametric in:
    [String.prototype.toLowerCase] and [String.prototype.normalize('NFD')]. *)
Class Runtime := {
  toLowerCase : jsstring → jsstring;
  normalizeNFD : jsstring → jsstring
}.

(** The runtime restricted to the excerpt of the Unicode tables. *)
Definition unicodeExcerpt : Runtime :=
  {| toLowerCase := Unicode.toLowerCase; normalizeNFD := Unicode.normalizeNFD |}.

Section Route.

Context {runtime : Runtime}.

(** [normalizeString(str)]. *)
Definition normalizeString (str : jsstring) : jsstring :=
  JS.trim (JS.stripCombiningMarks (normalizeNFD (toLowerCase str))).

(** [fuzzyMatch(str1, str2, maxDistance)]; the route only uses the
    default [maxDistance = 2]. *)
Definition fuzzyMatch (str1 str2 : jsstring) (maxDistance : Z) : bool :=
  let distance :=
    levenshteinDistance (normalizeString str1) (normalizeString str2) in
  bool_decide (distance ≤ maxDistance).

(** The recursive helper of [findMatches]; [fuel] bounds the depth of
    the recursion, which the code leaves unbounded. *)
Fixpoint findAllMatches (fuel : nat) (normalizedText normalizedQuery : jsstring)
    (startIndex : Z) (accumulator : list (Z * Z)) : option (list (Z * Z)) :=
  match fuel with
  | O => None
  | S fuel' =>
      let position := JS.indexOf normalizedText normalizedQuery startIndex in
      if decide (position = -1) then Some accumulator
      else
        let newMatch := (position, position + JS.len normalizedQuery) in
        findAllMatches fuel' normalizedText normalizedQuery
          (position + 1) (accumulator ++ [newMatch])
  end.

(** [findMatches(text, query)]. *)
Definition findMatches (fuel : nat) (text query : jsstring)
    : option (list (Z * Z)) :=
  let normalizedText := normalizeString text in
  let normalizedQuery := normalizeString query in
  findAllMatches fuel normalizedText normalizedQuery 0 [].

(** The flour bonus of the scorer, on the raw query.  The parsed
    digits and the difference are doubles; an infinite difference is
    not [<= 1]. *)
Definition flourBonus (proteinContent : Q) (query : jsstring) : Z :=
  match Regex.exec Regex.proteinPattern query with
  | None => 0
  | Some proteinMatch =>
      let queryProtein := JS.parseInt (hd [] proteinMatch) in
      let diff := Qabs <$> (queryProtein ≫= JS.subtract proteinContent) in
      match diff with
      | Some finite => if JS.ge 1 finite then 10 else 0
      | None => 0
      end
  end.

(** The array [scoreComponents] of [calculateRelevanceScore]: name,
    brand, description, tags, flour bonus, oven bonus, popularity. *)
Definition scoreComponents (product : BakeryProduct) (query : jsstring)
    : list Z :=
  let normalizedQuery := normalizeString query in
  let normalizedName := normalizeString (name (base product)) in
  let normalizedBrand := normalizeString (brand (base product)) in
  let normalizedDescription := normalizeString (description (base product)) in
  [ if bool_decide (normalizedName = normalizedQuery) then 100
    else if JS.startsWith normalizedName normalizedQuery then 80
    else if JS.includes normalizedName normalizedQuery then 60
    else if fuzzyMatch normalizedName normalizedQuery 2 then 10
    else 0;
    if bool_decide (normalizedBrand = normalizedQuery) then 50
    else if JS.includes normalizedBrand normalizedQuery then 30
    else 0;
    if JS.includes normalizedDescription normalizedQuery then 20 else 0;
    foldl (λ acc _, acc + 40) 0
      (List.filter (λ tag, JS.includes (normalizeString tag) normalizedQuery)
         (tags (base product)));
    match product with
    | FlourProduct _ proteinContent _ => flourBonus proteinContent query
    | _ => 0
    end;
    match product with
    | OvenProduct _ features =>
        foldl (λ acc _, acc + 15) 0
          (List.filter
             (λ feature, JS.includes normalizedQuery (normalizeString feature))
             features)
    | _ => 0
    end;
    if JS.ge (rating (base product)) (9 # 2) then 5 else 0 ].

(** [calculateRelevanceScore(product, query)]. *)
Definition calculateRelevanceScore (product : BakeryProduct)
    (query : jsstring) : Z :=
  if bool_decide (JS.trim query = []) then 0
  else foldl (λ total component, total + component) 0
         (scoreComponents product query).

(** The callback of the [filter] in [applyFilters], with its early
    returns. *)
Definition passesFilters (categorySet : gset jsstring)
    (params : ParsedSearchParams) (product : BakeryProduct) : bool :=
  if bool_decide (0 < size categorySet)%nat
     && negb (bool_decide (categoryName (category product) ∈ categorySet))
  then false
  else if JS.lt (price (base product)) (minPrice params)
          || JS.lt (maxPrice params) (price (base product))
  then false
  else if JS.lt (rating (base product)) (minRating params) then false
  else if match inStockParam params with
          | Some wanted => negb (bool_decide (inStock (base product) = wanted))
          | None => false
          end
  then false
  else match organicParam params with
       | Some wanted =>
           match product with
           | FlourProduct _ _ organic =>
               if negb (bool_decide (organic = wanted)) then false else true
           | _ => false
           end
       | None => true
       end.

(** [applyFilters(products, params)]. *)
Definition applyFilters (products : list BakeryProduct)
    (params : ParsedSearchParams) : list BakeryProduct :=
  let categorySet : gset jsstring := list_to_set (categories params) in
  List.filter (passesFilters categorySet params) products.

(** The comparators of the two [sort] calls. *)
Definition byScore (a b : SearchResult) : Q :=
  inject_Z (score b - score a).

Definition byRating (a b : BakeryProduct) : Q :=
  rating (base b) - rating (base a).

(** The value [finalResults] of the [GET] handler, from the catalog
    ([MOCK_PRODUCTS]) and the parsed parameters; the specification calls
    it [search].  [None] when a call of [findMatches] does not return
    within [fuel]. *)
Definition finalResults (fuel : nat) (catalog : list BakeryProduct)
    (params : ParsedSearchParams) : option (list BakeryProduct) :=
  let filteredProducts := applyFilters catalog params in
  if negb (bool_decide (JS.trim (q params) = [])) then
    results ← mapM (λ product,
                 found ← findMatches fuel (name (base product)) (q params);
                 Some {| product := product;
                         score := calculateRelevanceScore product (q params);
                         matches := found |})
               filteredProducts;
    Some (product <$>
            JS.sort byScore
              (List.filter (λ result, bool_decide (0 < score result)) results))
  else
    Some (JS.sort byRating filteredProducts).

End Route.

(** ** Vocabulary of the statements *)

(** [params] with its logic mode replaced. *)
Definition withLogicMode (mode : FilterLogic) (params : ParsedSearchParams)
    : ParsedSearchParams :=
  {| q := q params; categories := categories params;
     minPrice := minPrice params; maxPrice := maxPrice params;
     minRating := minRating params; inStockParam := inStockParam params;
     organicParam := organicParam params; logicMode := mode |}.

(** Order by decreasing key, and the elements of one key. *)
Definition descending {A} (key : A → Z) (a b : A) : Prop := key b ≤ key a.

Definition hasKey {A} (key : A → Z) (k : Z) (a : A) : bool :=
  bool_decide (key a = k).

(** A highlight span [(start, end)] of a query of length [queryLength]
    inside a text of length [textLength]. *)
Definition validSpan (textLength queryLength : Z) (span : Z * Z) : Prop :=
  0 ≤ span.1 ∧ span.2 = span.1 + queryLength ∧ span.2 ≤ textLength.

(** The filter rule in the words of the specification: the five
    conditions a product has to meet. *)
Definition meetsFilterRule (params : ParsedSearchParams)
    (product : BakeryProduct) : Prop :=
  let selected : gset jsstring := list_to_set (categories params) in
  (selected ≠ ∅ → categoryName (category product) ∈ selected) ∧
  (minPrice params <= price (base product))%Q ∧
  (price (base product) <= maxPrice params)%Q ∧
  (minRating params <= rating (base product))%Q ∧
  (∀ wanted, inStockParam params = Some wanted →
     inStock (base product) = wanted) ∧
  (∀ wanted, organicParam params = Some wanted →
     ∃ b proteinContent, product = FlourProduct b proteinContent wanted).

(** Strings of Basic Latin code units. *)
Definition isASCII (s : jsstring) : Prop := Forall (λ c, (c < 128)%N) s.

(** An occurrence of the protein pattern in a query: after [before], a
    non-empty run of digits, an optional percent sign, white space and the
    word [protein] in any mix of cases. *)
Definition isProteinWord (w : jsstring) : Prop :=
  Forall2 (λ c l : N, c = l ∨ c = (l - 32)%N) w (js "protein").

Definition proteinOccurrence (query before digits : jsstring) : Prop :=
  ∃ percent spaces word after,
    query = before ++ digits ++ percent ++ spaces ++ word ++ after ∧
    digits ≠ [] ∧ Forall (λ c, JS.isDigit c = true) digits ∧
    (percent = [] ∨ percent = [37%N]) ∧
    Forall (λ c, JS.isWhiteSpace c = true) spaces ∧
    isProteinWord word.

(** ** Sample data

    A small catalog in the shape of [MOCK_PRODUCTS], used to evaluate the
    route on concrete inputs. *)
Module Sample.

Definition flourProduct : BakeryProduct :=
  FlourProduct
    {| id := js "flour-001"; name := js "Artisan Bread Flour";
       brand := js "King Arthur"; price := 1299 # 100;
       description := js "High-protein flour for crusty loaves";
       inStock := true; rating := 47 # 10;
       tags := [js "bread"; js "organic"] |}
    (23 # 2) true.

Definition bannetonProduct : BakeryProduct :=
  BannetonProduct
    {| id := js "banneton-001"; name := js "Bread Proofing Basket";
       brand := js "Sourhouse"; price := 2450 # 100;
       description := js "Round rattan basket"; inStock := true;
       rating := 5; tags := [js "proofing"] |}.

Definition ovenProduct : BakeryProduct :=
  OvenProduct
    {| id := js "oven-001"; name := js "Deck Oven Pro";
       brand := js "Bread Masters"; price := 4200;
       description := js "Stone deck oven"; inStock := false;
       rating := 4; tags := [] |}
    [js "steam-injection"; js "stone-deck"].

Definition catalog : list BakeryProduct :=
  [ovenProduct; bannetonProduct; flourProduct].

(** The parameters the handler parses from [?q=bread]. *)
Definition params : ParsedSearchParams :=
  {| q := js "bread"; categories := []; minPrice := 0; maxPrice := 5000;
     minRating := 0; inStockParam := None; organicParam := None;
     logicMode := AND |}.

Definition withQuery (query : jsstring) : ParsedSearchParams :=
  {| q := query; categories := []; minPrice := 0; maxPrice := 5000;
     minRating := 0; inStockParam := None; organicParam := None;
     logicMode := AND |}.

(** [?categories=oven&organic=true]. *)
Definition ovenOrganic : ParsedSearchParams :=
  {| q := []; categories := [js "oven"]; minPrice := 0; maxPrice := 5000;
     minRating := 0; inStockParam := None; organicParam := Some true;
     logicMode := AND |}.

(** U+0061, U+0591 (class 220), U+034F COMBINING GRAPHEME JOINER,
    U+05B0 (class 10): canonically ordered as long as the joiner
    separates the two marks. *)
Definition joined : jsstring := [97; 1425; 847; 1456]%N.

(** " Café " with U+00E9. *)
Definition cafe : jsstring := [32; 67; 97; 102; 233; 32]%N.

End Sample.

(** ** Further built-ins: slices, split and join, sets, URL parameters *)

Module JSArray.

(** A relative index of [slice]: negative counts from the end, and the
    result is clamped to [0 .. len]. *)
Definition relativeIndex (len index : Z) : Z :=
  if index <? 0 then Z.max (len + index) 0 else Z.min index len.

(** [Array.prototype.slice(start, end)] and [String.prototype.slice]. *)
Definition slice {A} (l : list A) (start stop : Z) : list A :=
  let len := Z.of_nat (length l) in
  let k := relativeIndex len start in
  let final := relativeIndex len stop in
  take (Z.to_nat (final - k)) (drop (Z.to_nat k) l).

(** [slice(start)], the end left out. *)
Definition sliceFrom {A} (l : list A) (start : Z) : list A :=
  slice l start (Z.of_nat (length l)).

(** [String.prototype.split(separator)] for a separator of one code
    unit, the only kind the code uses. *)
Fixpoint split (separator : N) (s : jsstring) : list jsstring :=
  match s with
  | [] => [[]]
  | c :: s' =>
      if (c =? separator)%N then [] :: split separator s'
      else match split separator s' with
           | piece :: pieces => (c :: piece) :: pieces
           | [] => [[c]]
           end
  end.

(** [Array.prototype.join(separator)] on strings, same separators. *)
Fixpoint join (separator : N) (pieces : list jsstring) : jsstring :=
  match pieces with
  | [] => []
  | [piece] => piece
  | piece :: pieces' => piece ++ separator :: join separator pieces'
  end.

End JSArray.

(** A JavaScript [Set]: its members in insertion order, each once. *)
Module JSSet.
Section Ops.
Context {A : Type} `{EqDecision A}.

Definition has (s : list A) (x : A) : bool := bool_decide (x ∈ s).

Definition add (s : list A) (x : A) : list A :=
  if has s x then s else s ++ [x].

Definition delete (s : list A) (x : A) : list A :=
  List.filter (λ y, negb (bool_decide (y = x))) s.
End Ops.
End JSSet.

(** Strings without unpaired surrogates (USVString of Web IDL). *)
Module USVString.

Definition isLeadSurrogate (c : N) : bool :=
  ((55296 <=? c) && (c <=? 56319))%N.

Definition isTrailSurrogate (c : N) : bool :=
  ((56320 <=? c) && (c <=? 57343))%N.

(** [String.prototype.isWellFormed]: every lead surrogate is followed
    by a trail surrogate, and every trail surrogate follows a lead. *)
Fixpoint isWellFormed (s : jsstring) : bool :=
  match s with
  | [] => true
  | c :: rest =>
      if isLeadSurrogate c then
        match rest with
        | d :: rest' => isTrailSurrogate d && isWellFormed rest'
        | [] => false
        end
      else negb (isTrailSurrogate c) && isWellFormed rest
  end.

(** The conversion of a string to a USVString
    ([String.prototype.toWellFormed]): an unpaired surrogate becomes
    U+FFFD. *)
Fixpoint convert (s : jsstring) : jsstring :=
  match s with
  | [] => []
  | c :: rest =>
      if isLeadSurrogate c then
        match rest with
        | d :: rest' =>
            if isTrailSurrogate d then c :: d :: convert rest'
            else 65533%N :: convert rest
        | [] => [65533%N]
        end
      else if isTrailSurrogate c then 65533%N :: convert rest
      else c :: convert rest
  end.

End USVString.

(** [URLSearchParams]: the name-value pairs in order.  The pairs the
    client appends are the pairs the handler reads from [request.url];
    the percent-encoding in between is the platform's.  Names and values
    are USVStrings: the platform converts what is appended
    ([USVString.convert]), which changes nothing on a string without
    unpaired surrogates; the pairs are embedded for such strings. *)
Module URLSearchParams.

Definition t : Type := list (jsstring * jsstring).

Definition append (params : t) (name value : jsstring) : t :=
  params ++ [(name, value)].

(** [get(name)]: the value of the first pair of that name, [None] for
    [null]. *)
Definition get (params : t) (name : jsstring) : option jsstring :=
  snd <$> List.find (λ pair, bool_decide (pair.1 = name)) params.

End URLSearchParams.

#[global] Instance ProductCategory_eq_dec : EqDecision ProductCategory.
Proof. solve_decision. Defined.

(** ** The parameters the handler parses

    The fields [q], [categories], [inStock], [organic] and [logicMode] of
    the object [params] in [GET], as functions of the URL parameters. *)
Module Parsed.

(** [searchParams.get('q') || '']. *)
Definition q (searchParams : URLSearchParams.t) : jsstring :=
  match URLSearchParams.get searchParams (js "q") with
  | Some (c :: s) => c :: s
  | _ => []
  end.

(** [categories]: split at the commas, trim the pieces, keep the
    non-empty ones; no categories when the parameter is missing or
    empty. *)
Definition categories (searchParams : URLSearchParams.t) : list jsstring :=
  match URLSearchParams.get searchParams (js "categories") with
  | Some (c :: s) =>
      List.filter (λ c, bool_decide (0 < JS.len c))
        (JS.trim <$> JSArray.split 44 (c :: s))
  | _ => []
  end.

(** [inStock] and [organic]: ['true'], ['false'], or [undefined]. *)
Definition flag (searchParams : URLSearchParams.t) (name : jsstring)
    : option bool :=
  if bool_decide (URLSearchParams.get searchParams name = Some (js "true"))
  then Some true
  else if bool_decide
            (URLSearchParams.get searchParams name = Some (js "false"))
  then Some false
  else None.

(** [logicMode]: ['OR'] when asked for, ['AND'] otherwise. *)
Definition logicMode (searchParams : URLSearchParams.t) : FilterLogic :=
  if bool_decide
       (URLSearchParams.get searchParams (js "logicMode") = Some (js "OR"))
  then OR else AND.

End Parsed.

(** ** The client's filter state *)

Module Filters.

(** [FilterState]. *)
Record FilterState := {
  categories : list ProductCategory;
  priceRangeMin : Q;
  priceRangeMax : Q;
  minRating : Q;
  inStock : option bool;
  organic : option bool;
  logicMode : FilterLogic
}.

(** [FilterAction]. *)
Inductive FilterAction :=
| SET_CATEGORIES (payload : list ProductCategory)
| ADD_CATEGORY (payload : ProductCategory)
| REMOVE_CATEGORY (payload : ProductCategory)
| TOGGLE_CATEGORY (payload : ProductCategory)
| SET_PRICE_RANGE (min max : Q)
| SET_MIN_RATING (payload : Q)
| SET_IN_STOCK (payload : option bool)
| SET_ORGANIC (payload : option bool)
| SET_LOGIC_MODE (payload : FilterLogic)
| CLEAR_ALL.

(** [ActiveFilters]. *)
Record ActiveFilters := {
  categoryCount : Z;
  hasPriceFilter : bool;
  hasRatingFilter : bool;
  hasStockFilter : bool;
  hasOrganicFilter : bool;
  total : Z
}.

Section WithPriceRange.
(** [PRICE_RANGE] of the data helpers, computed there from the
    catalog. *)
Context (PRICE_RANGE : Q * Q).

Definition EMPTY_FILTER_STATE : FilterState :=
  {| categories := []; priceRangeMin := PRICE_RANGE.1;
     priceRangeMax := PRICE_RANGE.2; minRating := 0; inStock := None;
     organic := None; logicMode := AND |}.

(** [filterReducer(state, action)]. *)
Definition filterReducer (state : FilterState) (action : FilterAction)
    : FilterState :=
  match action with
  | SET_CATEGORIES payload =>
      {| categories := payload;
         priceRangeMin := priceRangeMin state;
         priceRangeMax := priceRangeMax state;
         minRating := minRating state; inStock := inStock state;
         organic := organic state; logicMode := logicMode state |}
  | ADD_CATEGORY payload =>
      let newCategories := JSSet.add (categories state) payload in
      {| categories := newCategories;
         priceRangeMin := priceRangeMin state;
         priceRangeMax := priceRangeMax state;
         minRating := minRating state; inStock := inStock state;
         organic := organic state; logicMode := logicMode state |}
  | REMOVE_CATEGORY payload =>
      let newCategories := JSSet.delete (categories state) payload in
      {| categories := newCategories;
         priceRangeMin := priceRangeMin state;
         priceRangeMax := priceRangeMax state;
         minRating := minRating state; inStock := inStock state;
         organic := organic state; logicMode := logicMode state |}
  | TOGGLE_CATEGORY payload =>
      let newCategories :=
        if JSSet.has (categories state) payload
        then JSSet.delete (categories state) payload
        else JSSet.add (categories state) payload in
      {| categories := newCategories;
         priceRangeMin := priceRangeMin state;
         priceRangeMax := priceRangeMax state;
         minRating := minRating state; inStock := inStock state;
         organic := organic state; logicMode := logicMode state |}
  | SET_PRICE_RANGE min max =>
      {| categories := categories state;
         priceRangeMin := min; priceRangeMax := max;
         minRating := minRating state; inStock := inStock state;
         organic := organic state; logicMode := logicMode state |}
  | SET_MIN_RATING payload =>
      {| categories := categories state;
         priceRangeMin := priceRangeMin state;
         priceRangeMax := priceRangeMax state;
         minRating := payload; inStock := inStock state;
         organic := organic state; logicMode := logicMode state |}
  | SET_IN_STOCK payload =>
      {| categories := categories state;
         priceRangeMin := priceRangeMin state;
         priceRangeMax := priceRangeMax state;
         minRating := minRating state; inStock := payload;
         organic := organic state; logicMode := logicMode state |}
  | SET_ORGANIC payload =>
      {| categories := categories state;
         priceRangeMin := priceRangeMin state;
         priceRangeMax := priceRangeMax state;
         minRating := minRating state; inStock := inStock state;
         organic := payload; logicMode := logicMode state |}
  | SET_LOGIC_MODE payload =>
      {| categories := categories state;
         priceRangeMin := priceRangeMin state;
         priceRangeMax := priceRangeMax state;
         minRating := minRating state; inStock := inStock state;
         organic := organic state; logicMode := payload |}
  | CLEAR_ALL => EMPTY_FILTER_STATE
  end.

(** [getActiveFilterCount(state)]. *)
Definition getActiveFilterCount (state : FilterState) : ActiveFilters :=
  let categoryCount := Z.of_nat (length (categories state)) in
  let hasPriceFilter :=
    JS.lt PRICE_RANGE.1 (priceRangeMin state)
    || JS.lt (priceRangeMax state) PRICE_RANGE.2 in
  let hasRatingFilter := JS.lt 0 (minRating state) in
  let hasStockFilter := bool_decide (inStock state ≠ None) in
  let hasOrganicFilter := bool_decide (organic state ≠ None) in
  {| categoryCount := categoryCount;
     hasPriceFilter := hasPriceFilter;
     hasRatingFilter := hasRatingFilter;
     hasStockFilter := hasStockFilter;
     hasOrganicFilter := hasOrganicFilter;
     total :=
       categoryCount + (if hasPriceFilter then 1 else 0)
       + (if hasRatingFilter then 1 else 0)
       + (if hasStockFilter then 1 else 0)
       + (if hasOrganicFilter then 1 else 0) |}.

(** [hasActiveFilters(state)]. *)
Definition hasActiveFilters (state : FilterState) : bool :=
  bool_decide (0 < total (getActiveFilterCount state)).
End WithPriceRange.

Definition booleanToString (b : bool) : jsstring :=
  if b then js "true" else js "false".

Definition logicModeName (mode : FilterLogic) : jsstring :=
  match mode with AND => js "AND" | OR => js "OR" end.

(** [buildSearchURL(query, filters)] of the search hook, up to the
    serialisation of the parameters; [numberToString] is the runtime's
    [Number.prototype.toString]. *)
Definition buildSearchURL (numberToString : Q → jsstring)
    (query : jsstring) (filters : FilterState) : URLSearchParams.t :=
  let params : URLSearchParams.t := [] in
  let params :=
    if negb (bool_decide (JS.trim query = []))
    then URLSearchParams.append params (js "q") (JS.trim query)
    else params in
  let params :=
    if bool_decide (0 < length (categories filters))%nat
    then
      let categoriesArray := categoryName <$> categories filters in
      URLSearchParams.append params (js "categories")
        (JSArray.join 44 categoriesArray)
    else params in
  let params :=
    if JS.lt 0 (priceRangeMin filters)
    then URLSearchParams.append params (js "minPrice")
           (numberToString (priceRangeMin filters))
    else params in
  let params :=
    if JS.lt (priceRangeMax filters) 5000
    then URLSearchParams.append params (js "maxPrice")
           (numberToString (priceRangeMax filters))
    else params in
  let params :=
    if JS.lt 0 (minRating filters)
    then URLSearchParams.append params (js "minRating")
           (numberToString (minRating filters))
    else params in
  let params :=
    match inStock filters with
    | Some wanted =>
        URLSearchParams.append params (js "inStock") (booleanToString wanted)
    | None => params
    end in
  let params :=
    match organic filters with
    | Some wanted =>
        URLSearchParams.append params (js "organic") (booleanToString wanted)
    | None => params
    end in
  URLSearchParams.append params (js "logicMode")
    (logicModeName (logicMode filters)).

End Filters.

(** ** The product index route and the local index search *)

(** [ParsedFilterParams] of the index route. *)
Module IndexParams.
Record ParsedFilterParams := {
  categories : list jsstring;
  minPrice : Q;
  maxPrice : Q;
  minRating : Q;
  inStock : option bool;
  organic : option bool
}.
End IndexParams.

(** [ProductIndexItem]. *)
Module IndexItem.
Record ProductIndexItem := {
  name : jsstring;
  category : jsstring
}.
End IndexItem.

Module IndexRoute.

(** [applyFilters(products, params)] of the index route, a copy of the
    one of the products route. *)
Definition applyFilters (products : list BakeryProduct)
    (params : IndexParams.ParsedFilterParams) : list BakeryProduct :=
  let categorySet : gset jsstring :=
    list_to_set (IndexParams.categories params) in
  List.filter
    (λ product,
       if bool_decide (0 < size categorySet)%nat
          && negb (bool_decide
                     (categoryName (category product) ∈ categorySet))
       then false
       else if JS.lt (price (base product)) (IndexParams.minPrice params)
               || JS.lt (IndexParams.maxPrice params) (price (base product))
       then false
       else if JS.lt (rating (base product)) (IndexParams.minRating params)
       then false
       else if match IndexParams.inStock params with
               | Some wanted =>
                   negb (bool_decide
                           (inStock (base product) = wanted))
               | None => false
               end
       then false
       else match IndexParams.organic params with
            | Some wanted =>
                match product with
                | FlourProduct _ _ isOrganic =>
                    if negb (bool_decide (isOrganic = wanted)) then false
                    else true
                | _ => false
                end
            | None => true
            end)
    products.

(** [createIndex(products)]. *)
Definition createIndex (products : list BakeryProduct)
    : list IndexItem.ProductIndexItem :=
  (λ product,
     {| IndexItem.name := name (base product);
        IndexItem.category := categoryName (category product) |})
  <$> products.

(** The [index] of the response of the index route. *)
Definition index (catalog : list BakeryProduct)
    (params : IndexParams.ParsedFilterParams)
    : list IndexItem.ProductIndexItem :=
  createIndex (applyFilters catalog params).

End IndexRoute.

Module ProductIndex.

(** [searchIndex(query, index, maxResults)] of the index hook; its
    [normalizeString] is a copy of the one of the route. *)
Definition searchIndex `{runtime : Runtime} (query : jsstring)
    (index : list IndexItem.ProductIndexItem) (maxResults : Z)
    : list IndexItem.ProductIndexItem :=
  if bool_decide (JS.trim query = []) || bool_decide (length index = 0%nat)
  then []
  else
    let normalizedQuery := normalizeString query in
    JSArray.slice
      (List.filter
         (λ item,
            let normalizedName := normalizeString (IndexItem.name item) in
            JS.includes normalizedName normalizedQuery)
         index)
      0 maxResults.

End ProductIndex.

(** ** Highlighting *)

Module Highlight.

(** [TextSegment]. *)
Record TextSegment := {
  text : jsstring;
  isHighlighted : bool
}.

(** The callback of the [reduce] in [splitTextWithMatches]; the
    accumulator is [(segments, lastIndex)]. *)
Definition addMatch (fullText : jsstring) (acc : list TextSegment * Z)
    (found : Z * Z) : list TextSegment * Z :=
  let '(segments, lastIndex) := acc in
  let '(start, stop) := found in
  let beforeSegment :=
    if lastIndex <? start
    then [{| text := JSArray.slice fullText lastIndex start;
             isHighlighted := false |}]
    else [] in
  let highlightSegment :=
    {| text := JSArray.slice fullText start stop; isHighlighted := true |} in
  (segments ++ beforeSegment ++ [highlightSegment], stop).

(** [splitTextWithMatches(text, matches)]. *)
Definition splitTextWithMatches (fullText : jsstring)
    (matches : list (Z * Z)) : list TextSegment :=
  if bool_decide (length matches = 0%nat)
  then [{| text := fullText; isHighlighted := false |}]
  else
    let '(segments, lastIndex) := foldl (addMatch fullText) ([], 0) matches in
    if lastIndex <? JS.len fullText
    then segments
           ++ [{| text := JSArray.sliceFrom fullText lastIndex;
                  isHighlighted := false |}]
    else segments.

(** [findMatches(text, query)] of the component: all matches of the
    regular expression [new RegExp(escapeRegExp(query.trim()), 'gi')].
    The escaped pattern matches the code units of the trimmed query
    one by one, each up to the runtime's case folding of the
    [i] flag ([canonicalize]); [matchAll] reports the leftmost match
    from the end of the previous one on. *)
Section Matcher.
Context (canonicalize : N → N).

(** The pattern matches at the head of [text]. *)
Fixpoint matchesAt (pattern text : jsstring) : bool :=
  match pattern, text with
  | [], _ => true
  | _ :: _, [] => false
  | p :: pattern', c :: text' =>
      (canonicalize p =? canonicalize c)%N && matchesAt pattern' text'
  end.

(** [text.matchAll(regex)] for a non-empty pattern, as the spans
    [(match.index, match.index + match[0].length)]: [index] is the
    position of the head of [text], [inside] the number of code units
    of the previous match still to pass. *)
Fixpoint matchAll (pattern text : jsstring) (index : Z) (inside : nat)
    : list (Z * Z) :=
  match text with
  | [] => []
  | _ :: text' =>
      match inside with
      | S inside' => matchAll pattern text' (index + 1) inside'
      | O =>
          if matchesAt pattern text
          then (index, index + JS.len pattern)
               :: matchAll pattern text' (index + 1)
                    (length pattern - 1)
          else matchAll pattern text' (index + 1) 0
      end
  end.

Definition findMatches (fullText query : jsstring) : list (Z * Z) :=
  if bool_decide (JS.trim query = []) then []
  else matchAll (JS.trim query) fullText 0 0.
End Matcher.

(** Spans in order, apart and inside a text of length [len], from
    [lastIndex] on. *)
Fixpoint orderedSpans (lastIndex : Z) (matches : list (Z * Z)) (len : Z)
    : Prop :=
  match matches with
  | [] => lastIndex ≤ len
  | (start, stop) :: rest =>
      lastIndex ≤ start ∧ start ≤ stop ∧ orderedSpans stop rest len
  end.

End Highlight.

(** ** Recent searches *)

Module RecentSearches.

(** [RecentSearch]. *)
Record RecentSearch := {
  query : jsstring;
  timestamp : Z;
  resultCount : option Z
}.

Definition MAX_ITEMS : Z := 5.

(** The state update of [addSearch(query, resultCount)]; [now] is
    [Date.now()].  A blank query leaves the state alone. *)
Definition addSearch `{runtime : Runtime} (now : Z) (newQuery : jsstring)
    (count : option Z) (prevSearches : list RecentSearch)
    : list RecentSearch :=
  if bool_decide (JS.trim newQuery = []) then prevSearches
  else
    let normalizedQuery := toLowerCase newQuery in
    let withoutDuplicates :=
      List.filter
        (λ search,
           negb (bool_decide (toLowerCase (query search) = normalizedQuery)))
        prevSearches in
    let newSearch :=
      {| query := JS.trim newQuery; timestamp := now; resultCount := count |} in
    JSArray.slice (newSearch :: withoutDuplicates) 0 MAX_ITEMS.

(** The state update of [removeSearch(query)]. *)
Definition removeSearch `{runtime : Runtime} (oldQuery : jsstring)
    (prevSearches : list RecentSearch) : list RecentSearch :=
  let normalizedQuery := toLowerCase oldQuery in
  List.filter
    (λ search,
       negb (bool_decide (toLowerCase (query search) = normalizedQuery)))
    prevSearches.

End RecentSearches.

(** ** Numbers in the URL

    [Number(string)] and [Number.prototype.toString] are the runtime's.
    A JavaScript number is a finite double (embedded as the rational it
    denotes), [NaN], or an infinity. *)
Module JSNumber.

Inductive t :=
| Finite (value : Q)
| NaN
| Infinite (negative : bool).

(** [Number(value) || fallback], [value] being a string or [null]:
    [Number(null)] is 0, and 0 and [NaN] are falsy. *)
Definition numberOr (stringToNumber : jsstring → t)
    (value : option jsstring) (fallback : Q) : t :=
  match value with
  | None => Finite fallback
  | Some s =>
      match stringToNumber s with
      | Finite x => if Qeq_bool x 0 then Finite fallback else Finite x
      | NaN => Finite fallback
      | Infinite negative => Infinite negative
      end
  end.

End JSNumber.

(** ** The numbers of the [params] object, and the whole object *)
Module ParsedNumber.
Section WithRuntime.
Context (stringToNumber : jsstring → JSNumber.t).

(** [Number(searchParams.get('minPrice')) || 0]. *)
Definition minPrice (searchParams : URLSearchParams.t) : JSNumber.t :=
  JSNumber.numberOr stringToNumber
    (URLSearchParams.get searchParams (js "minPrice")) 0.

(** [Number(searchParams.get('maxPrice')) || 5000]. *)
Definition maxPrice (searchParams : URLSearchParams.t) : JSNumber.t :=
  JSNumber.numberOr stringToNumber
    (URLSearchParams.get searchParams (js "maxPrice")) 5000.

(** [Number(searchParams.get('minRating')) || 0]. *)
Definition minRating (searchParams : URLSearchParams.t) : JSNumber.t :=
  JSNumber.numberOr stringToNumber
    (URLSearchParams.get searchParams (js "minRating")) 0.
End WithRuntime.
End ParsedNumber.

(** [params] in [GET], when its three numbers are finite. *)
Definition parsedParams (stringToNumber : jsstring → JSNumber.t)
    (searchParams : URLSearchParams.t) : option ParsedSearchParams :=
  match ParsedNumber.minPrice stringToNumber searchParams,
        ParsedNumber.maxPrice stringToNumber searchParams,
        ParsedNumber.minRating stringToNumber searchParams with
  | JSNumber.Finite low, JSNumber.Finite high, JSNumber.Finite stars =>
      Some {| q := Parsed.q searchParams;
              categories := Parsed.categories searchParams;
              minPrice := low; maxPrice := high; minRating := stars;
              inStockParam := Parsed.flag searchParams (js "inStock");
              organicParam := Parsed.flag searchParams (js "organic");
              logicMode := Parsed.logicMode searchParams |}
  | _, _, _ => None
  end.

(** ** Keyboard navigation of a list *)
Module KeyboardNavigation.

(** [UseKeyboardNavigationOptions]; of the two callbacks, whether they
    are given. *)
Record Options := {
  itemCount : Z;
  onSelect : bool;
  onEscape : bool;
  isEnabled : bool;
  circular : bool
}.

(** What a key press does besides updating the index. *)
Inductive Effect :=
| preventDefault
| select (index : Z)
| escape.

(** [handleKeyDown(event)] as a function of [event.key] and of the
    active index (the state and the ref that mirrors it): the next
    active index and the effects, in order. *)
Definition handleKeyDown (options : Options) (key : jsstring)
    (activeIndex : Z) : Z * list Effect :=
  if negb (isEnabled options) || bool_decide (itemCount options = 0)
  then (activeIndex, [])
  else if bool_decide (key = js "ArrowDown") then
    ((if itemCount options - 1 <=? activeIndex
      then if circular options then 0 else itemCount options - 1
      else activeIndex + 1),
     [preventDefault])
  else if bool_decide (key = js "ArrowUp") then
    ((if activeIndex <=? 0
      then if circular options then itemCount options - 1 else 0
      else activeIndex - 1),
     [preventDefault])
  else if bool_decide (key = js "Home") then (0, [preventDefault])
  else if bool_decide (key = js "End")
  then (itemCount options - 1, [preventDefault])
  else if bool_decide (key = js "Enter") then
    let currentIndex := activeIndex in
    if (0 <=? currentIndex) && (currentIndex <? itemCount options)
       && onSelect options
    then (activeIndex, [preventDefault; select currentIndex])
    else (activeIndex, [])
  else if bool_decide (key = js "Escape") then
    (-1, preventDefault :: (if onEscape options then [escape] else []))
  else (activeIndex, []).

(** The index after a key press. *)
Definition press (options : Options) (key : jsstring) (activeIndex : Z)
    : Z :=
  (handleKeyDown options key activeIndex).1.

End KeyboardNavigation.

(** ** The search interface: filter tags and sorting *)
Module FilterTag.

Inductive TagType := category | price | rating | stock | organic.

(** [FilterTagData]; of [onRemove], the action it dispatches.  The
    label, a formatted text, is left out. *)
Record FilterTagData := {
  type : TagType;
  onRemove : Filters.FilterAction
}.

End FilterTag.

Module SortOption.
(** ['relevance' | 'price-asc' | 'price-desc' | 'rating']. *)
Inductive t := relevance | price_asc | price_desc | rating.
End SortOption.

Module SearchInterface.

(** [activeFilterTags], from the filter state. *)
Definition activeFilterTags (PRICE_RANGE : Q * Q)
    (filters : Filters.FilterState) : list FilterTag.FilterTagData :=
  let categoryTags :=
    (λ category,
       {| FilterTag.type := FilterTag.category;
          FilterTag.onRemove := Filters.TOGGLE_CATEGORY category |})
    <$> Filters.categories filters in
  let priceTag :=
    if JS.lt PRICE_RANGE.1 (Filters.priceRangeMin filters)
       || JS.lt (Filters.priceRangeMax filters) PRICE_RANGE.2
    then [{| FilterTag.type := FilterTag.price;
             FilterTag.onRemove :=
               Filters.SET_PRICE_RANGE PRICE_RANGE.1 PRICE_RANGE.2 |}]
    else [] in
  let ratingTag :=
    if JS.lt 0 (Filters.minRating filters)
    then [{| FilterTag.type := FilterTag.rating;
             FilterTag.onRemove := Filters.SET_MIN_RATING 0 |}]
    else [] in
  let stockTag :=
    if bool_decide (Filters.inStock filters = Some true)
    then [{| FilterTag.type := FilterTag.stock;
             FilterTag.onRemove := Filters.SET_IN_STOCK (Some false) |}]
    else [] in
  let organicTag :=
    if bool_decide (Filters.organic filters = Some true)
    then [{| FilterTag.type := FilterTag.organic;
             FilterTag.onRemove := Filters.SET_ORGANIC (Some false) |}]
    else [] in
  categoryTags ++ priceTag ++ ratingTag ++ stockTag ++ organicTag.

(** The comparators of [sortedProducts]. *)
Definition byPriceAscending (a b : BakeryProduct) : Q :=
  price (base a) - price (base b).

Definition byPriceDescending (a b : BakeryProduct) : Q :=
  price (base b) - price (base a).

Definition byRatingDescending (a b : BakeryProduct) : Q :=
  rating (base b) - rating (base a).

(** [sortedProducts], from the products served and the sort option;
    [toSorted] sorts as [sort] does, on a copy. *)
Definition sortedProducts (products : list BakeryProduct)
    (sortBy : SortOption.t) : list BakeryProduct :=
  if bool_decide (length products = 0%nat) then products
  else match sortBy with
       | SortOption.price_asc => JS.sort byPriceAscending products
       | SortOption.price_desc => JS.sort byPriceDescending products
       | SortOption.rating => JS.sort byRatingDescending products
       | SortOption.relevance => products
       end.

End SearchInterface.

(** ** The data helpers *)

From Stdlib Require Import Qround.

Module ProductData.

(** [Math.min(...values)] and [Math.max(...values)]; [None] is the
    infinity they answer for no value. *)
Fixpoint mathMin (values : list Q) : option Q :=
  match values with
  | [] => None
  | x :: rest =>
      match mathMin rest with
      | None => Some x
      | Some m => Some (if Qlt_le_dec m x then m else x)
      end
  end.

Fixpoint mathMax (values : list Q) : option Q :=
  match values with
  | [] => None
  | x :: rest =>
      match mathMax rest with
      | None => Some x
      | Some m => Some (if Qlt_le_dec x m then m else x)
      end
  end.

Section Catalog.
Context (MOCK_PRODUCTS : list BakeryProduct).

(** [PRICE_RANGE]: [(min, max)], when the catalog is not empty. *)
Definition PRICE_RANGE : option (Q * Q) :=
  match mathMin ((λ p, price (base p)) <$> MOCK_PRODUCTS),
        mathMax ((λ p, price (base p)) <$> MOCK_PRODUCTS) with
  | Some low, Some high =>
      Some (inject_Z (Qfloor low), inject_Z (Qceiling high))
  | _, _ => None
  end.

(** [PRODUCT_FACETS], the entries of the map in order. *)
Definition PRODUCT_FACETS : list (ProductCategory * Z) :=
  [ (flour,
     Z.of_nat
       (length (List.filter (λ p, bool_decide (category p = flour))
                  MOCK_PRODUCTS)));
    (banneton,
     Z.of_nat
       (length (List.filter (λ p, bool_decide (category p = banneton))
                  MOCK_PRODUCTS)));
    (oven,
     Z.of_nat
       (length (List.filter (λ p, bool_decide (category p = oven))
                  MOCK_PRODUCTS))) ].

(** [getProductCount(category)]. *)
Definition getProductCount (wanted : ProductCategory) : Z :=
  default 0
    (snd <$> List.find (λ entry, bool_decide (entry.1 = wanted))
               PRODUCT_FACETS).

(** The counts of [STOCK_STATS]. *)
Definition stockTotal : Z := Z.of_nat (length MOCK_PRODUCTS).

Definition stockInStock : Z :=
  Z.of_nat (length (List.filter (λ p, inStock (base p)) MOCK_PRODUCTS)).

Definition stockOutOfStock : Z :=
  Z.of_nat
    (length (List.filter (λ p, negb (inStock (base p))) MOCK_PRODUCTS)).

(** [getProductsByCategory(category)]. *)
Definition getProductsByCategory (wanted : ProductCategory)
    : list BakeryProduct :=
  List.filter (λ p, bool_decide (category p = wanted)) MOCK_PRODUCTS.

(** [getProductsByPriceRange(min, max)]; [a <= b] is [b >= a] on
    numbers. *)
Definition getProductsByPriceRange (min max : Q) : list BakeryProduct :=
  List.filter
    (λ p, JS.ge (price (base p)) min && JS.ge max (price (base p)))
    MOCK_PRODUCTS.
End Catalog.

End ProductData.

(** ** Vocabulary of the further properties *)

(** What every row of the Levenshtein table satisfies after row [i]:
    each cell up to [n] is there, is not negative, is at most [i + 1] from
    the first computed row on, and is 0 only on the diagonal of equal
    prefixes. *)
Definition levenshteinRowInvariant (str1 str2 : jsstring) (n i : nat)
    (row : list Z) : Prop :=
  ∀ j, (j ≤ n)%nat →
    ∃ v, row !! j = Some v ∧ 0 ≤ v ∧
         ((1 ≤ i)%nat → v ≤ Z.of_nat i + 1) ∧
         (v = 0 ↔ j = i ∧ take i str1 = take i str2).

(** The feature list of an oven product; other products have none. *)
Definition featuresOf (product : BakeryProduct) : list jsstring :=
  match product with
  | OvenProduct _ features => features
  | _ => []
  end.

(** A string of white space only (the empty string included). *)
Definition isBlank (s : jsstring) : Prop :=
  Forall (λ c, JS.isWhiteSpace c = true) s.

(** [needle] occurs in [text] at index [i]. *)
Definition occursAt (text needle : jsstring) (i : Z) : Prop :=
  0 ≤ i ∧ take (length needle) (drop (Z.to_nat i) text) = needle.

(** Order by decreasing rational key, and the elements of one key. *)
Definition descendingQ {A} (key : A → Q) (a b : A) : Prop :=
  (key b <= key a)%Q.

Definition hasKeyQ {A} (key : A → Q) (k : Q) (a : A) : bool :=
  Qeq_bool (key a) k.

Definition ratingOf (product : BakeryProduct) : Q := rating (base product).

(** [params] with its category list replaced. *)
Definition withCategories (selected : list jsstring)
    (params : ParsedSearchParams) : ParsedSearchParams :=
  {| q := q params; categories := selected;
     minPrice := minPrice params; maxPrice := maxPrice params;
     minRating := minRating params; inStockParam := inStockParam params;
     organicParam := organicParam params; logicMode := logicMode params |}.

(** The filter fields of [params], as the index route takes them. *)
Definition filterParamsOf (params : ParsedSearchParams)
    : IndexParams.ParsedFilterParams :=
  {| IndexParams.categories := categories params;
     IndexParams.minPrice := minPrice params;
     IndexParams.maxPrice := maxPrice params;
     IndexParams.minRating := minRating params;
     IndexParams.inStock := inStockParam params;
     IndexParams.organic := organicParam params |}.

(** The index item of a product. *)
Definition indexItemOf (product : BakeryProduct) : IndexItem.ProductIndexItem :=
  {| IndexItem.name := name (base product);
     IndexItem.category := categoryName (category product) |}.

(** The texts of the segments, and those of the highlighted ones. *)
Definition segmentTexts (segments : list Highlight.TextSegment)
    : list jsstring :=
  Highlight.text <$> segments.

Definition highlightedTexts (segments : list Highlight.TextSegment)
    : list jsstring :=
  Highlight.text <$> List.filter Highlight.isHighlighted segments.

(** The price of a product, and order by increasing rational key. *)
Definition priceOf (product : BakeryProduct) : Q := price (base product).

Definition ascendingQ {A} (key : A → Q) (a b : A) : Prop :=
  (key a <= key b)%Q.

(** ** Further sample data *)

From stdpp Require pretty.

Module Scenario.

(** [?minPrice=50&maxPrice=10]: the bounds the wrong way round. *)
Definition reversedPrices : ParsedSearchParams :=
  {| q := []; categories := []; minPrice := 50; maxPrice := 10;
     minRating := 0; inStockParam := None; organicParam := None;
     logicMode := AND |}.

(** [?q=+] : a query of one space. *)
Definition blankQuery : ParsedSearchParams := Sample.withQuery (js " ").

(** [?categories=+flour,,oven+]. *)
Definition categoriesURL : URLSearchParams.t :=
  [(js "categories", js " flour,,oven ")].

(** The span of "bread" in "artisan bread flour". *)
Definition breadSpans : list (Z * Z) := [(8, 13)].

(** A history of two searches. *)
Definition history : list RecentSearches.RecentSearch :=
  [ {| RecentSearches.query := js "bread"; RecentSearches.timestamp := 2;
       RecentSearches.resultCount := Some 3 |};
    {| RecentSearches.query := js "rye"; RecentSearches.timestamp := 1;
       RecentSearches.resultCount := None |} ].

(** An excerpt of [Number.prototype.toString] and of [Number]: right on
    whole numbers that are not negative and on runs of decimal digits,
    which is all the sample data need. *)
Definition printWhole (x : Q) : jsstring := js (pretty.pretty (Qfloor x)).

Definition readWhole (s : jsstring) : JSNumber.t :=
  if forallb JS.isDigit s
  then match JS.parseInt s with
       | Some x => JSNumber.Finite x
       | None => JSNumber.Infinite false
       end
  else JSNumber.NaN.

(** [PRICE_RANGE] of the sample catalog. *)
Definition priceRange : Q * Q := (12%Q, 4200%Q).

(** A filter state with only the stock filter set, and one with the
    three numbers set. *)
Definition inStockOnly : Filters.FilterState :=
  {| Filters.categories := []; Filters.priceRangeMin := 12;
     Filters.priceRangeMax := 4200; Filters.minRating := 0;
     Filters.inStock := Some true; Filters.organic := None;
     Filters.logicMode := AND |}.

Definition priced : Filters.FilterState :=
  {| Filters.categories := [flour]; Filters.priceRangeMin := 10;
     Filters.priceRangeMax := 50; Filters.minRating := 4;
     Filters.inStock := None; Filters.organic := None;
     Filters.logicMode := AND |}.

(** The tag of the stock filter. *)
Definition stockTag : FilterTag.FilterTagData :=
  {| FilterTag.type := FilterTag.stock;
     FilterTag.onRemove := Filters.SET_IN_STOCK (Some false) |}.

(** What the handler parses once that tag is removed from
    [inStockOnly] (the query being "bread"). *)
Definition afterStockTag : ParsedSearchParams :=
  {| q := js "bread"; categories := []; minPrice := 12; maxPrice := 4200;
     minRating := 0; inStockParam := Some false; organicParam := None;
     logicMode := AND |}.

(** Navigation over three suggestions. *)
Definition threeItems : KeyboardNavigation.Options :=
  {| KeyboardNavigation.itemCount := 3;
     KeyboardNavigation.onSelect := true;
     KeyboardNavigation.onEscape := true;
     KeyboardNavigation.isEnabled := true;
     KeyboardNavigation.circular := true |}.

End Scenario.

(** * Properties *)

(** ** Facts about the built-ins *)

Module JSFacts.
Import JS.

Lemma trimStart_head_not_space s c r :
  trimStart s = c :: r → isWhiteSpace c = false.
Proof.
  induction s as [|x s IH]; simpl; [discriminate|].
  destruct (isWhiteSpace x) eqn:Hx; [exact IH|].
  intros [= <- _]. exact Hx.
Qed.

Lemma trimStart_fixed c r :
  isWhiteSpace c = false → trimStart (c :: r) = c :: r.
Proof. intros H. simpl. by rewrite H. Qed.

Lemma trimStart_snoc s c :
  isWhiteSpace c = false → trimStart (s ++ [c]) = trimStart s ++ [c].
Proof.
  intros Hc. induction s as [|x s IH]; simpl.
  - by rewrite Hc.
  - destruct (isWhiteSpace x); [exact IH|reflexivity].
Qed.

Lemma trimStart_idempotent s : trimStart (trimStart s) = trimStart s.
Proof.
  destruct (trimStart s) as [|c r] eqn:E; [reflexivity|].
  apply trimStart_fixed. eapply trimStart_head_not_space, E.
Qed.

Lemma trimEnd_idempotent s : trimEnd (trimEnd s) = trimEnd s.
Proof.
  unfold trimEnd. by rewrite reverse_involutive, trimStart_idempotent.
Qed.

(** Trimming the end leaves a trimmed start alone. *)
Lemma trimStart_trimEnd s :
  trimStart (trimEnd (trimStart s)) = trimEnd (trimStart s).
Proof.
  destruct (trimStart s) as [|c r] eqn:E; [reflexivity|].
  pose proof (trimStart_head_not_space _ _ _ E) as Hc.
  unfold trimEnd. rewrite reverse_cons, trimStart_snoc by exact Hc.
  rewrite reverse_app. simpl. by rewrite Hc.
Qed.

Lemma trim_idempotent s : trim (trim s) = trim s.
Proof.
  unfold trim. by rewrite trimStart_trimEnd, trimEnd_idempotent.
Qed.

Lemma trimStart_incl s c : c ∈ trimStart s → c ∈ s.
Proof.
  induction s as [|x s IH]; simpl; [done|].
  destruct (isWhiteSpace x); set_solver.
Qed.

Lemma trim_incl s c : c ∈ trim s → c ∈ s.
Proof.
  unfold trim, trimEnd. rewrite elem_of_reverse. intros H.
  apply trimStart_incl. apply trimStart_incl in H.
  by rewrite elem_of_reverse in H.
Qed.

Lemma trimStart_keeps s c :
  c ∈ s → isWhiteSpace c = false → c ∈ trimStart s.
Proof.
  intros Hin Hc. induction s as [|x s IH]; simpl; [done|].
  destruct (isWhiteSpace x) eqn:Hx; [|done].
  apply elem_of_cons in Hin as [-> | Hin]; [congruence|by apply IH].
Qed.

Lemma trim_keeps s c : c ∈ s → isWhiteSpace c = false → c ∈ trim s.
Proof.
  intros Hin Hc. unfold trim, trimEnd. rewrite elem_of_reverse.
  apply trimStart_keeps; [|exact Hc]. rewrite elem_of_reverse.
  by apply trimStart_keeps.
Qed.

Lemma stripCombiningMarks_fixed s :
  (∀ c, c ∈ s → isCombiningMark c = false) → stripCombiningMarks s = s.
Proof.
  intros H. unfold stripCombiningMarks.
  induction s as [|x s IH]; simpl; [reflexivity|].
  rewrite (H x) by left. simpl. f_equal. apply IH.
  intros c Hc. apply H. by right.
Qed.

Lemma stripCombiningMarks_trim_strip s :
  stripCombiningMarks (trim (stripCombiningMarks s))
  = trim (stripCombiningMarks s).
Proof.
  apply stripCombiningMarks_fixed. intros c Hc.
  apply trim_incl, list_elem_of_In in Hc. unfold stripCombiningMarks in Hc.
  apply filter_In in Hc as [_ Hc]. by destruct (isCombiningMark c).
Qed.

(** *** [indexOf] *)

Lemma startsWith_length s needle :
  startsWith s needle = true → (length needle ≤ length s)%nat.
Proof.
  revert s. induction needle as [|d needle IH]; intros [|c s]; simpl;
    try lia; try discriminate.
  intros [_ H]%andb_prop. apply IH in H. lia.
Qed.

Lemma startsWith_nil s : startsWith s [] = true.
Proof. by destruct s. Qed.

Lemma stringIndexOf_bounds s needle i r :
  stringIndexOf s needle i = r → r ≠ -1 → 0 ≤ i →
  i ≤ r ∧ r + len needle ≤ i + len s.
Proof.
  unfold len. revert i. induction s as [|c s IH]; intros i;
    cbn [stringIndexOf].
  - destruct (startsWith [] needle) eqn:E.
    + apply startsWith_length in E. cbn [length] in *. intros <- _ ?. lia.
    + intros <- Hne. by destruct Hne.
  - destruct (startsWith (c :: s) needle) eqn:E.
    + apply startsWith_length in E. cbn [length] in *. intros <- _ ?. lia.
    + intros Hr Hne Hi. cbn [length].
      destruct (IH _ Hr Hne); lia.
Qed.

Lemma indexOf_bounds s needle position r :
  indexOf s needle position = r → r ≠ -1 →
  0 ≤ r ∧ Z.min (Z.max position 0) (len s) ≤ r ∧ r + len needle ≤ len s.
Proof.
  unfold indexOf. intros Hr Hne.
  apply stringIndexOf_bounds in Hr; [|exact Hne|unfold len; lia].
  unfold len in *. rewrite length_drop in Hr. lia.
Qed.

Lemma indexOf_bounds_nonempty s needle position r :
  needle ≠ [] → indexOf s needle position = r → r ≠ -1 →
  0 ≤ r ∧ position ≤ r ∧ r + len needle ≤ len s ∧ r < len s.
Proof.
  intros Hn Hr Hne. apply indexOf_bounds in Hr; [|exact Hne].
  assert (0 < len needle) by (unfold len; destruct needle; simpl; [done|lia]).
  lia.
Qed.

(** The empty needle is found at every position: [indexOf] never
    answers [-1] for it. *)
Lemma indexOf_empty_needle s position :
  indexOf s [] position = Z.min (Z.max position 0) (len s).
Proof.
  unfold indexOf.
  destruct (drop _ s); simpl; reflexivity.
Qed.

(** Past the end, a non-empty needle is not found. *)
Lemma indexOf_past_end s needle position :
  needle ≠ [] → len s ≤ position → indexOf s needle position = -1.
Proof.
  intros Hn Hp. unfold indexOf, len in *.
  rewrite drop_ge by lia. destruct needle; [done|reflexivity].
Qed.

End JSFacts.

(** ** The stable sort *)

Module SortFacts.
Import JS.

Section Keyed.
Context {A : Type} (comparefn : A → A → Q) (key : A → Z).

(** The comparator orders by decreasing key. *)
Hypothesis comparefn_key : ∀ x y, (0 < comparefn x y)%Q ↔ key x < key y.

Lemma insert_unfold x y l :
  insert comparefn x (y :: l)
  = if decide (key x < key y) then y :: insert comparefn x l else x :: y :: l.
Proof.
  simpl. destruct (Qlt_le_dec 0 (comparefn x y)) as [H|H], (decide (key x < key y)) as [H'|H'];
    try reflexivity.
  - by apply comparefn_key in H.
  - apply comparefn_key in H'. exfalso. eapply Qlt_not_le; eassumption.
Qed.

Lemma insert_perm x l : insert comparefn x l ≡ₚ x :: l.
Proof.
  induction l as [|y l IH]; [reflexivity|].
  rewrite insert_unfold. destruct (decide (key x < key y)); [|reflexivity].
  rewrite IH. apply Permutation_swap.
Qed.

Lemma sort_perm l : sort comparefn l ≡ₚ l.
Proof.
  induction l as [|x l IH]; [reflexivity|].
  unfold sort in *. simpl. by rewrite insert_perm, IH.
Qed.

Lemma insert_sorted x l :
  StronglySorted (descending key) l → StronglySorted (descending key) (insert comparefn x l).
Proof.
  induction l as [|y l IH]; intros Hs.
  - repeat constructor.
  - rewrite insert_unfold. apply StronglySorted_inv in Hs as [Hl Hy].
    destruct (decide (key x < key y)) as [Hxy|Hxy].
    + constructor; [by apply IH|].
      rewrite insert_perm. constructor; [unfold descending; lia|exact Hy].
    + constructor; [by constructor|].
      constructor; [unfold descending; lia|].
      eapply Forall_impl; [exact Hy|]. unfold descending. intros; simpl in *. lia.
Qed.

Lemma sort_sorted l : StronglySorted (descending key) (sort comparefn l).
Proof.
  induction l as [|x l IH]; [constructor|].
  unfold sort in *. simpl. by apply insert_sorted.
Qed.

(** Stability: the elements of one key keep their order. *)
Lemma filter_insert k x l :
  List.filter (hasKey key k) (insert comparefn x l) = List.filter (hasKey key k) (x :: l).
Proof.
  induction l as [|y l IH]; [reflexivity|].
  rewrite insert_unfold. destruct (decide (key x < key y)) as [Hxy|Hxy];
    [|reflexivity].
  cbn [List.filter] in *. rewrite IH. unfold hasKey.
  repeat case_bool_decide; try reflexivity. lia.
Qed.

Lemma sort_stable k l :
  List.filter (hasKey key k) (sort comparefn l) = List.filter (hasKey key k) l.
Proof.
  induction l as [|x l IH]; [reflexivity|].
  unfold sort in *. cbn [foldr]. rewrite filter_insert.
  cbn [List.filter]. by rewrite IH.
Qed.

(** A stable sort has one possible result: two lists in decreasing
    order of key with the same elements of every key, in the same
    order, are equal.  So [sort] is the stable sort by [comparefn]. *)
Lemma hasKey_head x l :
  hasKey key (key x) x = true ∧
  In x (List.filter (hasKey key (key x)) (x :: l)).
Proof.
  assert (hasKey key (key x) x = true) as E by by apply bool_decide_eq_true.
  split; [exact E|]. cbn [List.filter]. rewrite E. by left.
Qed.

Lemma stable_sorted_unique l1 l2 :
  StronglySorted (descending key) l1 →
  StronglySorted (descending key) l2 →
  (∀ k, List.filter (hasKey key k) l1 = List.filter (hasKey key k) l2) →
  l1 = l2.
Proof.
  intros H1. revert l2.
  induction H1 as [|x l1 _ IH Hx]; intros l2 H2 Hf.
  - destruct l2 as [|y l2]; [done|].
    destruct (hasKey_head y l2) as [_ Hin]. rewrite <- Hf in Hin. done.
  - destruct H2 as [|y l2 Hs2 Hy].
    { destruct (hasKey_head x l1) as [_ Hin]. rewrite Hf in Hin. done. }
    assert (key x = key y) as Hxy.
    { destruct (hasKey_head x l1) as [_ Hin1].
      destruct (hasKey_head y l2) as [_ Hin2].
      rewrite Hf in Hin1. rewrite <- Hf in Hin2.
      apply filter_In in Hin1 as [Hin1 _]. apply filter_In in Hin2 as [Hin2 _].
      rewrite Forall_forall in Hx, Hy. unfold descending in *.
      assert (key x ≤ key y).
      { destruct Hin1 as [-> | Hin1]; [lia|]. by apply Hy, list_elem_of_In. }
      assert (key y ≤ key x).
      { destruct Hin2 as [-> | Hin2]; [lia|]. by apply Hx, list_elem_of_In. }
      lia. }
    pose proof (Hf (key x)) as Hk. cbn [List.filter] in Hk.
    rewrite (proj1 (hasKey_head x l1)) in Hk.
    rewrite Hxy, (proj1 (hasKey_head y l2)) in Hk.
    injection Hk as -> _. f_equal. apply IH; [exact Hs2|].
    intros k. specialize (Hf k). cbn [List.filter] in Hf.
    destruct (hasKey key k y); [by injection Hf|done].
Qed.

Lemma sort_is_the_stable_sort l sorted :
  StronglySorted (descending key) sorted →
  (∀ k, List.filter (hasKey key k) sorted = List.filter (hasKey key k) l) →
  sorted = sort comparefn l.
Proof.
  intros Hs Hf. apply stable_sorted_unique; [exact Hs|apply sort_sorted|].
  intros k. by rewrite sort_stable.
Qed.
End Keyed.

End SortFacts.

(** ** Levenshtein matcher *)

(** C1. [levenshteinDistance] is not the classic edit distance: the third
    argument of its [Math.min] is [i + 1], the row index plus one, where
    the recurrence takes the cell to the left plus one.  Between "a" and
    "ab" one insertion suffices (the table gives 1), the route answers 2. *)
Theorem levenshteinDistance_misses_insertion :
  levenshteinDistance (js "a") (js "ab") = 2 ∧
  editDistance (js "a") (js "ab") = 1.
Proof. split; reflexivity. Qed.

(** C2. [levenshteinDistance] is not symmetric: it answers 2 from "a" to
    "ab" and 1 from "ab" to "a". *)
Theorem levenshteinDistance_not_symmetric :
  levenshteinDistance (js "a") (js "ab") = 2 ∧
  levenshteinDistance (js "ab") (js "a") = 1.
Proof. split; reflexivity. Qed.

(** ** Match locator *)

Section MatchLocator.
Context {runtime : Runtime}.

(** With the empty needle every call finds a position and recurses. *)
Lemma findAllMatches_empty_needle fuel text startIndex accumulator :
  findAllMatches fuel text [] startIndex accumulator = None.
Proof.
  revert startIndex accumulator.
  induction fuel as [|fuel IH]; intros startIndex accumulator; [reflexivity|].
  cbn [findAllMatches]. rewrite JSFacts.indexOf_empty_needle.
  destruct (decide _) as [E|_]; [|apply IH].
  unfold JS.len in E. lia.
Qed.

(** C3. For a query that normalises to the empty string [findMatches]
    does not return the empty list: whatever the recursion budget, the
    helper is still recursing when it runs out. *)
Theorem findMatches_blank_query_never_returns fuel text query :
  normalizeString query = [] → findMatches fuel text query = None.
Proof.
  intros E. unfold findMatches. rewrite E.
  apply findAllMatches_empty_needle.
Qed.


Lemma findAllMatches_spans text needle fuel startIndex accumulator spans :
  needle ≠ [] →
  Forall (validSpan (JS.len text) (JS.len needle)) accumulator →
  StronglySorted Z.lt accumulator.*1 →
  Forall (λ span, span.1 < startIndex) accumulator →
  findAllMatches fuel text needle startIndex accumulator = Some spans →
  Forall (validSpan (JS.len text) (JS.len needle)) spans ∧
  StronglySorted Z.lt spans.*1.
Proof.
  intros Hn. revert startIndex accumulator.
  induction fuel as [|fuel IH]; intros startIndex accumulator Hv Hs Hlt;
    [discriminate|].
  cbn [findAllMatches].
  destruct (decide _) as [E|E]; [intros [= <-]; by split|].
  pose proof (JSFacts.indexOf_bounds_nonempty _ _ _ _ Hn eq_refl E)
    as (H0 & Hle & Hend & _).
  apply IH.
  - apply Forall_app. split; [exact Hv|].
    constructor; [|constructor]. unfold validSpan. simpl. lia.
  - rewrite fmap_app. apply StronglySorted_app_2; [|exact Hs|repeat constructor].
    intros x y Hx Hy. simpl in Hy. apply list_elem_of_singleton in Hy as ->.
    apply list_elem_of_fmap in Hx as (span & -> & Hx).
    rewrite Forall_forall in Hlt. specialize (Hlt _ Hx). simpl in Hlt. lia.
  - apply Forall_app. split.
    + eapply Forall_impl; [exact Hlt|]. intros span ?. simpl in *. lia.
    + constructor; [simpl; lia|constructor].
Qed.

Lemma findAllMatches_returns text needle fuel startIndex accumulator :
  needle ≠ [] →
  (Z.to_nat (JS.len text - startIndex) < fuel)%nat →
  is_Some (findAllMatches fuel text needle startIndex accumulator).
Proof.
  intros Hn. revert startIndex accumulator.
  induction fuel as [|fuel IH]; intros startIndex accumulator Hf; [lia|].
  cbn [findAllMatches].
  destruct (decide _) as [E|E]; [by eexists|].
  pose proof (JSFacts.indexOf_bounds_nonempty _ _ _ _ Hn eq_refl E)
    as (H0 & Hle & _ & Hend).
  apply IH. lia.
Qed.

(** The budget only decides whether a result is reached, not which. *)
Lemma findAllMatches_more_fuel text needle fuel fuel' startIndex accumulator
    spans :
  findAllMatches fuel text needle startIndex accumulator = Some spans →
  (fuel ≤ fuel')%nat →
  findAllMatches fuel' text needle startIndex accumulator = Some spans.
Proof.
  revert fuel' startIndex accumulator.
  induction fuel as [|fuel IH]; intros fuel' startIndex accumulator;
    [discriminate|].
  destruct fuel' as [|fuel']; [lia|]. cbn [findAllMatches].
  destruct (decide _); [done|]. intros H ?. apply IH; [exact H|lia].
Qed.

(** C10. For a query whose normalised form is not empty, [findMatches]
    returns, and every span it returns starts at or after 0, ends
    [length (normalised query)] later and inside the normalised text;
    the starts are strictly increasing along the list. *)
Theorem findMatches_spans text query :
  normalizeString query ≠ [] →
  (∃ spans,
     findMatches (S (length (normalizeString text))) text query = Some spans) ∧
  ∀ fuel spans, findMatches fuel text query = Some spans →
    Forall (validSpan (JS.len (normalizeString text))
                      (JS.len (normalizeString query))) spans ∧
    StronglySorted Z.lt spans.*1.
Proof.
  intros Hn. split.
  - apply findAllMatches_returns; [exact Hn|]. unfold JS.len. lia.
  - intros fuel spans. apply findAllMatches_spans; try constructor. exact Hn.
Qed.

End MatchLocator.

(** ** The protein pattern *)

Module RegexFacts.
Import Regex.

Section Many.
Context {R : Type} (c : N → bool) (k : jsstring → jsstring → option R).

(** A run that cannot be extended is taken whole when the rest of the
    pattern then succeeds. *)
Lemma many_greedy run rest taken r :
  Forall (λ x, c x = true) run →
  (∀ x rest', rest = x :: rest' → c x = false) →
  k (taken ++ run) rest = Some r →
  many c k taken (run ++ rest) = Some r.
Proof.
  intros Hrun Hrest. revert taken.
  induction Hrun as [|x run Hx _ IH]; intros taken Hk.
  - rewrite app_nil_r in Hk. destruct rest as [|x rest']; simpl; [done|].
    by rewrite (Hrest x rest' eq_refl).
  - simpl. rewrite Hx, (IH (taken ++ [x])); [done|].
    by rewrite <- app_assoc.
Qed.

(** Whatever [many] answers comes from some run of the class. *)
Lemma many_sound taken s r :
  many c k taken s = Some r →
  ∃ run rest, s = run ++ rest ∧ Forall (λ x, c x = true) run ∧
              k (taken ++ run) rest = Some r.
Proof.
  revert taken. induction s as [|x s IH]; intros taken; simpl.
  - intros H. exists [], []. rewrite !app_nil_r. by repeat constructor.
  - destruct (c x) eqn:Hx.
    + destruct (many c k (taken ++ [x]) s) as [r'|] eqn:E.
      * intros [= <-]. apply IH in E as (run & rest & -> & Hrun & Hk).
        exists (x :: run), rest. rewrite <- app_assoc in Hk.
        split; [done|]. split; [by constructor|done].
      * intros H. exists [], (x :: s). rewrite !app_nil_r.
        by repeat constructor.
    + intros H. exists [], (x :: s). rewrite !app_nil_r.
      by repeat constructor.
Qed.
End Many.

Lemma isWhiteSpace_not_digit c :
  JS.isWhiteSpace c = true → JS.isDigit c = false.
Proof.
  unfold JS.isWhiteSpace, JS.isDigit. intros H.
  apply not_true_is_false. intros D.
  rewrite !orb_true_iff, !andb_true_iff, !N.leb_le, !N.eqb_eq in H.
  rewrite !andb_true_iff, !N.leb_le in D. lia.
Qed.

Lemma isWhiteSpace_not_percent c :
  JS.isWhiteSpace c = true → (c =? 37)%N = false.
Proof.
  unfold JS.isWhiteSpace. intros H. apply N.eqb_neq. intros ->.
  vm_compute in H. discriminate.
Qed.

(** The letters of [protein] as the pattern reads them. *)
Lemma isProteinWord_inv w :
  isProteinWord w ↔
  ∃ c1 c2 c3 c4 c5 c6 c7, w = [c1; c2; c3; c4; c5; c6; c7] ∧
    cls (letter 112) c1 = true ∧ cls (letter 114) c2 = true ∧
    cls (letter 111) c3 = true ∧ cls (letter 116) c4 = true ∧
    cls (letter 101) c5 = true ∧ cls (letter 105) c6 = true ∧
    cls (letter 110) c7 = true.
Proof.
  unfold isProteinWord.
  change (js "protein") with [112; 114; 111; 116; 101; 105; 110]%N.
  cbn [cls letter]. split.
  - intros H. repeat (apply Forall2_cons_inv_r in H as (? & ? & ? & H & ->)).
    apply Forall2_nil_inv_r in H as ->.
    do 7 eexists. split; [reflexivity|].
    rewrite !orb_true_iff, !N.eqb_eq. simpl in *. tauto.
  - intros (c1 & c2 & c3 & c4 & c5 & c6 & c7 & -> & H).
    rewrite !orb_true_iff, !N.eqb_eq in H. simpl in H.
    repeat (constructor; [tauto|]). constructor.
Qed.

Local Abbreviation lettersPattern :=
  [letter 112; letter 114; letter 111; letter 116; letter 101;
   letter 105; letter 110].
Local Abbreviation spacesPattern := (Item JS.isWhiteSpace Star :: lettersPattern).
Local Abbreviation percentPattern :=
  (Item (λ c, (c =? 37)%N) Opt :: spacesPattern).

Lemma letter_not_space l c :
  (l = 112 ∨ l = 114 ∨ l = 111 ∨ l = 116 ∨ l = 101 ∨ l = 105 ∨ l = 110)%N →
  cls (letter l) c = true →
  JS.isWhiteSpace c = false ∧ JS.isDigit c = false ∧ (c =? 37)%N = false.
Proof.
  cbn [cls letter]. rewrite orb_true_iff, !N.eqb_eq.
  intros Hl [-> | ->]; repeat destruct Hl as [-> | Hl]; try subst l;
    by vm_compute.
Qed.

Lemma matchAt_letters_complete word after :
  isProteinWord word →
  matchAt lettersPattern (word ++ after) = Some ((λ c, [c]) <$> word).
Proof.
  intros (c1 & c2 & c3 & c4 & c5 & c6 & c7 & -> & H1 & H2 & H3 & H4 & H5 & H6 & H7)
    %isProteinWord_inv.
  cbn [matchAt matchItem quant letter app].
  cbn [cls letter] in *.
  by rewrite H1, H2, H3, H4, H5, H6, H7.
Qed.

Lemma matchAt_letters_sound s m :
  matchAt lettersPattern s = Some m →
  ∃ word after, s = word ++ after ∧ isProteinWord word.
Proof.
  cbn [matchAt matchItem quant letter].
  intros H.
  repeat match type of H with
         | context [match ?s with [] => _ | _ :: _ => _ end] =>
             destruct s; [discriminate|]
         | context [if cls ?it ?x then _ else _] =>
             destruct (cls it x) eqn:?; [|discriminate]
         | (_ <$> _) = Some _ =>
             apply fmap_Some in H as (? & H & ?)
         end.
  eexists [_; _; _; _; _; _; _], _. split; [reflexivity|].
  apply isProteinWord_inv. do 7 eexists. split; [reflexivity|]. by repeat split.
Qed.

Lemma matchAt_cons it items s :
  matchAt (it :: items) s
  = matchItem it (λ taken rest, (taken ::.) <$> matchAt items rest) s.
Proof. reflexivity. Qed.

Lemma isProteinWord_head word after x rest :
  isProteinWord word → word ++ after = x :: rest →
  JS.isWhiteSpace x = false ∧ JS.isDigit x = false ∧ (x =? 37)%N = false.
Proof.
  intros (c1 & ? & ? & ? & ? & ? & ? & -> & H1 & _)%isProteinWord_inv [= <- _].
  eapply letter_not_space; [|exact H1]. tauto.
Qed.

Lemma matchAt_spaces_complete spaces word after :
  Forall (λ c, JS.isWhiteSpace c = true) spaces → isProteinWord word →
  matchAt spacesPattern (spaces ++ word ++ after)
  = Some (spaces :: ((λ c, [c]) <$> word)).
Proof.
  intros Hs Hw. rewrite matchAt_cons. unfold matchItem. cbn [quant cls].
  apply many_greedy; [exact Hs| |].
  - intros x rest' E. by destruct (isProteinWord_head _ _ _ _ Hw E).
  - cbn [app]. by rewrite (matchAt_letters_complete _ _ Hw).
Qed.

Lemma matchAt_spaces_sound s m :
  matchAt spacesPattern s = Some m →
  ∃ spaces word after, s = spaces ++ word ++ after ∧
    Forall (λ c, JS.isWhiteSpace c = true) spaces ∧ isProteinWord word.
Proof.
  rewrite matchAt_cons. unfold matchItem. cbn [quant cls].
  intros (spaces & rest & -> & Hs & (m' & H & _)%fmap_Some)%many_sound.
  apply matchAt_letters_sound in H as (word & after & -> & Hw).
  by exists spaces, word, after.
Qed.

Lemma matchAt_percent_complete percent spaces word after :
  percent = [] ∨ percent = [37%N] →
  Forall (λ c, JS.isWhiteSpace c = true) spaces → isProteinWord word →
  matchAt percentPattern (percent ++ spaces ++ word ++ after)
  = Some (percent :: spaces :: ((λ c, [c]) <$> word)).
Proof.
  intros Hp Hs Hw. rewrite matchAt_cons. unfold matchItem. cbn [quant cls].
  pose proof (matchAt_spaces_complete _ _ after Hs Hw) as E.
  destruct Hp as [-> | ->]; cbn [app].
  - destruct (spaces ++ word ++ after) as [|x rest] eqn:Es; [by rewrite E|].
    assert ((x =? 37)%N = false) as ->; [|by rewrite E].
    destruct Hs as [|c spaces Hc _]; cbn [app] in Es.
    + by destruct (isProteinWord_head _ _ _ _ Hw Es) as (_ & _ & ?).
    + injection Es as <- _. by apply isWhiteSpace_not_percent.
  - by rewrite E.
Qed.

Lemma matchAt_percent_sound s m :
  matchAt percentPattern s = Some m →
  ∃ percent spaces word after, s = percent ++ spaces ++ word ++ after ∧
    (percent = [] ∨ percent = [37%N]) ∧
    Forall (λ c, JS.isWhiteSpace c = true) spaces ∧ isProteinWord word.
Proof.
  rewrite matchAt_cons. unfold matchItem. cbn [quant cls]. intros H.
  assert ((∃ m', matchAt spacesPattern s = Some m') ∨
          (∃ s' m', s = 37%N :: s' ∧ matchAt spacesPattern s' = Some m'))
    as [(m' & Hm) | (s' & m' & -> & Hm)].
  { destruct s as [|x s'].
    - apply fmap_Some in H as (m' & H & _). left. by exists m'.
    - destruct (x =? 37)%N eqn:Ex.
      + destruct (_ <$> matchAt _ s') as [r|] eqn:E.
        * apply fmap_Some in E as (m' & E & _). apply N.eqb_eq in Ex as ->.
          right. by exists s', m'.
        * apply fmap_Some in H as (m' & H & _). left. by exists m'.
      + apply fmap_Some in H as (m' & H & _). left. by exists m'. }
  - apply matchAt_spaces_sound in Hm as (spaces & word & after & -> & ? & ?).
    exists [], spaces, word, after. tauto.
  - apply matchAt_spaces_sound in Hm as (spaces & word & after & -> & ? & ?).
    exists [37%N], spaces, word, after. tauto.
Qed.

(** A match of the protein pattern at the start of a string, and the
    text of its capture group. *)
Lemma matchAt_protein_complete digits percent spaces word after :
  digits ≠ [] → Forall (λ c, JS.isDigit c = true) digits →
  percent = [] ∨ percent = [37%N] →
  Forall (λ c, JS.isWhiteSpace c = true) spaces → isProteinWord word →
  ∃ m, matchAt proteinPattern (digits ++ percent ++ spaces ++ word ++ after)
       = Some (digits :: m).
Proof.
  intros Hn Hd Hp Hs Hw.
  destruct Hd as [|d digits Hd Hds]; [done|].
  pose proof (matchAt_percent_complete _ _ _ after Hp Hs Hw) as E.
  eexists. unfold proteinPattern. rewrite matchAt_cons.
  unfold matchItem. cbn [quant cls app]. rewrite Hd.
  apply many_greedy; [exact Hds| |].
  - intros x rest' Ex. destruct Hp as [-> | ->]; cbn [app] in Ex.
    + destruct Hs as [|c spaces Hc _]; cbn [app] in Ex.
      * by destruct (isProteinWord_head _ _ _ _ Hw Ex) as (_ & ? & _).
      * injection Ex as <- _. by apply isWhiteSpace_not_digit.
    + by injection Ex as <- _.
  - cbn [app]. by rewrite E.
Qed.

Lemma matchAt_protein_sound s m :
  matchAt proteinPattern s = Some m →
  ∃ digits percent spaces word after,
    s = digits ++ percent ++ spaces ++ word ++ after ∧
    digits ≠ [] ∧ Forall (λ c, JS.isDigit c = true) digits ∧
    (percent = [] ∨ percent = [37%N]) ∧
    Forall (λ c, JS.isWhiteSpace c = true) spaces ∧ isProteinWord word.
Proof.
  unfold proteinPattern. rewrite matchAt_cons. unfold matchItem.
  cbn [quant cls].
  destruct s as [|d s]; [discriminate|].
  destruct (JS.isDigit d) eqn:Hd; [|discriminate].
  intros (run & rest & -> & Hrun & (m' & H & _)%fmap_Some)%many_sound.
  apply matchAt_percent_sound in H
    as (percent & spaces & word & after & -> & ? & ? & ?).
  exists (d :: run), percent, spaces, word, after.
  split; [done|]. split; [done|]. split; [by constructor|]. tauto.
Qed.

(** [exec] answers the match at the least start index. *)
Lemma exec_first items before rest m :
  matchAt items rest = Some m →
  (∀ skipped later, before = skipped ++ later → later ≠ [] →
     matchAt items (later ++ rest) = None) →
  exec items (before ++ rest) = Some m.
Proof.
  intros Hm. induction before as [|x before IH]; intros Hnone.
  - destruct rest; simpl; by rewrite Hm.
  - pose proof (Hnone [] (x :: before) eq_refl ltac:(done)) as E.
    cbn [app exec] in *. rewrite E.
    apply IH. intros skipped later -> Hl.
    by apply (Hnone (x :: skipped) later).
Qed.

Lemma exec_none items s :
  (∀ skipped later, s = skipped ++ later → matchAt items later = None) →
  exec items s = None.
Proof.
  induction s as [|x s IH]; intros Hnone.
  - simpl. by rewrite (Hnone [] []).
  - cbn [exec]. rewrite (Hnone [] (x :: s)) by done.
    apply IH. intros skipped later ->. by apply (Hnone (x :: skipped) later).
Qed.

(** The capture group of the first occurrence of the protein pattern. *)
Lemma exec_protein_first query before digits :
  proteinOccurrence query before digits →
  (∀ before' digits', proteinOccurrence query before' digits' →
     (length before ≤ length before')%nat) →
  ∃ m, exec proteinPattern query = Some (digits :: m).
Proof.
  intros (percent & spaces & word & after & -> & Hn & Hd & Hp & Hs & Hw) Hfirst.
  destruct (matchAt_protein_complete _ _ _ _ after Hn Hd Hp Hs Hw) as [m Hm].
  exists m. apply exec_first; [exact Hm|].
  intros skipped later -> Hl.
  destruct (matchAt _ (later ++ _)) as [m'|] eqn:E; [|done].
  apply matchAt_protein_sound in E
    as (digits' & percent' & spaces' & word' & after' & E & ? & ? & ? & ? & ?).
  assert (proteinOccurrence
            ((skipped ++ later) ++ digits ++ percent ++ spaces ++ word ++ after)
            skipped digits') as Ho.
  { exists percent', spaces', word', after'. rewrite <- app_assoc, E. tauto. }
  apply Hfirst in Ho. rewrite length_app in Ho.
  destruct later; [done|]. simpl in Ho. lia.
Qed.

End RegexFacts.

(** ** Normaliser *)

Section Normalizer.
Context {runtime : Runtime}.

(** C9 (as amended). Normalising a second time changes nothing whenever
    the normalised string is itself unchanged by [toLowerCase] and by
    [normalize('NFD')]: stripping the marks and trimming are stable. *)
Theorem normalizeString_idempotent_on_stable_output x :
  toLowerCase (normalizeString x) = normalizeString x →
  normalizeNFD (normalizeString x) = normalizeString x →
  normalizeString (normalizeString x) = normalizeString x.
Proof.
  intros Hlower Hnfd. unfold normalizeString at 1. rewrite Hlower, Hnfd.
  unfold normalizeString.
  by rewrite JSFacts.stripCombiningMarks_trim_strip, JSFacts.trim_idempotent.
Qed.
End Normalizer.

(** ** Relevance scorer *)

Section Scorer.
Context {runtime : Runtime}.

Lemma ge_iff a b : JS.ge a b = true ↔ (b <= a)%Q.
Proof. apply Qle_bool_iff. Qed.

Lemma flourBonus_first_occurrence proteinContent query before digits :
  proteinOccurrence query before digits →
  (∀ before' digits', proteinOccurrence query before' digits' →
     (length before ≤ length before')%nat) →
  flourBonus proteinContent query =
    match Qabs <$> (JS.parseInt digits ≫= JS.subtract proteinContent) with
    | Some finite => if JS.ge 1 finite then 10 else 0
    | None => 0
    end.
Proof.
  intros Ho Hfirst. unfold flourBonus.
  by destruct (RegexFacts.exec_protein_first _ _ _ Ho Hfirst) as [m ->].
Qed.

(** A query with an occurrence of the protein pattern is not blank. *)
Lemma proteinOccurrence_not_blank query before digits :
  proteinOccurrence query before digits → JS.trim query ≠ [].
Proof.
  intros (percent & spaces & word & after & -> & Hn & Hd & _).
  destruct Hd as [|d digits Hd _]; [done|].
  assert (JS.isWhiteSpace d = false) as Hw.
  { destruct (JS.isWhiteSpace d) eqn:E; [|done].
    apply RegexFacts.isWhiteSpace_not_digit in E. congruence. }
  intros E.
  assert (d ∈ JS.trim (before ++ (d :: digits) ++ percent ++ spaces ++ word ++ after))
    as Hin; [|rewrite E in Hin; by apply elem_of_nil in Hin].
  apply JSFacts.trim_keeps; [|exact Hw]. set_solver.
Qed.

(** C7. For a flour product and a query in which the protein pattern
    occurs, first at [before] with the digits [digits]: the flour
    component of the score (the fifth of [scoreComponents], which the
    score sums) is 10 when the protein content is within 1 of the parsed
    digits and 0 otherwise.  The parsed digits and the difference are the
    doubles the code computes ([diff], undefined when infinite); where
    that difference is the exact one, the comparison is that of the
    protein content with the integer the digits write. *)
Theorem flour_bonus_of_protein_query b proteinContent organic query
    before digits :
  proteinOccurrence query before digits →
  (∀ before' digits', proteinOccurrence query before' digits' →
     (length before ≤ length before')%nat) →
  let product := FlourProduct b proteinContent organic in
  let bonus := scoreComponents product query !! 4%nat in
  let diff :=
    Qabs <$> (JS.parseInt digits ≫= JS.subtract proteinContent) in
  let exact := Qabs (proteinContent - inject_Z (JS.mathInt digits)) in
  calculateRelevanceScore product query
    = foldl Z.add 0 (scoreComponents product query) ∧
  (∀ finite, diff = Some finite → (finite <= 1)%Q → bonus = Some 10) ∧
  (∀ finite, diff = Some finite → ¬ (finite <= 1)%Q → bonus = Some 0) ∧
  (diff = None → bonus = Some 0) ∧
  (∀ finite, diff = Some finite → (finite == exact)%Q →
     ((exact <= 1)%Q → bonus = Some 10) ∧
     (¬ (exact <= 1)%Q → bonus = Some 0)).
Proof.
  intros Ho Hfirst product bonus diff exact.
  assert (bonus
          = Some match diff with
                 | Some finite => if JS.ge 1 finite then 10 else 0
                 | None => 0
                 end) as Hbonus.
  { unfold bonus, scoreComponents. cbn [lookup list_lookup product].
    by rewrite (flourBonus_first_occurrence _ _ _ _ Ho Hfirst). }
  assert (∀ finite, diff = Some finite →
            ((finite <= 1)%Q → bonus = Some 10) ∧
            (¬ (finite <= 1)%Q → bonus = Some 0)) as Hfinite.
  { intros finite Hdiff. rewrite Hbonus, Hdiff.
    destruct (JS.ge 1 finite) eqn:E.
    - apply ge_iff in E. split; [done|]. intros H. by destruct H.
    - split; [|done]. intros H%ge_iff. congruence. }
  split; [|split; [|split; [|split]]].
  - unfold calculateRelevanceScore.
    rewrite bool_decide_eq_false_2; [done|].
    eapply proteinOccurrence_not_blank, Ho.
  - intros finite Hdiff. by apply Hfinite.
  - intros finite Hdiff. by apply Hfinite.
  - intros Hdiff. by rewrite Hbonus, Hdiff.
  - intros finite Hdiff Hexact. destruct (Hfinite finite Hdiff) as [H1 H0].
    split; intros H.
    + apply H1. by rewrite Hexact.
    + apply H0. by rewrite Hexact.
Qed.
End Scorer.

(** ** Filter engine *)

Section FilterEngine.
Context {runtime : Runtime}.

Lemma lt_false_iff a b : JS.lt a b = false ↔ (b <= a)%Q.
Proof.
  unfold JS.lt. destruct (Qlt_le_dec a b) as [H|H]; split; try done.
  intros H'. exfalso. eapply Qlt_not_le; eassumption.
Qed.

Lemma isFlourProduct_iff product :
  isFlourProduct product = true
  ↔ ∃ b proteinContent organic, product = FlourProduct b proteinContent organic.
Proof.
  destruct product; split; try done; try by intros (? & ? & ? & [=]).
  intros _. by do 3 eexists.
Qed.

Lemma selected_nonempty (selected : gset jsstring) :
  bool_decide (0 < size selected)%nat = true ↔ selected ≠ ∅.
Proof.
  rewrite bool_decide_eq_true.
  assert (size selected ≠ 0%nat ↔ selected ≠ ∅) as <-; [|lia].
  rewrite size_non_empty_iff. unfold not. by rewrite leibniz_equiv_iff.
Qed.

Lemma category_check (selected : gset jsstring) product :
  bool_decide (0 < size selected)%nat
  && negb (bool_decide (categoryName (category product) ∈ selected)) = false
  ↔ (selected ≠ ∅ → categoryName (category product) ∈ selected).
Proof.
  rewrite <- selected_nonempty.
  destruct (bool_decide (0 < size selected)%nat); cbn [andb].
  - rewrite negb_false_iff, bool_decide_eq_true. naive_solver.
  - naive_solver.
Qed.

Lemma price_check params product :
  JS.lt (price (base product)) (minPrice params)
  || JS.lt (maxPrice params) (price (base product)) = false
  ↔ (minPrice params <= price (base product))%Q ∧
    (price (base product) <= maxPrice params)%Q.
Proof. by rewrite orb_false_iff, !lt_false_iff. Qed.

Lemma stock_check params product :
  match inStockParam params with
  | Some wanted => negb (bool_decide (inStock (base product) = wanted))
  | None => false
  end = false
  ↔ ∀ wanted, inStockParam params = Some wanted →
              inStock (base product) = wanted.
Proof.
  destruct (inStockParam params) as [wanted|]; [|naive_solver].
  rewrite negb_false_iff, bool_decide_eq_true. naive_solver.
Qed.

Lemma organic_check params product :
  match organicParam params with
  | Some wanted =>
      match product with
      | FlourProduct _ _ organic =>
          if negb (bool_decide (organic = wanted)) then false else true
      | _ => false
      end
  | None => true
  end = true
  ↔ ∀ wanted, organicParam params = Some wanted →
              ∃ b proteinContent, product = FlourProduct b proteinContent wanted.
Proof.
  destruct (organicParam params) as [wanted|]; [|naive_solver].
  destruct product as [b pc organic| |].
  - destruct (bool_decide (organic = wanted)) eqn:E; cbn [negb].
    + apply bool_decide_eq_true in E as ->. naive_solver.
    + apply bool_decide_eq_false in E. split; [done|].
      intros H. destruct (H _ eq_refl) as (? & ? & [= _ _ ?]). done.
  - split; [done|]. intros H. by destruct (H _ eq_refl) as (? & ? & [=]).
  - split; [done|]. intros H. by destruct (H _ eq_refl) as (? & ? & [=]).
Qed.

Lemma passesFilters_iff params product :
  passesFilters (list_to_set (categories params)) params product = true
  ↔ meetsFilterRule params product.
Proof.
  unfold meetsFilterRule. cbv zeta.
  rewrite <- category_check, <- !lt_false_iff, <- stock_check, <- organic_check.
  unfold passesFilters.
  destruct (JS.lt (price (base product)) (minPrice params)),
    (JS.lt (maxPrice params) (price (base product))),
    (JS.lt (rating (base product)) (minRating params)); cbn [orb];
    repeat match goal with
           | |- context [if ?c then false else _] => destruct c
           end; intuition congruence.
Qed.

Lemma filter_sublist {A} (f : A → bool) l : List.filter f l `sublist_of` l.
Proof.
  induction l as [|x l IH]; simpl; [constructor|].
  destruct (f x); by constructor.
Qed.

(** C6. A product of the catalog is in the output of [applyFilters]
    exactly when it meets the five conditions of the filter rule; the
    output keeps the order of the catalog; and with the organic filter
    set, no product other than a flour product is in the output. *)
Theorem applyFilters_rule products params :
  (∀ product, product ∈ applyFilters products params
              ↔ product ∈ products ∧ meetsFilterRule params product) ∧
  applyFilters products params `sublist_of` products ∧
  (∀ product, organicParam params ≠ None → isFlourProduct product = false →
              product ∉ applyFilters products params).
Proof.
  assert (∀ product, product ∈ applyFilters products params
              ↔ product ∈ products ∧ meetsFilterRule params product) as Hiff.
  { intros product. unfold applyFilters.
    by rewrite !list_elem_of_In, filter_In, passesFilters_iff. }
  split; [exact Hiff|]. split; [apply filter_sublist|].
  intros product Ho Hf (_ & _ & _ & _ & _ & _ & H)%Hiff.
  destruct (organicParam params) as [wanted|]; [|done].
  destruct (H _ eq_refl) as (? & ? & ->). done.
Qed.
End FilterEngine.

(** ** Query pipeline *)

Section Pipeline.
Context {runtime : Runtime}.

Lemma byScore_key x y : (0 < byScore x y)%Q ↔ score x < score y.
Proof.
  unfold byScore. change 0%Q with (inject_Z 0). rewrite <- Zlt_Qlt. lia.
Qed.

(** The scored records: one per filtered product, in order, each with
    the score of its product. *)
Lemma results_of_mapM fuel query filteredProducts results :
  mapM (λ product,
          found ← findMatches fuel (name (base product)) query;
          Some {| product := product;
                  score := calculateRelevanceScore product query;
                  matches := found |}) filteredProducts = Some results →
  product <$> results = filteredProducts ∧
  Forall (λ result,
            score result = calculateRelevanceScore (product result) query)
         results.
Proof.
  rewrite mapM_Some. induction 1 as [|p r l k Hr _ [IH1 IH2]]; [done|].
  destruct (findMatches fuel (name (base p)) query); [|done].
  injection Hr as <-. cbn [fmap list_fmap product]. split.
  - f_equal. exact IH1.
  - by constructor.
Qed.

Lemma filter_fmap_agree {A B} (f : A → B) (g : A → bool) (h : B → bool) l :
  Forall (λ a, g a = h (f a)) l →
  List.filter h (f <$> l) = f <$> List.filter g l.
Proof.
  induction 1 as [|a l Ha _ IH]; [done|].
  cbn [fmap list_fmap List.filter]. rewrite <- Ha.
  destruct (g a); cbn [fmap list_fmap]; by rewrite <- IH.
Qed.

Lemma sorted_fmap_agree {A B} (f : A → B) (keyA : A → Z) (keyB : B → Z) l :
  Forall (λ a, keyA a = keyB (f a)) l →
  StronglySorted (descending keyA) l →
  StronglySorted (descending keyB) (f <$> l).
Proof.
  intros Ha Hs. induction Hs as [|a l _ IH Hl]; [constructor|].
  apply Forall_cons in Ha as [Ha Hal].
  cbn [fmap list_fmap]. constructor; [by apply IH|].
  apply Forall_fmap. rewrite Forall_forall in Hl, Hal. apply Forall_forall.
  intros b Hb. unfold descending in *. cbn. rewrite <- Ha, <- (Hal b Hb).
  apply Hl, Hb.
Qed.

(** What [finalResults] is for a query that is not blank. *)
Lemma finalResults_scored fuel catalog params out :
  JS.trim (q params) ≠ [] →
  finalResults fuel catalog params = Some out →
  ∃ results,
    product <$> results = applyFilters catalog params ∧
    Forall (λ result,
              score result
              = calculateRelevanceScore (product result) (q params)) results ∧
    out = product <$>
            JS.sort byScore
              (List.filter (λ result, bool_decide (0 < score result)) results).
Proof.
  intros Hq. unfold finalResults.
  rewrite bool_decide_eq_false_2 by exact Hq. cbn [negb].
  destruct (mapM _ _) as [results|] eqn:E; [|done].
  intros [= <-]. apply results_of_mapM in E as [E1 E2]. by exists results.
Qed.

Lemma kept_results_agree query results :
  Forall (λ result,
            score result = calculateRelevanceScore (product result) query)
         results →
  Forall (λ result,
            score result = calculateRelevanceScore (product result) query)
         (JS.sort byScore
            (List.filter (λ result, bool_decide (0 < score result)) results)).
Proof.
  intros H. rewrite (SortFacts.sort_perm byScore score byScore_key).
  rewrite Forall_forall in H. apply Forall_forall.
  intros r [Hr _]%list_elem_of_In%filter_In. by apply H, list_elem_of_In.
Qed.

(** With a query whose normalised form is not empty every call of
    [findMatches] returns, and so does the pipeline. *)
Lemma finalResults_returns catalog params :
  normalizeString (q params) ≠ [] →
  ∃ fuel out, finalResults fuel catalog params = Some out.
Proof.
  intros Hq.
  set (fuel := S (max_list ((λ p, length (normalizeString (name (base p))))
                              <$> applyFilters catalog params))).
  exists fuel. unfold finalResults.
  destruct (negb _); [|by eexists].
  assert (is_Some (mapM (λ product,
            found ← findMatches fuel (name (base product)) (q params);
            Some {| product := product;
                    score := calculateRelevanceScore product (q params);
                    matches := found |}) (applyFilters catalog params)))
    as [results ->]; [|by eexists].
  apply mapM_is_Some, Forall_forall. intros p Hp. unfold compose.
  destruct (findAllMatches_returns (normalizeString (name (base p)))
              (normalizeString (q params)) fuel 0 [] Hq) as [found Hf].
  - assert (length (normalizeString (name (base p)))
            ≤ max_list ((λ p, length (normalizeString (name (base p))))
                          <$> applyFilters catalog params))%nat.
    { apply max_list_elem_of_le, list_elem_of_fmap. by exists p. }
    unfold fuel, JS.len. lia.
  - unfold findMatches. rewrite Hf. cbn. by eexists.
Qed.

(** C4. For a query that is not blank, the output of the pipeline is in
    order of non-increasing score, and the products of any one score
    appear in the order they have in the filtered set; for a query whose
    normalised form is not empty there is such an output. *)
Theorem finalResults_sorted_by_score catalog params :
  JS.trim (q params) ≠ [] →
  let scoreOf := λ product, calculateRelevanceScore product (q params) in
  (∀ fuel out, finalResults fuel catalog params = Some out →
     StronglySorted (descending scoreOf) out ∧
     ∀ k, List.filter (hasKey scoreOf k) out
          = List.filter (hasKey scoreOf k)
              (List.filter (λ product, bool_decide (0 < scoreOf product))
                 (applyFilters catalog params))) ∧
  (normalizeString (q params) ≠ [] →
     ∃ fuel out, finalResults fuel catalog params = Some out).
Proof.
  intros Hq scoreOf. split; [|apply finalResults_returns].
  intros fuel out (results & Hp & Hs & ->)%finalResults_scored; [|exact Hq].
  pose proof (kept_results_agree _ _ Hs) as Hkept. split.
  - eapply sorted_fmap_agree; [exact Hkept|].
    apply SortFacts.sort_sorted, byScore_key.
  - intros k.
    rewrite (filter_fmap_agree product (hasKey score k) (hasKey scoreOf k)).
    2: { eapply Forall_impl; [exact Hkept|]. intros r Hr. unfold hasKey.
         by rewrite Hr. }
    rewrite (SortFacts.sort_stable byScore score byScore_key).
    rewrite <- Hp.
    rewrite (filter_fmap_agree product
               (λ result, bool_decide (0 < score result))
               (λ product, bool_decide (0 < scoreOf product))).
    2: { eapply Forall_impl; [exact Hs|]. intros r Hr. cbn. by rewrite Hr. }
    symmetry. apply filter_fmap_agree.
    apply Forall_forall. intros r [Hr _]%list_elem_of_In%filter_In.
    rewrite Forall_forall in Hs. unfold hasKey.
    by rewrite (Hs r) by by apply list_elem_of_In.
Qed.

(** C5. For a query that is not blank, every product in the output of
    the pipeline has a score above 0; for a query whose normalised form
    is not empty there is such an output. *)
Theorem finalResults_scores_positive catalog params :
  JS.trim (q params) ≠ [] →
  (∀ fuel out product, finalResults fuel catalog params = Some out →
     product ∈ out → 0 < calculateRelevanceScore product (q params)) ∧
  (normalizeString (q params) ≠ [] →
     ∃ fuel out, finalResults fuel catalog params = Some out).
Proof.
  intros Hq. split; [|apply finalResults_returns].
  intros fuel out p (results & Hp & Hs & ->)%finalResults_scored Hin;
    [|exact Hq].
  apply list_elem_of_fmap in Hin as (r & -> & Hr).
  rewrite (SortFacts.sort_perm byScore score byScore_key) in Hr.
  apply list_elem_of_In, filter_In in Hr as [Hr Hpos].
  rewrite Forall_forall in Hs. rewrite <- (Hs r) by by apply list_elem_of_In.
  by apply bool_decide_eq_true in Hpos.
Qed.

(** C8. The logic mode is not read: the filter predicate, the filtered
    set and the output of the pipeline are the same for [AND], for [OR]
    and for the mode the parameters came with. *)
Theorem logicMode_is_not_read fuel catalog params mode :
  (∀ categorySet product,
     passesFilters categorySet (withLogicMode mode params) product
     = passesFilters categorySet params product) ∧
  applyFilters catalog (withLogicMode mode params)
  = applyFilters catalog params ∧
  finalResults fuel catalog (withLogicMode AND params)
  = finalResults fuel catalog (withLogicMode OR params).
Proof. by destruct params. Qed.

End Pipeline.

(** * Further properties *)

(** ** Levenshtein matcher, continued *)

Section LevenshteinFacts.
Context (str1 str2 : jsstring).

Lemma levenshteinRow_lookup n previousRow i j :
  (j ≤ n)%nat →
  levenshteinRow str1 str2 n previousRow i !! j
  = Some (if decide (j = 0%nat) then Z.of_nat i
          else
            let cost :=
              if decide (str1 !! (i - 1)%nat = str2 !! (j - 1)%nat)
              then 0 else 1 in
            Z.min (Z.min (orZero (previousRow !! j) + 1)
                         (orZero (previousRow !! (j - 1)%nat) + cost))
                  (Z.of_nat i + 1)).
Proof.
  intros Hj. unfold levenshteinRow.
  rewrite list_lookup_fmap, lookup_seq_lt by lia. reflexivity.
Qed.

Lemma initialRow_invariant n :
  levenshteinRowInvariant str1 str2 n 0 (Z.of_nat <$> seq 0 (n + 1)).
Proof.
  intros j Hj. exists (Z.of_nat j).
  rewrite list_lookup_fmap, lookup_seq_lt by lia.
  split; [done|]. split; [lia|]. split; [lia|].
  rewrite !take_0. split; [intros; split; [lia|done]|intros [-> _]; done].
Qed.

Lemma take_succ_eq i :
  (i < length str1)%nat → (i < length str2)%nat →
  (take i str1 = take i str2 ∧ str1 !! i = str2 !! i)
  ↔ take (S i) str1 = take (S i) str2.
Proof.
  intros H1 H2. unfold jsstring in *.
  destruct (lookup_lt_is_Some_2 _ _ H1) as [x Hx].
  destruct (lookup_lt_is_Some_2 _ _ H2) as [y Hy].
  rewrite (take_S_r _ _ _ Hx), (take_S_r _ _ _ Hy), Hx, Hy. split.
  - intros [-> [= ->]]. done.
  - intros H. apply app_inj_2 in H as [-> [= ->]]; done.
Qed.

Lemma levenshteinRow_invariant n previousRow i :
  (S i ≤ length str1)%nat → n = length str2 →
  levenshteinRowInvariant str1 str2 n i previousRow →
  levenshteinRowInvariant str1 str2 n (S i)
    (levenshteinRow str1 str2 n previousRow (S i)).
Proof.
  intros Hi -> Hprev j Hj. eexists.
  split; [by apply levenshteinRow_lookup|]. unfold jsstring in *.
  destruct (decide (j = 0%nat)) as [-> | Hj0].
  { split; [lia|]. split; [lia|]. split; [lia|]. intros [? _]. lia. }
  destruct (Hprev j Hj) as (pj & -> & Hpj & _ & _).
  destruct (Hprev (j - 1)%nat ltac:(lia)) as (pd & -> & Hpd & _ & Hzero).
  unfold orZero. cbn [from_option Datatypes.id]. cbv zeta.
  replace (S i - 1)%nat with i by lia.
  destruct (decide (str1 !! i = str2 !! (j - 1)%nat)) as [Hc | Hc].
  - split; [lia|]. split; [lia|].
    assert (pd = 0 ↔ j = S i ∧ take (S i) str1 = take (S i) str2) as <-;
      [|lia].
    rewrite Hzero. split.
    + intros [Hji Ht]. split; [lia|].
      assert (i < length str1)%nat as L1 by lia.
      assert (i < length str2)%nat as L2 by lia.
      apply (proj1 (take_succ_eq i L1 L2)).
      split; [done|]. subst i. exact Hc.
    + intros [-> Ht]. replace (S i - 1)%nat with i in * by lia.
      assert (i < length str1)%nat as L1 by lia.
      assert (i < length str2)%nat as L2 by lia.
      split; [done|]. by apply (proj2 (take_succ_eq i L1 L2)) in Ht as [? _].
  - split; [lia|]. split; [lia|]. split; [lia|].
    intros [-> Ht]. replace (S i - 1)%nat with i in * by lia.
    assert (i < length str1)%nat as L1 by lia.
    assert (i < length str2)%nat as L2 by lia.
    by apply (proj2 (take_succ_eq i L1 L2)) in Ht as [_ ?].
Qed.

Lemma finalRow_invariant n m :
  (m ≤ length str1)%nat → n = length str2 →
  levenshteinRowInvariant str1 str2 n m
    (foldl (levenshteinRow str1 str2 n) (Z.of_nat <$> seq 0 (n + 1))
       (seq 1 m)).
Proof.
  intros Hm Hn. induction m as [|m IH]; [apply initialRow_invariant|].
  rewrite seq_S, foldl_app. cbn [foldl].
  apply levenshteinRow_invariant; [lia|done|]. apply IH. lia.
Qed.

(** The last cell of the table, for two non-empty strings. *)
Lemma levenshteinDistance_cell :
  str1 ≠ [] → str2 ≠ [] →
  0 ≤ levenshteinDistance str1 str2 ∧
  levenshteinDistance str1 str2 ≤ JS.len str1 + 1 ∧
  (levenshteinDistance str1 str2 = 0 ↔ str1 = str2).
Proof.
  intros H1 H2. unfold levenshteinDistance, JS.len.
  destruct (decide (length str1 = 0%nat)) as [E|E1];
    [by apply nil_length_inv in E|].
  destruct (decide (length str2 = 0%nat)) as [E|E2];
    [by apply nil_length_inv in E|].
  destruct (finalRow_invariant (length str2) (length str1) (le_n _) eq_refl
              (length str2) (le_n _)) as (v & -> & H0 & Hup & Hzero).
  unfold orZero. cbn [from_option Datatypes.id]. split; [done|]. split; [apply Hup; lia|].
  rewrite Hzero, !firstn_all. split.
  - intros [Hlen Ht]. rewrite <- Hlen, firstn_all in Ht. done.
  - intros <-. by rewrite firstn_all.
Qed.
End LevenshteinFacts.

(** X1. [levenshteinDistance] answers 0 exactly for equal strings. *)
Theorem levenshteinDistance_zero_iff str1 str2 :
  levenshteinDistance str1 str2 = 0 ↔ str1 = str2.
Proof.
  destruct str1 as [|c1 s1], str2 as [|c2 s2]; try done.
  apply levenshteinDistance_cell; done.
Qed.

(** X2. The range of [levenshteinDistance]: never negative; the length of
    the other string when one is empty; and between non-empty strings at
    most the length of the first plus one, however long the second is. *)
Theorem levenshteinDistance_range str1 str2 :
  0 ≤ levenshteinDistance str1 str2 ∧
  levenshteinDistance [] str2 = JS.len str2 ∧
  levenshteinDistance str1 [] = JS.len str1 ∧
  (str1 ≠ [] → str2 ≠ [] → levenshteinDistance str1 str2 ≤ JS.len str1 + 1).
Proof.
  assert (levenshteinDistance [] str2 = JS.len str2) as Hl by reflexivity.
  assert (levenshteinDistance str1 [] = JS.len str1) as Hr
    by (by destruct str1).
  split; [|split; [done|split; [done|]]].
  - destruct str1 as [|c1 s1]; [rewrite Hl; unfold JS.len; lia|].
    destruct str2 as [|c2 s2]; [rewrite Hr; unfold JS.len; lia|].
    apply levenshteinDistance_cell; done.
  - intros. by apply levenshteinDistance_cell.
Qed.

Lemma levenshteinDistance_same str : levenshteinDistance str str = 0.
Proof.
  destruct str as [|c s]; [done|].
  by apply levenshteinDistance_cell.
Qed.

Lemma levenshteinDistance_zero_inv str1 str2 :
  levenshteinDistance str1 str2 ≤ 0 → str1 = str2.
Proof.
  destruct str1 as [|c1 s1], str2 as [|c2 s2]; try done;
    try (unfold levenshteinDistance, JS.len; cbn [length decide]; intros; exfalso;
         cbn in *; lia).
  intros H.
  destruct (levenshteinDistance_cell (c1 :: s1) (c2 :: s2)) as (H0 & _ & Hz);
    [done..|].
  apply Hz. lia.
Qed.

(** ** Fuzzy matching *)

(** X3. [fuzzyMatch] accepts, at any tolerance from 0 up, two strings with
    the same normal form (so it ignores case, the stripped marks and outer
    white space); at tolerance 0 it accepts nothing else. *)
Theorem fuzzyMatch_same_normal_form `{runtime : Runtime} str1 str2 :
  (∀ maxDistance, 0 ≤ maxDistance →
     normalizeString str1 = normalizeString str2 →
     fuzzyMatch str1 str2 maxDistance = true) ∧
  (fuzzyMatch str1 str2 0 = true → normalizeString str1 = normalizeString str2).
Proof.
  unfold fuzzyMatch. split.
  - intros k Hk ->. rewrite levenshteinDistance_same. by apply bool_decide_eq_true.
  - intros H%bool_decide_eq_true. by apply levenshteinDistance_zero_inv.
Qed.

(** ** Relevance scorer, continued *)

Section ScorerFacts.
Context {runtime : Runtime}.

Lemma count_fold (step : Z) {A} (l : list A) acc :
  foldl (λ acc _, acc + step) acc l = acc + step * Z.of_nat (length l).
Proof.
  revert acc. induction l as [|x l IH]; intros acc; cbn [foldl length].
  - lia.
  - rewrite IH. lia.
Qed.

Lemma filter_length_le {A} (f : A → bool) l :
  (length (List.filter f l) ≤ length l)%nat.
Proof.
  induction l as [|x l IH]; simpl; [lia|]. destruct (f x); simpl; lia.
Qed.

Lemma flourBonus_range proteinContent query :
  0 ≤ flourBonus proteinContent query ≤ 10.
Proof.
  unfold flourBonus. destruct (Regex.exec _ _); [|lia].
  destruct (Qabs <$> _); [|lia]. destruct (JS.ge _ _); lia.
Qed.

(** Each component of the score, within its bounds. *)
Lemma scoreComponents_range product query :
  ∃ nameScore brandScore descriptionScore tagScore flourScore ovenScore
    popularity,
    scoreComponents product query
    = [nameScore; brandScore; descriptionScore; tagScore; flourScore;
       ovenScore; popularity] ∧
    0 ≤ nameScore ≤ 100 ∧ 0 ≤ brandScore ≤ 50 ∧
    0 ≤ descriptionScore ≤ 20 ∧
    0 ≤ tagScore ≤ 40 * Z.of_nat (length (tags (base product))) ∧
    0 ≤ flourScore ≤ 10 ∧
    0 ≤ ovenScore ≤ 15 * Z.of_nat (length (featuresOf product)) ∧
    0 ≤ popularity ≤ 5 ∧
    (flourScore = 0 ∨ ovenScore = 0).
Proof.
  pose proof (filter_length_le
    (λ tag, JS.includes (normalizeString tag) (normalizeString query))
    (tags (base product))) as Htags.
  assert (∀ features, length (List.filter
    (λ feature, JS.includes (normalizeString query) (normalizeString feature))
    features) ≤ length features)%nat as Hfeatures
    by (intros; apply filter_length_le).
  unfold scoreComponents. do 7 eexists. split; [reflexivity|].
  split; [repeat case_match; lia|]. split; [repeat case_match; lia|].
  split; [repeat case_match; lia|]. split; [rewrite count_fold; lia|].
  split; [destruct product; try lia; apply flourBonus_range|].
  split.
  { destruct product as [| |b features]; cbn [featuresOf length]; try lia.
    rewrite count_fold. specialize (Hfeatures features). lia. }
  split; [repeat case_match; lia|].
  destruct product; auto.
Qed.

Lemma trim_blank s : isBlank s → JS.trim s = [].
Proof.
  intros Hs. unfold JS.trim.
  assert (JS.trimStart s = []) as ->; [|done].
  induction Hs as [|c s Hc _ IH]; [done|]. simpl. by rewrite Hc.
Qed.

(** X4. The score is never negative and never above
    185 + 40 per tag + 15 per oven feature. *)
Theorem calculateRelevanceScore_range product query :
  0 ≤ calculateRelevanceScore product query
    ≤ 185 + 40 * Z.of_nat (length (tags (base product)))
          + 15 * Z.of_nat (length (featuresOf product)).
Proof.
  unfold calculateRelevanceScore. destruct (bool_decide _); [lia|].
  destruct (scoreComponents_range product query)
    as (n & b & d & t & f & o & p & -> & ? & ? & ? & ? & ? & ? & ? & ?).
  cbn [foldl]. lia.
Qed.

Lemma includes_scores_60 product query :
  JS.trim query ≠ [] →
  JS.includes (normalizeString (name (base product))) (normalizeString query)
  = true →
  60 ≤ calculateRelevanceScore product query.
Proof.
  intros Hq Hi.
  unfold calculateRelevanceScore. rewrite bool_decide_eq_false_2 by done.
  destruct (scoreComponents_range product query)
    as (n & b & d & t & f & o & p & E & ? & ? & ? & ? & ? & ? & ? & ?).
  rewrite E. cbn [foldl].
  assert (60 ≤ n); [|lia].
  unfold scoreComponents in E. injection E as <- _ _ _ _ _ _.
  rewrite Hi. destruct (bool_decide _); [lia|].
  destruct (JS.startsWith _ _); lia.
Qed.

(** X5. With a query that is not blank, a product whose normalised name
    is the normalised query scores at least 100, one whose name starts
    with it at least 80, one whose name contains it at least 60. *)
Theorem calculateRelevanceScore_name_tiers product query :
  JS.trim query ≠ [] →
  let normalizedName := normalizeString (name (base product)) in
  let normalizedQuery := normalizeString query in
  (normalizedName = normalizedQuery →
     100 ≤ calculateRelevanceScore product query) ∧
  (JS.startsWith normalizedName normalizedQuery = true →
     80 ≤ calculateRelevanceScore product query) ∧
  (JS.includes normalizedName normalizedQuery = true →
     60 ≤ calculateRelevanceScore product query).
Proof.
  intros Hq normalizedName normalizedQuery.
  unfold calculateRelevanceScore. rewrite bool_decide_eq_false_2 by done.
  destruct (scoreComponents_range product query)
    as (n & b & d & t & f & o & p & E & ? & ? & ? & ? & ? & ? & ? & ?).
  rewrite E. cbn [foldl].
  assert (n = if bool_decide (normalizedName = normalizedQuery) then 100
              else if JS.startsWith normalizedName normalizedQuery then 80
              else if JS.includes normalizedName normalizedQuery then 60
              else if fuzzyMatch normalizedName normalizedQuery 2 then 10
              else 0) as Hn.
  { unfold scoreComponents in E. by injection E as <-. }
  split; [|split].
  - intros Heq. rewrite bool_decide_eq_true_2 in Hn by done. lia.
  - intros Hs. rewrite Hs in Hn. destruct (bool_decide _); lia.
  - intros Hi. rewrite Hi in Hn.
    destruct (bool_decide _); [lia|]. destruct (JS.startsWith _ _); lia.
Qed.

(** X6. For a query of white space only, the empty query included, the
    score of every product is 0. *)
Theorem calculateRelevanceScore_blank product query :
  isBlank query → calculateRelevanceScore product query = 0.
Proof.
  intros Hq. unfold calculateRelevanceScore.
  by rewrite (trim_blank _ Hq).
Qed.
End ScorerFacts.

(** ** Match locator, continued *)

Module IndexOfFacts.
Import JS.

Lemma startsWith_take s needle :
  startsWith s needle = true ↔ take (length needle) s = needle.
Proof.
  revert s. induction needle as [|d needle IH]; intros [|c s];
    cbn [startsWith length take]; try done.
  rewrite andb_true_iff, N.eqb_eq, IH. split.
  - by intros [-> ->].
  - by intros [= -> ->].
Qed.

Lemma stringIndexOf_found s needle i r :
  0 ≤ i → stringIndexOf s needle i = r → r ≠ -1 →
  ∃ k : nat, r = i + Z.of_nat k ∧
    startsWith (drop k s) needle = true ∧
    ∀ k', (k' < k)%nat → startsWith (drop k' s) needle = false.
Proof.
  revert i. induction s as [|c s IH]; intros i Hi; cbn [stringIndexOf].
  - destruct (startsWith [] needle) eqn:E; [|by intros <- []].
    intros <- _. exists 0%nat. split; [lia|]. split; [done|]. lia.
  - destruct (startsWith (c :: s) needle) eqn:E.
    + intros <- _. exists 0%nat. split; [lia|]. split; [done|]. lia.
    + intros Hr Hne. destruct (IH (i + 1) ltac:(lia) Hr Hne) as (k & -> & Hk & Hless).
      exists (S k). split; [lia|]. split; [done|].
      intros [|k'] ?; [done|]. apply Hless. lia.
Qed.

Lemma stringIndexOf_absent s needle i :
  0 ≤ i → stringIndexOf s needle i = -1 →
  ∀ k, startsWith (drop k s) needle = false.
Proof.
  revert i. induction s as [|c s IH]; intros i Hi; cbn [stringIndexOf].
  - destruct (startsWith [] needle) eqn:E; [lia|]. intros _ k. by destruct k.
  - destruct (startsWith (c :: s) needle) eqn:E; [lia|].
    intros Hr [|k]; [done|]. apply (IH (i + 1)); [lia|done].
Qed.

(** An occurrence leaves room for the needle. *)
Lemma occursAt_bound text needle i :
  needle ≠ [] → occursAt text needle i → 0 ≤ i < len text.
Proof.
  intros Hn [Hi Ht]. split; [done|]. unfold len.
  apply (f_equal length) in Ht. rewrite length_take, length_drop in Ht.
  destruct needle; [done|]. cbn [length] in Ht. lia.
Qed.

Lemma occursAt_drop text needle (start k : nat) :
  startsWith (drop k (drop start text)) needle = true
  ↔ occursAt text needle (Z.of_nat (start + k)).
Proof.
  unfold occursAt. rewrite startsWith_take, drop_drop, Nat2Z.id.
  split; [intros; split; [lia|done]|by intros [_ ?]].
Qed.

(** [indexOf] answers the first occurrence at or after the position. *)
Lemma indexOf_found text needle position r :
  needle ≠ [] → indexOf text needle position = r → r ≠ -1 →
  occursAt text needle r ∧ position ≤ r ∧
  ∀ i, position ≤ i < r → ¬ occursAt text needle i.
Proof.
  intros Hn Hr Hne.
  destruct (JSFacts.indexOf_bounds_nonempty _ _ _ _ Hn Hr Hne)
    as (_ & Hpos & _ & _).
  unfold indexOf in Hr.
  set (start := Z.min (Z.max position 0) (len text)) in *.
  assert (0 ≤ start) as Hs by (unfold start, len; lia).
  apply stringIndexOf_found in Hr as (k & -> & Hk & Hless); [|done..].
  split; [|split; [done|]].
  - apply occursAt_drop in Hk. by rewrite Nat2Z.inj_add, Z2Nat.id in Hk.
  - intros i [Hi1 Hi2] Ho.
    destruct (occursAt_bound _ _ _ Hn Ho) as [Hi0 Hil].
    assert (start ≤ i) by (unfold start; lia).
    specialize (Hless (Z.to_nat (i - start)) ltac:(lia)).
    assert (startsWith (drop (Z.to_nat (i - start)) (drop (Z.to_nat start) text))
              needle = true) as Ht; [|congruence].
    apply occursAt_drop. by replace (Z.of_nat _) with i by lia.
Qed.

(** When [indexOf] answers -1 there is no occurrence from the position
    on. *)
Lemma indexOf_absent text needle position :
  needle ≠ [] → indexOf text needle position = -1 →
  ∀ i, position ≤ i → ¬ occursAt text needle i.
Proof.
  intros Hn Hr i Hi Ho. unfold indexOf in Hr.
  set (start := Z.min (Z.max position 0) (len text)) in *.
  assert (0 ≤ start) as Hs by (unfold start, len; lia).
  destruct (occursAt_bound _ _ _ Hn Ho) as [Hi0 Hil].
  assert (start ≤ i) by (unfold start; lia).
  pose proof (stringIndexOf_absent _ _ _ Hs Hr (Z.to_nat (i - start))) as Hk.
  assert (startsWith (drop (Z.to_nat (i - start)) (drop (Z.to_nat start) text))
            needle = true) as Ht; [|congruence].
  apply occursAt_drop. by replace (Z.of_nat _) with i by lia.
Qed.

End IndexOfFacts.

Section MatchLocatorFacts.
Context {runtime : Runtime}.

Lemma findAllMatches_exact text needle fuel startIndex accumulator spans :
  needle ≠ [] →
  (∀ i, (i, i + JS.len needle) ∈ accumulator
        ↔ occursAt text needle i ∧ i < startIndex) →
  findAllMatches fuel text needle startIndex accumulator = Some spans →
  ∀ i, (i, i + JS.len needle) ∈ spans ↔ occursAt text needle i.
Proof.
  intros Hn. revert startIndex accumulator.
  induction fuel as [|fuel IH]; intros startIndex accumulator Hacc;
    [discriminate|].
  cbn [findAllMatches].
  destruct (decide _) as [E|E].
  - intros [= <-] i. rewrite Hacc. split; [by intros [? _]|].
    intros Ho. split; [done|].
    destruct (decide (i < startIndex)) as [|Hge]; [done|].
    by destruct (IndexOfFacts.indexOf_absent _ _ _ Hn E i ltac:(lia)).
  - destruct (IndexOfFacts.indexOf_found _ _ _ _ Hn eq_refl E)
      as (Ho & Hle & Hfirst).
    apply IH. intros i. rewrite elem_of_app, Hacc, list_elem_of_singleton.
    split.
    + intros [[? ?] | [= ->]]; (split; [done|lia]).
    + intros [Hi ?].
      destruct (decide (i < startIndex)) as [|Hge]; [by left|]. right.
      destruct (decide (i = JS.indexOf text needle startIndex)) as [-> | Hne];
        [done|].
      by destruct (Hfirst i ltac:(lia)).
Qed.

(** X7. For a query whose normalised form is not empty, the spans that
    [findMatches] returns are exactly the occurrences of the normalised
    query in the normalised text, overlapping ones included: [(start,
    end)] is returned if and only if the query occurs at [start] and
    [end] is [start] plus its length. *)
Theorem findMatches_exact fuel text query spans :
  normalizeString query ≠ [] →
  findMatches fuel text query = Some spans →
  ∀ start stop,
    (start, stop) ∈ spans
    ↔ occursAt (normalizeString text) (normalizeString query) start ∧
      stop = start + JS.len (normalizeString query).
Proof.
  intros Hn Hf start stop. unfold findMatches in Hf.
  assert (∀ i, (i, i + JS.len (normalizeString query)) ∈ @nil (Z * Z)
               ↔ occursAt (normalizeString text) (normalizeString query) i
                 ∧ i < 0) as Hnil.
  { intros i. split; [by intros ?%elem_of_nil|].
    intros [Ho ?]. destruct Ho. lia. }
  pose proof (findAllMatches_exact _ _ _ _ _ _ Hn Hnil Hf) as Hex.
  assert (Forall (validSpan (JS.len (normalizeString text))
                    (JS.len (normalizeString query))) spans) as Hvalid.
  { eapply (findAllMatches_spans _ _ _ 0 []); [exact Hn|constructor..|exact Hf]. }
  split.
  - intros Hin. rewrite Forall_forall in Hvalid.
    destruct (Hvalid _ Hin) as (_ & Hstop & _). cbn in Hstop. subst stop.
    split; [|done]. by apply Hex.
  - intros [Ho ->]. by apply Hex.
Qed.
End MatchLocatorFacts.

(** ** The stable sort on rational keys *)

Module RatingSortFacts.
Import JS.

Section Any.
Context {A : Type} (comparefn : A → A → Q).

Lemma insert_permutation x l : insert comparefn x l ≡ₚ x :: l.
Proof.
  induction l as [|y l IH]; [reflexivity|]. cbn [insert].
  destruct (Qlt_le_dec _ _); [|reflexivity].
  rewrite IH. apply Permutation_swap.
Qed.

Lemma sort_permutation l : sort comparefn l ≡ₚ l.
Proof.
  induction l as [|x l IH]; [reflexivity|].
  unfold sort in *. cbn [foldr]. by rewrite insert_permutation, IH.
Qed.
End Any.

Section KeyedQ.
Context {A : Type} (comparefn : A → A → Q) (key : A → Q).
Hypothesis comparefn_key : ∀ x y, (0 < comparefn x y)%Q ↔ (key x < key y)%Q.

Lemma insert_sortedQ x l :
  StronglySorted (descendingQ key) l →
  StronglySorted (descendingQ key) (insert comparefn x l).
Proof.
  induction l as [|y l IH]; intros Hs; [repeat constructor|].
  cbn [insert]. apply StronglySorted_inv in Hs as [Hl Hy].
  destruct (Qlt_le_dec 0 (comparefn x y)) as [Hxy|Hxy].
  - apply comparefn_key in Hxy. constructor; [by apply IH|].
    rewrite insert_permutation. constructor; [|exact Hy].
    by apply Qlt_le_weak.
  - assert (key y <= key x)%Q as Hyx.
    { apply Qnot_lt_le. intros H%comparefn_key.
      eapply Qlt_not_le; eassumption. }
    constructor; [by constructor|]. constructor; [exact Hyx|].
    eapply Forall_impl; [exact Hy|]. unfold descendingQ. intros b Hb.
    eapply Qle_trans; eassumption.
Qed.

Lemma sort_sortedQ l : StronglySorted (descendingQ key) (sort comparefn l).
Proof.
  induction l as [|x l IH]; [constructor|].
  unfold sort in *. cbn [foldr]. by apply insert_sortedQ.
Qed.

Lemma filter_insertQ k x l :
  List.filter (hasKeyQ key k) (insert comparefn x l)
  = List.filter (hasKeyQ key k) (x :: l).
Proof.
  induction l as [|y l IH]; [reflexivity|]. cbn [insert].
  destruct (Qlt_le_dec 0 (comparefn x y)) as [Hxy|Hxy]; [|reflexivity].
  apply comparefn_key in Hxy.
  cbn [List.filter] in *. rewrite IH. unfold hasKeyQ.
  destruct (Qeq_bool (key y) k) eqn:Ey, (Qeq_bool (key x) k) eqn:Ex;
    try reflexivity.
  apply Qeq_bool_iff in Ey, Ex. exfalso.
  apply (Qlt_irrefl k). by rewrite <- Ex at 1; rewrite <- Ey.
Qed.

Lemma sort_stableQ k l :
  List.filter (hasKeyQ key k) (sort comparefn l)
  = List.filter (hasKeyQ key k) l.
Proof.
  induction l as [|x l IH]; [reflexivity|].
  unfold sort in *. cbn [foldr]. rewrite filter_insertQ.
  cbn [List.filter]. by rewrite IH.
Qed.

Lemma insert_fixed x l :
  Forall (descendingQ key x) l → insert comparefn x l = x :: l.
Proof.
  destruct 1 as [|y l Hy _]; [reflexivity|]. cbn [insert].
  destruct (Qlt_le_dec 0 (comparefn x y)) as [Hxy|Hxy]; [|reflexivity].
  apply comparefn_key in Hxy. exfalso. eapply Qlt_not_le; eassumption.
Qed.

Lemma sort_fixed l :
  StronglySorted (descendingQ key) l → sort comparefn l = l.
Proof.
  induction 1 as [|x l Hl IH Hx]; [reflexivity|].
  unfold sort in *. cbn [foldr]. rewrite IH. by apply insert_fixed.
Qed.
End KeyedQ.

End RatingSortFacts.

(** ** Query pipeline, continued *)

Section PipelineFacts.
Context {runtime : Runtime}.

Lemma byRating_key x y : (0 < byRating x y)%Q ↔ (ratingOf x < ratingOf y)%Q.
Proof.
  unfold byRating, ratingOf, Qminus. symmetry. apply Qlt_minus_iff.
Qed.

(** X8. For a blank query the pipeline returns, whatever the budget, the
    filtered products, each exactly once, in order of non-increasing
    rating, products of equal rating in the order of the filtered set. *)
Theorem finalResults_blank_query catalog params :
  isBlank (q params) →
  ∃ out,
    (∀ fuel, finalResults fuel catalog params = Some out) ∧
    out ≡ₚ applyFilters catalog params ∧
    StronglySorted (descendingQ ratingOf) out ∧
    ∀ k, List.filter (hasKeyQ ratingOf k) out
         = List.filter (hasKeyQ ratingOf k) (applyFilters catalog params).
Proof.
  intros Hq. exists (JS.sort byRating (applyFilters catalog params)).
  split; [|split; [|split]].
  - intros fuel. unfold finalResults.
    by rewrite (trim_blank _ Hq), bool_decide_eq_true_2.
  - apply RatingSortFacts.sort_permutation.
  - apply RatingSortFacts.sort_sortedQ, byRating_key.
  - intros k. apply RatingSortFacts.sort_stableQ, byRating_key.
Qed.

Lemma finalResults_permutation fuel catalog params out :
  JS.trim (q params) ≠ [] →
  finalResults fuel catalog params = Some out →
  out ≡ₚ List.filter
           (λ product,
              bool_decide (0 < calculateRelevanceScore product (q params)))
           (applyFilters catalog params).
Proof.
  intros Hq (results & Hp & Hs & ->)%finalResults_scored; [|exact Hq].
  rewrite RatingSortFacts.sort_permutation, <- Hp.
  rewrite (filter_fmap_agree product
             (λ result, bool_decide (0 < score result))
             (λ product,
                bool_decide (0 < calculateRelevanceScore product (q params))));
    [done|].
  eapply Forall_impl; [exact Hs|]. intros r Hr. cbn. by rewrite Hr.
Qed.

(** X9. For a query that is not blank, the output of the pipeline
    consists of the filtered products of positive score, each exactly
    once: a product is in it if and only if it is in the catalog, meets
    the filter rule and scores above 0. *)
Theorem finalResults_members fuel catalog params out :
  JS.trim (q params) ≠ [] →
  finalResults fuel catalog params = Some out →
  out ≡ₚ List.filter
           (λ product,
              bool_decide (0 < calculateRelevanceScore product (q params)))
           (applyFilters catalog params) ∧
  ∀ product,
    product ∈ out
    ↔ product ∈ catalog ∧ meetsFilterRule params product ∧
      0 < calculateRelevanceScore product (q params).
Proof.
  intros Hq Hout.
  pose proof (finalResults_permutation _ _ _ _ Hq Hout) as Hperm.
  split; [exact Hperm|]. intros p. rewrite Hperm.
  rewrite list_elem_of_In, filter_In, <- list_elem_of_In, bool_decide_eq_true.
  unfold applyFilters.
  rewrite list_elem_of_In, filter_In, <- list_elem_of_In, passesFilters_iff.
  tauto.
Qed.
End PipelineFacts.

(** ** Filter engine, continued *)

Section FilterFacts.
Context {runtime : Runtime}.

Lemma applyFilters_member products params product :
  product ∈ applyFilters products params
  ↔ product ∈ products ∧ meetsFilterRule params product.
Proof.
  unfold applyFilters.
  by rewrite !list_elem_of_In, filter_In, passesFilters_iff.
Qed.

Lemma filter_idempotent {A} (f : A → bool) l :
  List.filter f (List.filter f l) = List.filter f l.
Proof.
  induction l as [|x l IH]; [done|]. cbn [List.filter].
  destruct (f x) eqn:E; [|done]. cbn [List.filter]. by rewrite E, IH.
Qed.

(** X10. Filtering is idempotent, and filtering a catalog made of two
    parts is filtering each part. *)
Theorem applyFilters_idempotent products more params :
  applyFilters (applyFilters products params) params
  = applyFilters products params ∧
  applyFilters (products ++ more) params
  = applyFilters products params ++ applyFilters more params.
Proof.
  unfold applyFilters. split; [apply filter_idempotent|apply List.filter_app].
Qed.

(** X11. With a price range whose upper bound is below its lower bound
    nothing passes the filter. *)
Theorem applyFilters_empty_price_range products params :
  (maxPrice params < minPrice params)%Q → applyFilters products params = [].
Proof.
  intros Hrange.
  destruct (applyFilters products params) as [|p l] eqn:E; [done|].
  assert (p ∈ applyFilters products params) as Hp by (rewrite E; left).
  apply applyFilters_member in Hp as (_ & _ & Hmin & Hmax & _).
  exfalso. eapply Qlt_not_le; [exact Hrange|]. eapply Qle_trans; eassumption.
Qed.

(** X12. Only the set of selected categories counts: a category list
    with the same members, in another order or with repetitions, gives
    the same filtered set and the same output of the pipeline. *)
Theorem applyFilters_category_set fuel products params selected :
  (∀ c, c ∈ selected ↔ c ∈ categories params) →
  applyFilters products (withCategories selected params)
  = applyFilters products params ∧
  finalResults fuel products (withCategories selected params)
  = finalResults fuel products params.
Proof.
  intros Hsame.
  assert (applyFilters products (withCategories selected params)
          = applyFilters products params) as Hf.
  { unfold applyFilters. cbn [categories withCategories].
    assert ((list_to_set selected : gset jsstring)
            = list_to_set (categories params)) as ->.
    { apply set_eq. intros c. by rewrite !elem_of_list_to_set. }
    by destruct params. }
  split; [exact Hf|]. unfold finalResults. by rewrite Hf.
Qed.
End FilterFacts.

(** ** From the client's URL to the handler's parameters *)

Module SplitJoinFacts.
Import JSArray.

Lemma split_nonempty separator s : split separator s ≠ [].
Proof.
  destruct s as [|c s]; [done|]. cbn [split].
  destruct (c =? separator)%N; [done|]. by destruct (split separator s).
Qed.

Lemma split_piece separator piece rest :
  separator ∉ piece →
  split separator (piece ++ separator :: rest)
  = piece :: split separator rest.
Proof.
  induction piece as [|c piece IH]; intros Hc.
  - cbn [app split]. by rewrite N.eqb_refl.
  - apply not_elem_of_cons in Hc as [Hne Hc]. cbn [app split].
    rewrite (proj2 (N.eqb_neq c separator)) by done. by rewrite IH.
Qed.

Lemma split_whole separator piece :
  separator ∉ piece → split separator piece = [piece].
Proof.
  induction piece as [|c piece IH]; intros Hc; [done|].
  apply not_elem_of_cons in Hc as [Hne Hc]. cbn [split].
  rewrite (proj2 (N.eqb_neq c separator)) by done. by rewrite IH.
Qed.

(** Splitting what was joined gives the pieces back. *)
Lemma split_join separator pieces :
  pieces ≠ [] → Forall (λ piece, separator ∉ piece) pieces →
  split separator (join separator pieces) = pieces.
Proof.
  intros Hne Hall. induction Hall as [|piece pieces Hp Hall IH]; [done|].
  destruct pieces as [|piece' pieces]; [by apply split_whole|].
  change (join separator (piece :: piece' :: pieces))
    with (piece ++ separator :: join separator (piece' :: pieces)).
  rewrite split_piece by done. f_equal. by apply IH.
Qed.

(** No piece of a split contains the separator. *)
Lemma split_pieces separator s :
  Forall (λ piece, separator ∉ piece) (split separator s).
Proof.
  induction s as [|c s IH]; [repeat constructor; by apply not_elem_of_nil|].
  cbn [split]. destruct (N.eqb_spec c separator) as [->|Hne].
  - constructor; [apply not_elem_of_nil|done].
  - destruct (split separator s) as [|piece pieces].
    + repeat constructor. intros [->|?%elem_of_nil]%elem_of_cons; done.
    + apply Forall_cons in IH as [Hp Hps]. constructor; [|done].
      intros [->|?]%elem_of_cons; done.
Qed.

End SplitJoinFacts.

Module URLFacts.
Import URLSearchParams.

Lemma get_append_other params name value other :
  name ≠ other → get (append params name value) other = get params other.
Proof.
  intros Hne. unfold get, append. induction params as [|[k v] params IH].
  - cbn. by rewrite bool_decide_eq_false_2.
  - cbn [app List.find]. by destruct (bool_decide _).
Qed.

Lemma get_append_new params name value :
  get params name = None → get (append params name value) name = Some value.
Proof.
  unfold get, append. induction params as [|[k v] params IH].
  - intros _. cbn. by rewrite bool_decide_eq_true_2.
  - cbn [app List.find]. destruct (bool_decide _); [done|exact IH].
Qed.

Lemma get_if_other (c : bool) params name value other :
  name ≠ other →
  get (if c then append params name value else params) other
  = get params other.
Proof. intros. destruct c; [by apply get_append_other|done]. Qed.

Lemma get_match_other {A} (o : option A) params name (value : A → jsstring)
    other :
  name ≠ other →
  get (match o with
       | Some x => append params name (value x)
       | None => params
       end) other
  = get params other.
Proof. intros. destruct o; [by apply get_append_other|done]. Qed.

End URLFacts.

Ltac skip_other_names :=
  rewrite ?URLFacts.get_append_other by (by vm_compute);
  rewrite ?URLFacts.get_match_other by (by vm_compute);
  rewrite ?URLFacts.get_if_other by (by vm_compute).

Section ParameterFacts.

Lemma categoryName_plain c :
  categoryName c ≠ [] ∧ (44%N ∉ categoryName c) ∧
  JS.trim (categoryName c) = categoryName c.
Proof.
  destruct c; (split; [done|split; [|reflexivity]]);
    vm_compute; intros H; repeat (apply elem_of_cons in H as [[=]|H]);
    by apply elem_of_nil in H.
Qed.

Lemma join_nonempty separator pieces :
  pieces ≠ [] → Forall (λ piece, piece ≠ []) pieces →
  JSArray.join separator pieces ≠ [].
Proof.
  intros Hne Hall. destruct Hall as [|piece pieces Hp _]; [done|].
  destruct pieces; cbn [JSArray.join]; [done|]. by destruct piece.
Qed.

Lemma categories_of_value searchParams value :
  URLSearchParams.get searchParams (js "categories") = Some value →
  value ≠ [] →
  Parsed.categories searchParams
  = List.filter (λ c, bool_decide (0 < JS.len c))
      (JS.trim <$> JSArray.split 44 value).
Proof. unfold Parsed.categories. intros -> ?. by destruct value. Qed.

(** X13. The categories the handler parses from any URL are non-empty,
    trimmed and free of commas. *)
Theorem parsed_categories_clean searchParams c :
  c ∈ Parsed.categories searchParams →
  c ≠ [] ∧ JS.trim c = c ∧ (44%N ∉ c).
Proof.
  unfold Parsed.categories.
  destruct (URLSearchParams.get _ _) as [[|x value]|];
    [by intros ?%elem_of_nil| |by intros ?%elem_of_nil].
  intros [Hin Hlen]%list_elem_of_In%filter_In.
  apply bool_decide_eq_true in Hlen.
  apply list_elem_of_In, list_elem_of_fmap in Hin as (piece & -> & Hpiece).
  split; [intros E; rewrite E in Hlen; unfold JS.len in Hlen; simpl in Hlen; lia|].
  split; [apply JSFacts.trim_idempotent|].
  pose proof (SplitJoinFacts.split_pieces 44 (x :: value)) as Hpieces.
  rewrite Forall_forall in Hpieces. intros Hc.
  by apply (Hpieces _ Hpiece), JSFacts.trim_incl.
Qed.

Lemma categories_read_back (selected : list ProductCategory) :
  selected ≠ [] →
  List.filter (λ c, bool_decide (0 < JS.len c))
    (JS.trim <$> JSArray.split 44 (JSArray.join 44 (categoryName <$> selected)))
  = categoryName <$> selected.
Proof.
  intros Hne. rewrite SplitJoinFacts.split_join.
  - induction selected as [|c selected IH]; [done|].
    destruct (categoryName_plain c) as (Hc & _ & Ht).
    cbn [fmap list_fmap List.filter]. rewrite Ht.
    rewrite bool_decide_eq_true_2.
    2: { unfold JS.len. destruct (categoryName c); [done|cbn; lia]. }
    f_equal. destruct selected; [done|]. by apply IH.
  - by destruct selected.
  - apply Forall_fmap, Forall_forall. intros c _.
    apply categoryName_plain.
Qed.

(** What [get] answers on the parameters the client builds. *)
Lemma buildSearchURL_get numberToString query filters :
  let searchParams := Filters.buildSearchURL numberToString query filters in
  URLSearchParams.get searchParams (js "q")
  = (if bool_decide (JS.trim query = []) then None else Some (JS.trim query)) ∧
  URLSearchParams.get searchParams (js "categories")
  = (if bool_decide (Filters.categories filters = []) then None
     else Some (JSArray.join 44 (categoryName <$> Filters.categories filters))) ∧
  URLSearchParams.get searchParams (js "inStock")
  = Filters.booleanToString <$> Filters.inStock filters ∧
  URLSearchParams.get searchParams (js "organic")
  = Filters.booleanToString <$> Filters.organic filters ∧
  URLSearchParams.get searchParams (js "logicMode")
  = Some (Filters.logicModeName (Filters.logicMode filters)).
Proof.
  cbv zeta. unfold Filters.buildSearchURL. cbv zeta.
  split; [|split; [|split; [|split]]].
  - skip_other_names.
    destruct (bool_decide (JS.trim query = [])); cbn [negb]; [reflexivity|].
    by rewrite URLFacts.get_append_new.
  - skip_other_names.
    destruct (Filters.categories filters) as [|c selected];
      [cbn [length]; rewrite (bool_decide_eq_false_2 (0 < 0)%nat) by lia;
       by skip_other_names|].
    rewrite (bool_decide_eq_true_2 (0 < length (c :: selected))%nat)
      by (cbn; lia).
    rewrite (bool_decide_eq_false_2 (c :: selected = [])) by done.
    rewrite URLFacts.get_append_new; [done|]. by skip_other_names.
  - skip_other_names.
    destruct (Filters.inStock filters); [|by skip_other_names].
    rewrite URLFacts.get_append_new; [done|]. by skip_other_names.
  - skip_other_names.
    destruct (Filters.organic filters); [|by skip_other_names].
    rewrite URLFacts.get_append_new; [done|]. by skip_other_names.
  - rewrite URLFacts.get_append_new; [done|]. by skip_other_names.
Qed.

Lemma flag_of_value searchParams name (value : option bool) :
  URLSearchParams.get searchParams name = Filters.booleanToString <$> value →
  Parsed.flag searchParams name = value.
Proof.
  unfold Parsed.flag. intros ->. by destruct value as [[|]|].
Qed.

(** On a string without unpaired surrogates the conversion to a
    USVString changes nothing. *)
Lemma convert_fixed s :
  USVString.isWellFormed s = true → USVString.convert s = s.
Proof.
  induction s as [s IH] using (induction_ltof1 _ (@length _)).
  unfold ltof in IH. destruct s as [|c rest]; [done|].
  cbn [USVString.isWellFormed USVString.convert].
  destruct (USVString.isLeadSurrogate c).
  - destruct rest as [|d rest']; [done|].
    intros [-> Hrest]%andb_true_iff. rewrite IH; [done|cbn; lia|done].
  - intros [Ht%negb_true_iff Hrest]%andb_true_iff. rewrite Ht.
    rewrite IH; [done|cbn; lia|done].
Qed.

(** X14. For a query without unpaired surrogates (the platform stores
    any other with U+FFFD in their place), the handler reads back what
    the client put into the URL: the trimmed query, which the conversion
    of [append] leaves as it is, the selected categories in their order,
    the stock and organic flags and the logic mode. *)
Theorem buildSearchURL_read_back numberToString query filters :
  USVString.isWellFormed (JS.trim query) = true →
  let searchParams := Filters.buildSearchURL numberToString query filters in
  Parsed.q searchParams = JS.trim query ∧
  USVString.convert (Parsed.q searchParams) = Parsed.q searchParams ∧
  Parsed.categories searchParams
  = categoryName <$> Filters.categories filters ∧
  Parsed.flag searchParams (js "inStock") = Filters.inStock filters ∧
  Parsed.flag searchParams (js "organic") = Filters.organic filters ∧
  Parsed.logicMode searchParams = Filters.logicMode filters.
Proof.
  intros Hwell searchParams.
  destruct (buildSearchURL_get numberToString query filters)
    as (Hq & Hc & Hs & Ho & Hl). fold searchParams in Hq, Hc, Hs, Ho, Hl.
  assert (Parsed.q searchParams = JS.trim query) as Hread.
  { unfold Parsed.q. rewrite Hq.
    destruct (bool_decide (JS.trim query = [])) eqn:E.
    + by apply bool_decide_eq_true in E as ->.
    + apply bool_decide_eq_false in E. by destruct (JS.trim query). }
  split; [exact Hread|]. split; [rewrite Hread; by apply convert_fixed|].
  split; [|split; [|split]].
  - destruct (Filters.categories filters) as [|c selected] eqn:E.
    + unfold Parsed.categories. by rewrite Hc.
    + rewrite bool_decide_eq_false_2 in Hc by done.
      rewrite (categories_of_value _ _ Hc).
      * by apply categories_read_back.
      * apply join_nonempty; [done|]. apply Forall_fmap, Forall_forall.
        intros c' _. apply categoryName_plain.
  - by apply flag_of_value.
  - by apply flag_of_value.
  - unfold Parsed.logicMode. rewrite Hl.
    by destruct (Filters.logicMode filters).
Qed.
End ParameterFacts.

(** ** Slices *)

Module SliceFacts.
Import JSArray.

Lemma slice_prefix {A} (l : list A) n :
  0 ≤ n → slice l 0 n = take (Z.to_nat n) l.
Proof.
  intros Hn. unfold slice, relativeIndex.
  change (0 <? 0) with false. cbv iota.
  rewrite (proj2 (Z.ltb_ge n 0)) by lia.
  rewrite (Z.min_l 0) by lia. change (Z.to_nat 0) with 0%nat.
  rewrite drop_0, Z.sub_0_r.
  destruct (Z.min_spec n (Z.of_nat (length l))) as [[? ->]|[? ->]]; [done|].
  rewrite Nat2Z.id, (take_ge l (length l)), (take_ge l (Z.to_nat n)); [done|lia..].
Qed.

Lemma slice_middle {A} (l : list A) a b :
  0 ≤ a → a ≤ b → b ≤ Z.of_nat (length l) →
  slice l a b = take (Z.to_nat (b - a)) (drop (Z.to_nat a) l).
Proof.
  intros Ha Hab Hb. unfold slice, relativeIndex.
  rewrite (proj2 (Z.ltb_ge a 0)), (proj2 (Z.ltb_ge b 0)) by lia.
  by rewrite !Z.min_l by lia.
Qed.

Lemma sliceFrom_drop {A} (l : list A) a :
  0 ≤ a → a ≤ Z.of_nat (length l) → sliceFrom l a = drop (Z.to_nat a) l.
Proof.
  intros Ha Hl. unfold sliceFrom. rewrite slice_middle by lia.
  apply take_ge. rewrite length_drop. lia.
Qed.

Lemma slice_sublist {A} (l : list A) a b : slice l a b `sublist_of` l.
Proof.
  unfold slice. etransitivity; [apply sublist_take|apply sublist_drop].
Qed.

(** The text before [a] followed by the slice from [a] to [b] is the
    text before [b]. *)
Lemma take_slice {A} (l : list A) a b :
  0 ≤ a → a ≤ b → b ≤ Z.of_nat (length l) →
  take (Z.to_nat a) l ++ slice l a b = take (Z.to_nat b) l.
Proof.
  intros Ha Hab Hb. rewrite slice_middle by lia.
  rewrite take_take_drop. f_equal. lia.
Qed.

End SliceFacts.

(** ** The product index *)

Section IndexFacts.
Context {runtime : Runtime}.

(** The index route filters as the products route does (its
    [applyFilters] is a copy): its index lists, in catalog order, the
    name and the category of the products that the filter of the
    products route keeps. *)
Lemma index_route_agrees catalog params :
  IndexRoute.applyFilters catalog (filterParamsOf params)
  = applyFilters catalog params ∧
  IndexRoute.index catalog (filterParamsOf params)
  = indexItemOf <$> applyFilters catalog params.
Proof. split; reflexivity. Qed.

Lemma searchIndex_unfold query index maxResults :
  JS.trim query ≠ [] → 0 ≤ maxResults →
  ProductIndex.searchIndex query index maxResults
  = take (Z.to_nat maxResults)
      (List.filter
         (λ item, JS.includes (normalizeString (IndexItem.name item))
                    (normalizeString query))
         index).
Proof.
  intros Hq Hm. unfold ProductIndex.searchIndex.
  rewrite (bool_decide_eq_false_2 (JS.trim query = [])) by done.
  cbn [orb]. destruct (bool_decide (length index = 0%nat)) eqn:E.
  - apply bool_decide_eq_true, nil_length_inv in E as ->.
    cbn [List.filter]. by rewrite take_nil.
  - by apply SliceFacts.slice_prefix.
Qed.

(** X15. With a non-negative limit, [searchIndex] answers at most that
    many items, taken in order from the index, each with a normalised
    name that contains the normalised query; for a blank query it
    answers none. *)
Theorem searchIndex_results query index maxResults :
  0 ≤ maxResults →
  let result := ProductIndex.searchIndex query index maxResults in
  Z.of_nat (length result) ≤ maxResults ∧
  result `sublist_of` index ∧
  (∀ item, item ∈ result →
     JS.includes (normalizeString (IndexItem.name item))
       (normalizeString query) = true) ∧
  (isBlank query → result = []).
Proof.
  intros Hm result. subst result.
  destruct (decide (JS.trim query = [])) as [E|E].
  - unfold ProductIndex.searchIndex.
    rewrite (bool_decide_eq_true_2 (JS.trim query = [])) by done. cbn [orb].
    split; [cbn; lia|]. split; [apply sublist_nil_l|].
    split; [by intros ? ?%elem_of_nil|done].
  - rewrite searchIndex_unfold by done.
    split; [rewrite length_take; lia|].
    split; [etransitivity; [apply sublist_take|apply filter_sublist]|].
    split.
    + intros item Hin%(sublist_subseteq _ _ (sublist_take _ _)).
      by apply list_elem_of_In, filter_In in Hin as [_ ?].
    + intros Hb. by apply trim_blank in Hb.
Qed.

(** X16. What the local index search suggests, the products route
    returns: for a query whose normalised form is not empty, every item
    that [searchIndex] finds in the index of the index route is the name
    and category of a product in the output of the pipeline, under the
    same filters. *)
Theorem searchIndex_items_are_served catalog params maxResults item :
  normalizeString (q params) ≠ [] →
  item ∈ ProductIndex.searchIndex (q params)
           (IndexRoute.index catalog (filterParamsOf params)) maxResults →
  ∃ fuel out product,
    finalResults fuel catalog params = Some out ∧ product ∈ out ∧
    indexItemOf product = item.
Proof.
  intros Hn Hin.
  assert (JS.trim (q params) ≠ []) as Hq.
  { intros E. unfold ProductIndex.searchIndex in Hin.
    rewrite (bool_decide_eq_true_2 (JS.trim (q params) = [])) in Hin by done.
    by apply elem_of_nil in Hin. }
  assert (item ∈ List.filter
            (λ item, JS.includes (normalizeString (IndexItem.name item))
                       (normalizeString (q params)))
            (IndexRoute.index catalog (filterParamsOf params))) as Hitem.
  { unfold ProductIndex.searchIndex in Hin.
    rewrite (bool_decide_eq_false_2 (JS.trim (q params) = [])) in Hin by done.
    cbn [orb] in Hin. destruct (bool_decide _); [by apply elem_of_nil in Hin|].
    eapply sublist_subseteq; [apply SliceFacts.slice_sublist|exact Hin]. }
  apply list_elem_of_In, filter_In in Hitem as [Hitem Hincl].
  apply list_elem_of_In, list_elem_of_fmap in Hitem as (p & -> & Hp).
  destruct (finalResults_returns catalog params Hn) as (fuel & out & Hout).
  exists fuel, out, p. split; [done|]. split; [|done].
  rewrite (finalResults_permutation _ _ _ _ Hq Hout).
  apply list_elem_of_In, filter_In. split; [by apply list_elem_of_In|].
  apply bool_decide_eq_true.
  pose proof (includes_scores_60 p (q params) Hq Hincl). lia.
Qed.
End IndexFacts.

(** ** Highlighting *)

Section HighlightFacts.
Import Highlight.

Lemma orderedSpans_bound lastIndex matches len :
  orderedSpans lastIndex matches len → lastIndex ≤ len.
Proof.
  revert lastIndex. induction matches as [|[start stop] rest IH];
    intros lastIndex; cbn [orderedSpans]; [done|].
  intros (? & ? & Hrest). apply IH in Hrest. lia.
Qed.

Lemma segmentTexts_app l1 l2 :
  concat (segmentTexts (l1 ++ l2))
  = concat (segmentTexts l1) ++ concat (segmentTexts l2).
Proof. unfold segmentTexts. by rewrite fmap_app, concat_app. Qed.

Lemma highlightedTexts_app l1 l2 :
  highlightedTexts (l1 ++ l2) = highlightedTexts l1 ++ highlightedTexts l2.
Proof. unfold highlightedTexts. by rewrite List.filter_app, fmap_app. Qed.

Lemma addMatch_invariant fullText segments lastIndex start stop rest :
  0 ≤ lastIndex →
  orderedSpans lastIndex ((start, stop) :: rest) (JS.len fullText) →
  concat (segmentTexts segments) = take (Z.to_nat lastIndex) fullText →
  let acc := addMatch fullText (segments, lastIndex) (start, stop) in
  acc.2 = stop ∧ 0 ≤ stop ∧
  concat (segmentTexts acc.1) = take (Z.to_nat stop) fullText ∧
  highlightedTexts acc.1
  = highlightedTexts segments ++ [JSArray.slice fullText start stop].
Proof.
  intros H0 (Hstart & Hstop & Hrest) Hc.
  apply orderedSpans_bound in Hrest. unfold JS.len in Hrest.
  cbn [addMatch fst snd]. split; [done|]. split; [lia|].
  rewrite !segmentTexts_app, !highlightedTexts_app, Hc.
  destruct (Z.ltb_spec lastIndex start) as [Hlt|Hge].
  - split.
    + cbn [segmentTexts fmap list_fmap concat text].
      rewrite (app_nil_r (JSArray.slice fullText lastIndex start)),
        (app_nil_r (JSArray.slice fullText start stop)).
      rewrite app_assoc, SliceFacts.take_slice by lia.
      by rewrite SliceFacts.take_slice by lia.
    + done.
  - assert (lastIndex = start) as -> by lia. split.
    + cbn [segmentTexts fmap list_fmap concat text app].
      rewrite (app_nil_r (JSArray.slice fullText start stop)).
      by rewrite SliceFacts.take_slice by lia.
    + done.
Qed.

Lemma foldl_addMatch_invariant fullText matches segments lastIndex :
  0 ≤ lastIndex →
  orderedSpans lastIndex matches (JS.len fullText) →
  concat (segmentTexts segments) = take (Z.to_nat lastIndex) fullText →
  let acc := foldl (addMatch fullText) (segments, lastIndex) matches in
  0 ≤ acc.2 ≤ JS.len fullText ∧
  concat (segmentTexts acc.1) = take (Z.to_nat acc.2) fullText ∧
  highlightedTexts acc.1
  = highlightedTexts segments
    ++ ((λ found, JSArray.slice fullText found.1 found.2) <$> matches).
Proof.
  revert segments lastIndex.
  induction matches as [|[start stop] rest IH]; intros segments lastIndex H0 Ho Hc.
  - cbn [foldl fst snd fmap list_fmap]. rewrite app_nil_r.
    split; [|done]. split; [done|]. by apply orderedSpans_bound in Ho.
  - destruct (addMatch_invariant _ _ _ _ _ _ H0 Ho Hc) as (H2 & Hs & Hc' & Hh).
    cbn [foldl].
    destruct (addMatch fullText (segments, lastIndex) (start, stop))
      as [segments' lastIndex'] eqn:E.
    cbn [fst snd] in *. subst lastIndex'.
    destruct Ho as (_ & _ & Hrest).
    destruct (IH segments' stop Hs Hrest Hc') as (Hb & Hcc & Hhh).
    split; [done|]. split; [done|].
    rewrite Hhh, Hh, <- app_assoc. done.
Qed.

(** X17. For spans that are in order, apart and inside the text, the
    segments of [splitTextWithMatches] put together are the text, and
    the highlighted ones are the slices of the spans, in order. *)
Theorem splitTextWithMatches_covers fullText matches :
  orderedSpans 0 matches (JS.len fullText) →
  concat (segmentTexts (splitTextWithMatches fullText matches)) = fullText ∧
  highlightedTexts (splitTextWithMatches fullText matches)
  = (λ found, JSArray.slice fullText found.1 found.2) <$> matches.
Proof.
  intros Ho. unfold splitTextWithMatches.
  destruct (bool_decide (length matches = 0%nat)) eqn:E.
  - apply bool_decide_eq_true, nil_length_inv in E as ->.
    cbn. by rewrite app_nil_r.
  - destruct (foldl_addMatch_invariant fullText matches [] 0
                ltac:(lia) Ho eq_refl) as ((H0 & Hlen) & Hc & Hh).
    destruct (foldl (addMatch fullText) ([], 0) matches)
      as [segments lastIndex].
    cbn [fst snd] in *. cbn [highlightedTexts List.filter fmap list_fmap app] in Hh.
    destruct (Z.ltb_spec lastIndex (JS.len fullText)) as [Hlt|Hge].
    + rewrite segmentTexts_app, highlightedTexts_app, Hc, Hh.
      cbn [segmentTexts highlightedTexts fmap list_fmap concat text
             List.filter isHighlighted].
      unfold JS.len in *.
      rewrite SliceFacts.sliceFrom_drop, !app_nil_r, take_drop by lia. done.
    + split; [|done]. rewrite Hc. apply take_ge. unfold JS.len in *. lia.
Qed.
End HighlightFacts.

(** ** The matches the highlight component looks for *)

Section ComponentFacts.
Context (canonicalize : N → N).

Lemma matchesAt_length pattern text :
  Highlight.matchesAt canonicalize pattern text = true →
  (length pattern ≤ length text)%nat.
Proof.
  revert text. induction pattern as [|p pattern IH]; intros text;
    [cbn; lia|].
  destruct text as [|c text]; [done|]. cbn [Highlight.matchesAt length].
  intros [_ H%IH]%andb_true_iff. lia.
Qed.

Lemma matchesAt_take pattern text :
  Highlight.matchesAt canonicalize pattern text = true →
  canonicalize <$> take (length pattern) text = canonicalize <$> pattern.
Proof.
  revert text. induction pattern as [|p pattern IH]; intros text; [done|].
  destruct text as [|c text]; [done|].
  cbn [Highlight.matchesAt length take fmap list_fmap].
  intros [Hc%N.eqb_eq H%IH]%andb_true_iff.
  cbn [fmap] in H. by rewrite Hc, H.
Qed.

Lemma orderedSpans_weaken lastIndex lastIndex' matches len :
  lastIndex' ≤ lastIndex →
  Highlight.orderedSpans lastIndex matches len →
  Highlight.orderedSpans lastIndex' matches len.
Proof.
  destruct matches as [|[start stop] rest]; cbn [Highlight.orderedSpans];
    [lia|].
  intros ? (? & ? & ?). split; [lia|done].
Qed.

Lemma matchAll_ordered pattern text index inside :
  pattern ≠ [] → (inside ≤ length text)%nat →
  Highlight.orderedSpans (index + Z.of_nat inside)
    (Highlight.matchAll canonicalize pattern text index inside)
    (index + JS.len text).
Proof.
  intros Hp. revert index inside.
  induction text as [|c text IH]; intros index inside Hinside.
  - cbn [Highlight.matchAll Highlight.orderedSpans length] in *.
    unfold JS.len. cbn [length]. lia.
  - cbn [Highlight.matchAll]. unfold JS.len in *. cbn [length] in *.
    destruct inside as [|inside].
    + destruct (Highlight.matchesAt canonicalize pattern (c :: text))
        eqn:E.
      * apply matchesAt_length in E. cbn [length] in E.
        assert (1 ≤ length pattern)%nat by (destruct pattern; [done|cbn; lia]).
        cbn [Highlight.orderedSpans]. split; [lia|]. split; [lia|].
        specialize (IH (index + 1) (length pattern - 1)%nat ltac:(lia)).
        replace (index + 1 + Z.of_nat (length pattern - 1))
          with (index + Z.of_nat (length pattern)) in IH by lia.
        replace (index + 1 + Z.of_nat (length text))
          with (index + Z.of_nat (S (length text))) in IH by lia.
        exact IH.
      * specialize (IH (index + 1) 0%nat ltac:(lia)).
        replace (index + 1 + Z.of_nat (length text))
          with (index + Z.of_nat (S (length text))) in IH by lia.
        eapply orderedSpans_weaken; [|exact IH]. lia.
    + specialize (IH (index + 1) inside ltac:(lia)).
      replace (index + 1 + Z.of_nat inside)
        with (index + Z.of_nat (S inside)) in IH by lia.
      replace (index + 1 + Z.of_nat (length text))
        with (index + Z.of_nat (S (length text))) in IH by lia.
      exact IH.
Qed.

Lemma matchAll_found pattern text index inside start stop :
  (start, stop)
  ∈ Highlight.matchAll canonicalize pattern text index inside →
  ∃ k : nat,
    start = index + Z.of_nat k ∧ stop = start + JS.len pattern ∧
    Highlight.matchesAt canonicalize pattern (drop k text) = true.
Proof.
  revert index inside. induction text as [|c text IH]; intros index inside.
  - by intros ?%elem_of_nil.
  - cbn [Highlight.matchAll].
    assert (∀ inside',
              (start, stop)
              ∈ Highlight.matchAll canonicalize pattern text (index + 1)
                  inside' →
              ∃ k : nat,
                start = index + Z.of_nat k ∧ stop = start + JS.len pattern ∧
                Highlight.matchesAt canonicalize pattern
                  (drop k (c :: text)) = true) as Hrest.
    { intros inside' (k & -> & Hstop & Hk)%IH. exists (S k).
      split; [lia|]. split; [lia|exact Hk]. }
    destruct inside as [|inside]; [|apply Hrest].
    destruct (Highlight.matchesAt canonicalize pattern (c :: text)) eqn:E;
      [|apply Hrest].
    intros [[= -> ->]|Hin]%elem_of_cons; [|by eapply Hrest].
    exists 0%nat. split; [lia|]. split; [lia|exact E].
Qed.

Lemma matchAll_complete pattern text index inside (k : nat) :
  pattern ≠ [] → (inside ≤ k)%nat →
  Highlight.matchesAt canonicalize pattern (drop k text) = true →
  ∃ start stop,
    (start, stop)
    ∈ Highlight.matchAll canonicalize pattern text index inside ∧
    start ≤ index + Z.of_nat k < stop.
Proof.
  intros Hp. revert index inside k.
  induction text as [|c text IH]; intros index inside k Hk Hm.
  - rewrite drop_nil in Hm. by destruct pattern.
  - cbn [Highlight.matchAll].
    assert (∀ inside' k', k = S k' → (inside' ≤ k')%nat →
              ∃ start stop,
                (start, stop)
                ∈ Highlight.matchAll canonicalize pattern text (index + 1)
                    inside' ∧
                start ≤ index + Z.of_nat k < stop) as Hrest.
    { intros inside' k' -> Hk'. cbn [drop] in Hm.
      destruct (IH (index + 1) inside' k' Hk' Hm) as (start & stop & Hin & ?).
      exists start, stop. split; [exact Hin|lia]. }
    destruct inside as [|inside].
    + destruct (Highlight.matchesAt canonicalize pattern (c :: text)) eqn:E.
      * destruct (decide (Z.of_nat k < JS.len pattern)) as [Hlt|Hge].
        -- exists index, (index + JS.len pattern).
           split; [apply list_elem_of_here|lia].
        -- unfold JS.len in Hge.
           assert (1 ≤ length pattern)%nat
             by (destruct pattern; [done|cbn; lia]).
           destruct k as [|k']; [lia|].
           destruct (Hrest (length pattern - 1)%nat k' eq_refl ltac:(lia))
             as (start & stop & Hin & ?).
           exists start, stop. split; [by apply list_elem_of_further|done].
      * destruct k as [|k']; [cbn [drop] in Hm; congruence|].
        apply (Hrest 0%nat k' eq_refl). lia.
    + destruct k as [|k']; [lia|]. apply (Hrest inside k' eq_refl). lia.
Qed.

(** X18. The spans the highlight component finds are in order, apart
    and inside the text (so its segments put together are the text);
    each has the length of the trimmed query and holds it up to case
    folding; every place where the trimmed query occurs up to case
    folding lies in one of the spans; and a blank query has none. *)
Theorem findMatches_of_component fullText query :
  let matches := Highlight.findMatches canonicalize fullText query in
  Highlight.orderedSpans 0 matches (JS.len fullText) ∧
  (∀ start stop, (start, stop) ∈ matches →
     stop = start + JS.len (JS.trim query) ∧
     canonicalize <$> JSArray.slice fullText start stop
     = canonicalize <$> JS.trim query) ∧
  (∀ i : nat,
     JS.trim query ≠ [] →
     Highlight.matchesAt canonicalize (JS.trim query) (drop i fullText)
     = true →
     ∃ start stop, (start, stop) ∈ matches ∧ start ≤ Z.of_nat i < stop) ∧
  (JS.trim query = [] → matches = []).
Proof.
  cbv zeta. unfold Highlight.findMatches.
  case_bool_decide as Hq.
  - split; [cbn; unfold JS.len; lia|].
    split; [by intros ?? ?%elem_of_nil|]. split; [done|done].
  - split; [|split; [|split; [|done]]].
    + apply (matchAll_ordered _ fullText 0 0%nat Hq). lia.
    + intros start stop (k & -> & -> & Hm)%matchAll_found.
      split; [done|].
      pose proof (matchesAt_length _ _ Hm) as Hlen.
      rewrite length_drop in Hlen. unfold JS.len.
      assert (1 ≤ length (JS.trim query))%nat
        by (destruct (JS.trim query); [done|cbn; lia]).
      rewrite SliceFacts.slice_middle by lia.
      replace (Z.to_nat (0 + Z.of_nat k + Z.of_nat (length (JS.trim query))
                         - (0 + Z.of_nat k)))
        with (length (JS.trim query)) by lia.
      replace (Z.to_nat (0 + Z.of_nat k)) with k by lia.
      by apply matchesAt_take.
    + intros i _ Hm.
      destruct (matchAll_complete _ fullText 0 0%nat i Hq ltac:(lia) Hm)
        as (start & stop & Hin & ?).
      exists start, stop. split; [exact Hin|lia].
Qed.
End ComponentFacts.

(** ** The client's filter state *)

Module JSSetFacts.
Section Ops.
Context {A : Type} `{EqDecision A}.

Lemma elem_of_add (s : list A) x y : y ∈ JSSet.add s x ↔ y ∈ s ∨ y = x.
Proof.
  unfold JSSet.add, JSSet.has. case_bool_decide.
  - split; [by left|]. by intros [?| ->].
  - rewrite elem_of_app, list_elem_of_singleton. done.
Qed.

Lemma elem_of_delete (s : list A) x y :
  y ∈ JSSet.delete s x ↔ y ∈ s ∧ y ≠ x.
Proof.
  unfold JSSet.delete.
  rewrite list_elem_of_In, filter_In, <- list_elem_of_In, negb_true_iff,
    bool_decide_eq_false. done.
Qed.

Lemma NoDup_add (s : list A) x : NoDup s → NoDup (JSSet.add s x).
Proof.
  intros Hs. unfold JSSet.add, JSSet.has. case_bool_decide; [done|].
  apply NoDup_app. split; [done|]. split; [|apply NoDup_singleton].
  intros y Hy ->%list_elem_of_singleton. done.
Qed.

Lemma NoDup_delete (s : list A) x : NoDup s → NoDup (JSSet.delete s x).
Proof.
  intros Hs. eapply sublist_NoDup; [exact Hs|]. apply filter_sublist.
Qed.
End Ops.
End JSSetFacts.

Lemma lt_true_iff a b : JS.lt a b = true ↔ (a < b)%Q.
Proof.
  unfold JS.lt. destruct (Qlt_le_dec a b) as [H|H]; split; try done.
  intros H'. exfalso. eapply Qlt_not_le; eassumption.
Qed.

Section FilterStateFacts.
Import Filters.
Context (PRICE_RANGE : Q * Q).

(** X19. Toggling a category flips its membership in the selection and
    that of no other category, keeps the selection free of repetitions
    and the other filters as they are; toggling it twice gives the
    selection its members back. *)
Theorem toggle_category state c :
  let toggled := filterReducer PRICE_RANGE state (TOGGLE_CATEGORY c) in
  (c ∈ categories toggled ↔ c ∉ categories state) ∧
  (∀ d, d ≠ c → d ∈ categories toggled ↔ d ∈ categories state) ∧
  (NoDup (categories state) → NoDup (categories toggled)) ∧
  (∀ d, d ∈ categories (filterReducer PRICE_RANGE toggled (TOGGLE_CATEGORY c))
        ↔ d ∈ categories state) ∧
  toggled
  = filterReducer PRICE_RANGE state (SET_CATEGORIES (categories toggled)).
Proof.
  assert (∀ s : list ProductCategory,
            let s' := if JSSet.has s c then JSSet.delete s c
                      else JSSet.add s c in
            (c ∈ s' ↔ c ∉ s) ∧ (∀ d, d ≠ c → d ∈ s' ↔ d ∈ s)) as Hflip.
  { intros s. cbv zeta. unfold JSSet.has. case_bool_decide as Hc.
    - split; [|intros d Hd]; rewrite JSSetFacts.elem_of_delete; tauto.
    - split; [|intros d Hd]; rewrite JSSetFacts.elem_of_add; tauto. }
  cbv zeta. cbn [filterReducer categories].
  destruct (Hflip (categories state)) as [Hc Hd].
  split; [exact Hc|]. split; [exact Hd|]. split; [|split; [|done]].
  - intros Hn. destruct (JSSet.has _ _);
      [by apply JSSetFacts.NoDup_delete|by apply JSSetFacts.NoDup_add].
  - intros d.
    destruct (Hflip (if JSSet.has (categories state) c
                     then JSSet.delete (categories state) c
                     else JSSet.add (categories state) c)) as [Hc' Hd'].
    destruct (decide (d = c)) as [->|Hne].
    + rewrite Hc', Hc. destruct (decide (c ∈ categories state)); tauto.
    + by rewrite Hd', Hd.
Qed.

(** X20. Filters count as active exactly when a category is selected,
    the price range is narrower than [PRICE_RANGE] on a side, the
    minimum rating is above 0, or the stock or the organic filter is
    set; after [CLEAR_ALL] none is active; and the total counts the
    selected categories and at most four more. *)
Theorem hasActiveFilters_iff state :
  (hasActiveFilters PRICE_RANGE state = true
   ↔ categories state ≠ [] ∨
     (PRICE_RANGE.1 < priceRangeMin state)%Q ∨
     (priceRangeMax state < PRICE_RANGE.2)%Q ∨
     (0 < minRating state)%Q ∨
     inStock state ≠ None ∨ organic state ≠ None) ∧
  hasActiveFilters PRICE_RANGE (filterReducer PRICE_RANGE state CLEAR_ALL)
  = false ∧
  Z.of_nat (length (categories state))
  ≤ total (getActiveFilterCount PRICE_RANGE state)
  ≤ Z.of_nat (length (categories state)) + 4.
Proof.
  split; [|split].
  - unfold hasActiveFilters. rewrite bool_decide_eq_true.
    cbn [getActiveFilterCount total].
    rewrite <- !lt_true_iff.
    assert (categories state ≠ [] ↔ 0 < Z.of_nat (length (categories state)))
      as -> by (destruct (categories state); cbn [length]; split; (done || lia)).
    destruct (JS.lt PRICE_RANGE.1 (priceRangeMin state)),
      (JS.lt (priceRangeMax state) PRICE_RANGE.2),
      (JS.lt 0 (minRating state)); cbn [orb];
      repeat case_bool_decide; intuition (try lia; try congruence).
  - unfold hasActiveFilters. apply bool_decide_eq_false.
    cbn [filterReducer getActiveFilterCount total EMPTY_FILTER_STATE
           categories priceRangeMin priceRangeMax minRating inStock organic
           length].
    assert (JS.lt PRICE_RANGE.1 PRICE_RANGE.1 = false) as ->
      by (apply lt_false_iff, Qle_refl).
    assert (JS.lt PRICE_RANGE.2 PRICE_RANGE.2 = false) as ->
      by (apply lt_false_iff, Qle_refl).
    assert (JS.lt 0 0 = false) as -> by done.
    rewrite !bool_decide_eq_false_2 by (intros H; by apply H). cbn. lia.
  - cbn [getActiveFilterCount total].
    destruct (_ || _), (JS.lt 0 _), (bool_decide (inStock state ≠ None)),
      (bool_decide (organic state ≠ None)); lia.
Qed.
End FilterStateFacts.

(** ** Recent searches *)

Section RecentSearchesFacts.
Import RecentSearches.
Context {runtime : Runtime}.

Lemma addSearch_unfold now newQuery count prevSearches :
  JS.trim newQuery ≠ [] →
  addSearch now newQuery count prevSearches
  = take 5
      ({| query := JS.trim newQuery; timestamp := now; resultCount := count |}
       :: List.filter
            (λ search,
               negb (bool_decide
                       (toLowerCase (query search) = toLowerCase newQuery)))
            prevSearches).
Proof.
  intros Hq. unfold addSearch. rewrite bool_decide_eq_false_2 by done.
  by rewrite SliceFacts.slice_prefix.
Qed.

(** X21. [addSearch] ignores a blank query; for any other it puts the
    trimmed query first, keeps the earlier searches it does not drop in
    their order, and never keeps more than five. *)
Theorem addSearch_bounded now newQuery count prevSearches :
  let result := addSearch now newQuery count prevSearches in
  (JS.trim newQuery = [] → result = prevSearches) ∧
  (JS.trim newQuery ≠ [] →
     (length result ≤ 5)%nat ∧
     ∃ rest,
       result
       = {| query := JS.trim newQuery; timestamp := now;
            resultCount := count |} :: rest ∧
       rest `sublist_of` prevSearches).
Proof.
  cbv zeta. split.
  - intros E. unfold addSearch. by rewrite bool_decide_eq_true_2.
  - intros Hq. rewrite addSearch_unfold by done.
    split; [rewrite length_take; lia|].
    cbn [take]. eexists. split; [reflexivity|].
    etransitivity; [apply sublist_take|apply filter_sublist].
Qed.

(** X22. When the query comes trimmed, [addSearch] keeps the history free
    of repetitions up to case: if no two earlier searches have the same
    lowercase query, no two have afterwards. *)
Theorem addSearch_no_duplicates now newQuery count prevSearches :
  JS.trim newQuery = newQuery →
  NoDup ((λ search, toLowerCase (query search)) <$> prevSearches) →
  NoDup ((λ search, toLowerCase (query search))
           <$> addSearch now newQuery count prevSearches).
Proof.
  intros Ht Hn. destruct (decide (JS.trim newQuery = [])) as [E|E].
  - unfold addSearch. by rewrite bool_decide_eq_true_2.
  - rewrite addSearch_unfold by done. rewrite Ht.
    eapply sublist_NoDup; [|apply fmap_sublist, sublist_take].
    cbn [fmap list_fmap query]. apply NoDup_cons. split.
    + intros (search & Hkey & Hin)%list_elem_of_fmap.
      apply list_elem_of_In, filter_In in Hin as [_ Hne].
      apply negb_true_iff, bool_decide_eq_false in Hne. by rewrite Hkey in Hne.
    + eapply sublist_NoDup; [exact Hn|apply fmap_sublist, filter_sublist].
Qed.
Lemma filter_fixed {A} (f : A → bool) l :
  Forall (λ x, f x = true) l → List.filter f l = l.
Proof.
  induction 1 as [|x l Hx _ IH]; [reflexivity|].
  cbn [List.filter]. by rewrite Hx, IH.
Qed.

(** X23. Removing a search that was just added, its query having no
    white space at its ends, leaves the four most recent of the other
    earlier searches; [removeSearch] leaves no search of that query up
    to case, and removing twice is removing once. *)
Theorem removeSearch_after_addSearch now newQuery count prevSearches :
  JS.trim newQuery = newQuery → newQuery ≠ [] →
  removeSearch newQuery (addSearch now newQuery count prevSearches)
  = take 4 (removeSearch newQuery prevSearches) ∧
  Forall (λ search, toLowerCase (query search) ≠ toLowerCase newQuery)
    (removeSearch newQuery prevSearches) ∧
  removeSearch newQuery (removeSearch newQuery prevSearches)
  = removeSearch newQuery prevSearches.
Proof.
  intros Ht Hq.
  assert (Forall (λ search,
                    negb (bool_decide (toLowerCase (query search)
                                       = toLowerCase newQuery)) = true)
            (removeSearch newQuery prevSearches)) as Hall.
  { apply Forall_forall. intros search Hin.
    by apply list_elem_of_In, filter_In in Hin as [_ Hin]. }
  split; [|split].
  - rewrite addSearch_unfold by (by rewrite Ht).
    change 5%nat with (S 4). cbn [take]. unfold removeSearch at 1.
    cbn [List.filter query]. rewrite Ht.
    rewrite bool_decide_eq_true_2 by done. cbn [negb].
    apply filter_fixed, Forall_take, Hall.
  - eapply Forall_impl; [exact Hall|]. intros search Hne.
    by apply negb_true_iff, bool_decide_eq_false in Hne.
  - apply filter_fixed, Hall.
Qed.
End RecentSearchesFacts.

(** ** Keyboard navigation *)

Section NavigationFacts.
Import KeyboardNavigation.

Lemma press_ArrowDown options activeIndex :
  isEnabled options = true → itemCount options ≠ 0 →
  press options (js "ArrowDown") activeIndex
  = if itemCount options - 1 <=? activeIndex
    then if circular options then 0 else itemCount options - 1
    else activeIndex + 1.
Proof.
  intros He Hn. unfold press, handleKeyDown. rewrite He.
  rewrite bool_decide_eq_false_2 by done. reflexivity.
Qed.

Lemma press_ArrowUp options activeIndex :
  isEnabled options = true → itemCount options ≠ 0 →
  press options (js "ArrowUp") activeIndex
  = if activeIndex <=? 0
    then if circular options then itemCount options - 1 else 0
    else activeIndex - 1.
Proof.
  intros He Hn. unfold press, handleKeyDown. rewrite He.
  rewrite bool_decide_eq_false_2 by done. reflexivity.
Qed.

(** X24. With an active index between -1 and the last item, every key
    leaves it there; a key press selects no item but the active one,
    and only when that is an item of the list; disabled or without
    items the handler does nothing. *)
Theorem handleKeyDown_in_range options key activeIndex :
  0 ≤ itemCount options →
  -1 ≤ activeIndex < itemCount options →
  -1 ≤ press options key activeIndex < itemCount options ∧
  (∀ index, select index ∈ (handleKeyDown options key activeIndex).2 →
     index = activeIndex ∧ 0 ≤ index < itemCount options ∧
     key = js "Enter") ∧
  (isEnabled options = false ∨ itemCount options = 0 →
     handleKeyDown options key activeIndex = (activeIndex, [])).
Proof.
  intros Hn Hi. unfold press, handleKeyDown.
  destruct (isEnabled options); cbn [negb orb];
    [|split; [cbn; lia|split; [intros ? []%elem_of_nil|done]]].
  case_bool_decide as Hz;
    [split; [cbn; lia|split; [intros ? []%elem_of_nil|done]]|].
  split; [|split; [|by intros [|]]].
  - repeat case_bool_decide; cbn [fst];
      repeat match goal with
             | |- context [if ?c then _ else _] => destruct c eqn:?
             end; cbn [fst]; lia.
  - intros index.
    repeat case_bool_decide;
      repeat match goal with
             | |- context [if ?c then _ else _] => destruct c eqn:?
             end;
      cbn [snd]; rewrite ?elem_of_cons, ?elem_of_nil; intros Hin;
      try (exfalso; intuition discriminate).
    destruct Hin as [Hin|[[= ->]|[]]]; [discriminate|].
    repeat match goal with
           | H : _ && _ = true |- _ => apply andb_true_iff in H as [? ?]
           end.
    split; [done|]. split; [lia|done].
Qed.

(** X25. Circular navigation is a cycle: from an item, [k] presses of
    ArrowDown move [k] items forward modulo the number of items, and
    ArrowUp undoes ArrowDown. *)
Theorem circular_navigation options index k :
  isEnabled options = true → circular options = true →
  0 ≤ index < itemCount options →
  Nat.iter k (press options (js "ArrowDown")) index
  = (index + Z.of_nat k) mod itemCount options ∧
  press options (js "ArrowUp") (press options (js "ArrowDown") index)
  = index.
Proof.
  intros He Hc Hi.
  assert (itemCount options ≠ 0) as Hn by lia.
  assert (∀ j, 0 ≤ j < itemCount options →
               press options (js "ArrowDown") j
               = (j + 1) mod itemCount options) as Hdown.
  { intros j Hj. rewrite press_ArrowDown, Hc by done.
    destruct (Z.leb_spec (itemCount options - 1) j).
    - replace (j + 1) with (itemCount options) by lia.
      by rewrite Z.mod_same.
    - rewrite Z.mod_small; lia. }
  split.
  - induction k as [|k IH].
    + change (Nat.iter 0 ?f ?x) with x. rewrite Z.add_0_r, Z.mod_small; lia.
    + rewrite Nat.iter_succ, IH, Hdown by (apply Z.mod_pos_bound; lia).
      rewrite Z.add_mod_idemp_l by done. f_equal. lia.
  - rewrite press_ArrowUp, Hc by done. rewrite press_ArrowDown, Hc by done.
    destruct (Z.leb_spec (itemCount options - 1) index).
    + cbn. lia.
    + destruct (Z.leb_spec (index + 1) 0); lia.
Qed.
End NavigationFacts.

(** ** The numbers of the URL *)

Section NumberFacts.
Context (numberToString : Q → jsstring).
Context (stringToNumber : jsstring → JSNumber.t).

(** What [get] answers for the three numbers on the parameters the
    client builds. *)
Lemma buildSearchURL_get_numbers query filters :
  let searchParams := Filters.buildSearchURL numberToString query filters in
  URLSearchParams.get searchParams (js "minPrice")
  = (if JS.lt 0 (Filters.priceRangeMin filters)
     then Some (numberToString (Filters.priceRangeMin filters)) else None) ∧
  URLSearchParams.get searchParams (js "maxPrice")
  = (if JS.lt (Filters.priceRangeMax filters) 5000
     then Some (numberToString (Filters.priceRangeMax filters)) else None) ∧
  URLSearchParams.get searchParams (js "minRating")
  = (if JS.lt 0 (Filters.minRating filters)
     then Some (numberToString (Filters.minRating filters)) else None).
Proof.
  cbv zeta. unfold Filters.buildSearchURL. cbv zeta.
  split; [|split]; skip_other_names.
  - destruct (JS.lt 0 (Filters.priceRangeMin filters));
      [|by skip_other_names].
    rewrite URLFacts.get_append_new; [done|]. by skip_other_names.
  - destruct (JS.lt (Filters.priceRangeMax filters) 5000);
      [|by skip_other_names].
    rewrite URLFacts.get_append_new; [done|]. by skip_other_names.
  - destruct (JS.lt 0 (Filters.minRating filters));
      [|by skip_other_names].
    rewrite URLFacts.get_append_new; [done|]. by skip_other_names.
Qed.

Lemma positive_not_zero x : JS.lt 0 x = true → Qeq_bool x 0 = false.
Proof.
  intros H%lt_true_iff. apply not_true_is_false. intros E%Qeq_bool_iff.
  rewrite E in H. by apply Qlt_irrefl in H.
Qed.

(** X26. When the runtime reads back the numbers it printed, the
    handler reads from the client's URL: as minimum price the client's
    if it is above 0, else 0; as maximum price the client's if it is
    below 5000 and not 0, else 5000; as minimum rating the client's if
    it is above 0, else 0.  The three are finite, so the [params]
    object is in the embedding. *)
Theorem buildSearchURL_numbers query filters :
  stringToNumber (numberToString (Filters.priceRangeMin filters))
  = JSNumber.Finite (Filters.priceRangeMin filters) →
  stringToNumber (numberToString (Filters.priceRangeMax filters))
  = JSNumber.Finite (Filters.priceRangeMax filters) →
  stringToNumber (numberToString (Filters.minRating filters))
  = JSNumber.Finite (Filters.minRating filters) →
  let searchParams := Filters.buildSearchURL numberToString query filters in
  ParsedNumber.minPrice stringToNumber searchParams
  = JSNumber.Finite
      (if JS.lt 0 (Filters.priceRangeMin filters)
       then Filters.priceRangeMin filters else 0) ∧
  ParsedNumber.maxPrice stringToNumber searchParams
  = JSNumber.Finite
      (if JS.lt (Filters.priceRangeMax filters) 5000
          && negb (Qeq_bool (Filters.priceRangeMax filters) 0)
       then Filters.priceRangeMax filters else 5000) ∧
  ParsedNumber.minRating stringToNumber searchParams
  = JSNumber.Finite
      (if JS.lt 0 (Filters.minRating filters)
       then Filters.minRating filters else 0) ∧
  is_Some (parsedParams stringToNumber searchParams).
Proof.
  intros Hlow Hhigh Hstars searchParams.
  destruct (buildSearchURL_get_numbers query filters) as (Gl & Gh & Gs).
  fold searchParams in Gl, Gh, Gs.
  assert (ParsedNumber.minPrice stringToNumber searchParams
          = JSNumber.Finite
              (if JS.lt 0 (Filters.priceRangeMin filters)
               then Filters.priceRangeMin filters else 0)) as Hl.
  { unfold ParsedNumber.minPrice, JSNumber.numberOr. rewrite Gl.
    destruct (JS.lt 0 (Filters.priceRangeMin filters)) eqn:E; [|done].
    by rewrite Hlow, (positive_not_zero _ E). }
  assert (ParsedNumber.maxPrice stringToNumber searchParams
          = JSNumber.Finite
              (if JS.lt (Filters.priceRangeMax filters) 5000
                  && negb (Qeq_bool (Filters.priceRangeMax filters) 0)
               then Filters.priceRangeMax filters else 5000)) as Hh.
  { unfold ParsedNumber.maxPrice, JSNumber.numberOr. rewrite Gh.
    destruct (JS.lt (Filters.priceRangeMax filters) 5000) eqn:E; [|done].
    rewrite Hhigh. by destruct (Qeq_bool _ 0). }
  assert (ParsedNumber.minRating stringToNumber searchParams
          = JSNumber.Finite
              (if JS.lt 0 (Filters.minRating filters)
               then Filters.minRating filters else 0)) as Hs.
  { unfold ParsedNumber.minRating, JSNumber.numberOr. rewrite Gs.
    destruct (JS.lt 0 (Filters.minRating filters)) eqn:E; [|done].
    by rewrite Hstars, (positive_not_zero _ E). }
  split; [exact Hl|]. split; [exact Hh|]. split; [exact Hs|].
  unfold parsedParams. rewrite Hl, Hh, Hs. by eexists.
Qed.
End NumberFacts.

(** ** Filter tags *)

Section TagFacts.
Lemma length_delete {A} `{EqDecision A} (s : list A) x :
  NoDup s → x ∈ s → S (length (JSSet.delete s x)) = length s.
Proof.
  unfold JSSet.delete. induction 1 as [|y s Hy Hs IH]; [by intros ?%elem_of_nil|].
  intros [->|Hin]%elem_of_cons; cbn [List.filter length].
  - rewrite bool_decide_eq_true_2 by done. cbn [negb].
    rewrite filter_fixed; [done|]. apply Forall_forall. intros z Hz.
    apply negb_true_iff, bool_decide_eq_false. by intros ->.
  - rewrite bool_decide_eq_false_2 by (by intros ->). cbn [negb length].
    f_equal. by apply IH.
Qed.

Section WithPriceRange.
Context (PRICE_RANGE : Q * Q).

Lemma activeFilterTags_length filters :
  Z.of_nat (length (SearchInterface.activeFilterTags PRICE_RANGE filters))
  = Z.of_nat (length (Filters.categories filters))
    + (if JS.lt PRICE_RANGE.1 (Filters.priceRangeMin filters)
          || JS.lt (Filters.priceRangeMax filters) PRICE_RANGE.2
       then 1 else 0)
    + (if JS.lt 0 (Filters.minRating filters) then 1 else 0)
    + (if bool_decide (Filters.inStock filters = Some true) then 1 else 0)
    + (if bool_decide (Filters.organic filters = Some true) then 1 else 0).
Proof.
  unfold SearchInterface.activeFilterTags. cbv zeta.
  rewrite !length_app, length_fmap.
  destruct (_ || _), (JS.lt 0 _), (bool_decide (Filters.inStock _ = _)),
    (bool_decide (Filters.organic _ = _)); cbn [length]; lia.
Qed.

(** The tags, by type. *)
Lemma activeFilterTags_member filters tag :
  tag ∈ SearchInterface.activeFilterTags PRICE_RANGE filters →
  match FilterTag.type tag with
  | FilterTag.category =>
      ∃ c, c ∈ Filters.categories filters ∧
           FilterTag.onRemove tag = Filters.TOGGLE_CATEGORY c
  | FilterTag.price =>
      JS.lt PRICE_RANGE.1 (Filters.priceRangeMin filters)
      || JS.lt (Filters.priceRangeMax filters) PRICE_RANGE.2 = true ∧
      FilterTag.onRemove tag
      = Filters.SET_PRICE_RANGE PRICE_RANGE.1 PRICE_RANGE.2
  | FilterTag.rating =>
      JS.lt 0 (Filters.minRating filters) = true ∧
      FilterTag.onRemove tag = Filters.SET_MIN_RATING 0
  | FilterTag.stock =>
      Filters.inStock filters = Some true ∧
      FilterTag.onRemove tag = Filters.SET_IN_STOCK (Some false)
  | FilterTag.organic =>
      Filters.organic filters = Some true ∧
      FilterTag.onRemove tag = Filters.SET_ORGANIC (Some false)
  end.
Proof.
  unfold SearchInterface.activeFilterTags. cbv zeta.
  rewrite !elem_of_app, list_elem_of_fmap.
  intros [(c & -> & Hc)|[H|[H|[H|H]]]]; [by exists c|..].
  - destruct (_ || _); [|by apply elem_of_nil in H].
    by apply list_elem_of_singleton in H as ->.
  - destruct (JS.lt 0 _); [|by apply elem_of_nil in H].
    by apply list_elem_of_singleton in H as ->.
  - case_bool_decide; [|by apply elem_of_nil in H].
    by apply list_elem_of_singleton in H as ->.
  - case_bool_decide; [|by apply elem_of_nil in H].
    by apply list_elem_of_singleton in H as ->.
Qed.

(** X27. The tags shown are the active filters counted, but for a
    stock or organic filter set to [false], which is counted and has
    no tag.  Removing a tag (dispatching its [onRemove]) leaves one
    tag fewer; it leaves one active filter fewer for a category,
    price or rating tag, and as many as before for a stock or organic
    tag. *)
Theorem activeFilterTags_count filters :
  let tags := SearchInterface.activeFilterTags PRICE_RANGE filters in
  Z.of_nat (length tags)
  + (if bool_decide (Filters.inStock filters = Some false) then 1 else 0)
  + (if bool_decide (Filters.organic filters = Some false) then 1 else 0)
  = Filters.total (Filters.getActiveFilterCount PRICE_RANGE filters) ∧
  (NoDup (Filters.categories filters) →
   ∀ tag, tag ∈ tags →
     let removed :=
       Filters.filterReducer PRICE_RANGE filters (FilterTag.onRemove tag) in
     Z.of_nat
       (length (SearchInterface.activeFilterTags PRICE_RANGE removed))
     = Z.of_nat (length tags) - 1 ∧
     Filters.total (Filters.getActiveFilterCount PRICE_RANGE removed)
     = Filters.total (Filters.getActiveFilterCount PRICE_RANGE filters)
       - match FilterTag.type tag with
         | FilterTag.stock | FilterTag.organic => 0
         | _ => 1
         end).
Proof.
  cbv zeta. split.
  - rewrite activeFilterTags_length. cbn [Filters.getActiveFilterCount Filters.total].
    destruct (_ || _), (JS.lt 0 _), (Filters.inStock filters) as [[|]|],
      (Filters.organic filters) as [[|]|];
      repeat case_bool_decide; try congruence; lia.
  - intros Hnodup tag Hin%activeFilterTags_member.
    rewrite !activeFilterTags_length. cbn [Filters.getActiveFilterCount Filters.total].
    assert (JS.lt PRICE_RANGE.1 PRICE_RANGE.1 = false) as Hlow
      by (apply lt_false_iff, Qle_refl).
    assert (JS.lt PRICE_RANGE.2 PRICE_RANGE.2 = false) as Hhigh
      by (apply lt_false_iff, Qle_refl).
    destruct (FilterTag.type tag).
    + destruct Hin as (c & Hc & ->).
      cbn [Filters.filterReducer Filters.categories Filters.priceRangeMin Filters.priceRangeMax
             Filters.minRating Filters.inStock Filters.organic].
      unfold JSSet.has. rewrite bool_decide_eq_true_2 by done.
      pose proof (length_delete _ _ Hnodup Hc). lia.
    + destruct Hin as (Hp & ->).
      cbn [Filters.filterReducer Filters.categories Filters.priceRangeMin Filters.priceRangeMax
             Filters.minRating Filters.inStock Filters.organic].
      rewrite Hp, Hlow, Hhigh. cbn [orb]. lia.
    + destruct Hin as (Hr & ->).
      cbn [Filters.filterReducer Filters.categories Filters.priceRangeMin Filters.priceRangeMax
             Filters.minRating Filters.inStock Filters.organic].
      rewrite Hr. assert (JS.lt 0 0 = false) as -> by done. lia.
    + destruct Hin as (Hs & ->).
      cbn [Filters.filterReducer Filters.categories Filters.priceRangeMin Filters.priceRangeMax
             Filters.minRating Filters.inStock Filters.organic].
      rewrite Hs. rewrite (bool_decide_eq_true_2 (Some true = Some true))
        by done.
      rewrite (bool_decide_eq_false_2 (Some false = Some true)) by done.
      rewrite !(bool_decide_eq_true_2 (Some _ ≠ None)) by done. lia.
    + destruct Hin as (Ho & ->).
      cbn [Filters.filterReducer Filters.categories Filters.priceRangeMin Filters.priceRangeMax
             Filters.minRating Filters.inStock Filters.organic].
      rewrite Ho. rewrite (bool_decide_eq_true_2 (Some true = Some true))
        by done.
      rewrite (bool_decide_eq_false_2 (Some false = Some true)) by done.
      rewrite !(bool_decide_eq_true_2 (Some _ ≠ None)) by done. lia.
Qed.

(** X28. Removing the stock tag does not lift the stock filter, it
    turns it round: the filter stays counted as active, the URL then
    built asks for [inStock=false], and the route serves only
    products that are out of stock.  Likewise the organic tag: what is
    then served is flour that is not organic. *)
Theorem tag_removal_inverts_flag numberToString stringToNumber
    filters query tag catalog params :
  tag ∈ SearchInterface.activeFilterTags PRICE_RANGE filters →
  parsedParams stringToNumber
    (Filters.buildSearchURL numberToString query
       (Filters.filterReducer PRICE_RANGE filters (FilterTag.onRemove tag)))
  = Some params →
  let removed :=
    Filters.filterReducer PRICE_RANGE filters (FilterTag.onRemove tag) in
  (FilterTag.type tag = FilterTag.stock →
     Filters.hasStockFilter (Filters.getActiveFilterCount PRICE_RANGE removed) = true ∧
     inStockParam params = Some false ∧
     ∀ product, product ∈ applyFilters catalog params →
                inStock (base product) = false) ∧
  (FilterTag.type tag = FilterTag.organic →
     Filters.hasOrganicFilter (Filters.getActiveFilterCount PRICE_RANGE removed) = true ∧
     organicParam params = Some false ∧
     ∀ product, product ∈ applyFilters catalog params →
                ∃ b proteinContent,
                  product = FlourProduct b proteinContent false).
Proof.
  intros Hin%activeFilterTags_member Hparams. cbv zeta.
  set (removed :=
         Filters.filterReducer PRICE_RANGE filters (FilterTag.onRemove tag))
    in *.
  destruct (buildSearchURL_get numberToString query removed)
    as (_ & _ & Hs & Ho & _).
  apply flag_of_value in Hs, Ho.
  assert (inStockParam params = Filters.inStock removed ∧
          organicParam params = Filters.organic removed) as [Ps Po].
  { unfold parsedParams in Hparams.
    repeat match type of Hparams with
           | context [match ?x with _ => _ end] =>
               destruct x; try discriminate
           end.
    injection Hparams as <-. by cbn [inStockParam organicParam]. }
  split; intros Htype; rewrite Htype in Hin; destruct Hin as (_ & Hact);
    subst removed; rewrite Hact in *;
    cbn [Filters.filterReducer Filters.getActiveFilterCount
           Filters.hasStockFilter Filters.hasOrganicFilter
           Filters.inStock Filters.organic] in *;
    (split; [done|]); (split; [done|]);
    intros product (_ & Hrule)%applyFilters_member;
    destruct Hrule as (_ & _ & _ & _ & Hstock & Horganic).
  - by apply Hstock.
  - by apply Horganic.
Qed.
End WithPriceRange.
End TagFacts.

(** ** Sorting in the interface *)

Section SortingFacts.
Context {runtime : Runtime}.

Lemma byPrice_key x y :
  (0 < SearchInterface.byPriceDescending x y)%Q ↔ (priceOf x < priceOf y)%Q.
Proof.
  unfold SearchInterface.byPriceDescending, priceOf, Qminus. symmetry.
  apply Qlt_minus_iff.
Qed.

Lemma byPriceAscending_key x y :
  (0 < SearchInterface.byPriceAscending x y)%Q
  ↔ (- priceOf x < - priceOf y)%Q.
Proof.
  unfold SearchInterface.byPriceAscending, priceOf, Qminus.
  split; intros H.
  - apply Qopp_lt_compat.
    by apply (proj2 (Qlt_minus_iff (price (base y)) (price (base x)))).
  - apply (proj1 (Qlt_minus_iff (price (base y)) (price (base x)))).
    apply Qopp_lt_compat in H. by rewrite !Qopp_involutive in H.
Qed.

Lemma descending_opposite (l : list BakeryProduct) :
  StronglySorted (descendingQ (λ product, - priceOf product)%Q) l →
  StronglySorted (ascendingQ priceOf) l.
Proof.
  induction 1 as [|x l Hl IH Hx]; constructor; [exact IH|].
  eapply Forall_impl; [exact Hx|]. unfold descendingQ, ascendingQ.
  intros y Hy. apply Qopp_le_compat in Hy. by rewrite !Qopp_involutive in Hy.
Qed.

(** X29. Whatever the sort option, the interface shows the products it
    was served, rearranged: by price going up, by price going down, by
    rating going down, or as served.  Products served for a blank query
    come sorted by rating, so the rating option leaves them as they
    are. *)
Theorem sortedProducts_sorted products sortBy :
  let sorted := SearchInterface.sortedProducts products sortBy in
  sorted ≡ₚ products ∧
  match sortBy with
  | SortOption.price_asc => StronglySorted (ascendingQ priceOf) sorted
  | SortOption.price_desc => StronglySorted (descendingQ priceOf) sorted
  | SortOption.rating => StronglySorted (descendingQ ratingOf) sorted
  | SortOption.relevance => sorted = products
  end ∧
  (∀ fuel catalog params,
     JS.trim (q params) = [] →
     finalResults fuel catalog params = Some products →
     SearchInterface.sortedProducts products SortOption.rating = products).
Proof.
  cbv zeta. unfold SearchInterface.sortedProducts.
  split; [|split].
  - case_bool_decide; [done|].
    destruct sortBy; [done|apply RatingSortFacts.sort_permutation..].
  - case_bool_decide as Hempty.
    + apply length_zero_iff_nil in Hempty as ->.
      destruct sortBy; (done || constructor).
    + destruct sortBy; [done|..].
      * apply descending_opposite.
        apply (RatingSortFacts.sort_sortedQ _ _ byPriceAscending_key).
      * apply (RatingSortFacts.sort_sortedQ _ _ byPrice_key).
      * apply (RatingSortFacts.sort_sortedQ _ _ byRating_key).
  - intros fuel catalog params Hblank Hrun.
    unfold finalResults in Hrun. rewrite bool_decide_eq_true_2 in Hrun by done.
    cbn [negb] in Hrun. injection Hrun as <-.
    case_bool_decide; [done|].
    apply (RatingSortFacts.sort_fixed _ _ byRating_key).
    apply (RatingSortFacts.sort_sortedQ _ _ byRating_key).
Qed.
End SortingFacts.

(** ** The data helpers *)

Section DataFacts.
Import ProductData.

Lemma mathMin_spec values m :
  mathMin values = Some m → m ∈ values ∧ Forall (λ x, (m <= x)%Q) values.
Proof.
  revert m. induction values as [|x rest IH]; [done|]. intros m.
  cbn [mathMin]. destruct (mathMin rest) as [m'|] eqn:E.
  - destruct (IH m' eq_refl) as [Hin Hall]. intros [= <-].
    destruct (Qlt_le_dec m' x) as [Hlt|Hle].
    + split; [by right|]. constructor; [by apply Qlt_le_weak|exact Hall].
    + split; [by left|]. constructor; [apply Qle_refl|].
      eapply Forall_impl; [exact Hall|]. intros y Hy. cbv beta in Hy.
      eapply Qle_trans; eassumption.
  - intros [= <-]. destruct rest; [|cbn in E; by destruct (mathMin rest)].
    split; [by left|]. constructor; [apply Qle_refl|constructor].
Qed.

Lemma mathMax_spec values m :
  mathMax values = Some m → m ∈ values ∧ Forall (λ x, (x <= m)%Q) values.
Proof.
  revert m. induction values as [|x rest IH]; [done|]. intros m.
  cbn [mathMax]. destruct (mathMax rest) as [m'|] eqn:E.
  - destruct (IH m' eq_refl) as [Hin Hall]. intros [= <-].
    destruct (Qlt_le_dec x m') as [Hlt|Hle].
    + split; [by right|]. constructor; [by apply Qlt_le_weak|exact Hall].
    + split; [by left|]. constructor; [apply Qle_refl|].
      eapply Forall_impl; [exact Hall|]. intros y Hy. cbv beta in Hy.
      eapply Qle_trans; eassumption.
  - intros [= <-]. destruct rest; [|cbn in E; by destruct (mathMax rest)].
    split; [by left|]. constructor; [apply Qle_refl|constructor].
Qed.

Lemma filter_partition {A} (f : A → bool) l :
  (length (List.filter f l) + length (List.filter (λ x, negb (f x)) l))%nat
  = length l.
Proof.
  induction l as [|x l IH]; [done|]. cbn [List.filter].
  destruct (f x); cbn [negb length]; lia.
Qed.

(** X30. For a catalog that is not empty [PRICE_RANGE] exists, its
    bounds are whole numbers, the price of every product lies between
    them, and [getProductsByPriceRange] on them answers the whole
    catalog.  The three facet counts add up to the size of the catalog,
    as do the counts of products in and out of stock, and
    [getProductCount] counts what [getProductsByCategory] lists. *)
Theorem PRICE_RANGE_covers catalog :
  (catalog ≠ [] → is_Some (PRICE_RANGE catalog)) ∧
  (∀ range, PRICE_RANGE catalog = Some range →
     (∃ low high, range = (inject_Z low, inject_Z high)) ∧
     (∀ product, product ∈ catalog →
        (range.1 <= price (base product))%Q ∧
        (price (base product) <= range.2)%Q) ∧
     getProductsByPriceRange catalog range.1 range.2 = catalog) ∧
  getProductCount catalog flour + getProductCount catalog banneton
  + getProductCount catalog oven = stockTotal catalog ∧
  stockInStock catalog + stockOutOfStock catalog = stockTotal catalog ∧
  ∀ wanted,
    getProductCount catalog wanted
    = Z.of_nat (length (getProductsByCategory catalog wanted)).
Proof.
  assert (∀ wanted,
            getProductCount catalog wanted
            = Z.of_nat (length (getProductsByCategory catalog wanted)))
    as Hcount by (by intros []).
  split; [|split; [|split; [|split]]].
  - destruct catalog as [|product rest]; [done|]. intros _.
    unfold PRICE_RANGE. cbn [fmap list_fmap mathMin mathMax].
    destruct (mathMin _), (mathMax _); by eexists.
  - intros range. unfold PRICE_RANGE.
    destruct (mathMin _) as [low|] eqn:Hlow; [|done].
    destruct (mathMax _) as [high|] eqn:Hhigh; [|done].
    intros [= <-]. cbn [fst snd].
    apply mathMin_spec in Hlow as [_ Hlow].
    apply mathMax_spec in Hhigh as [_ Hhigh].
    rewrite Forall_fmap in Hlow, Hhigh.
    assert (∀ product, product ∈ catalog →
              (inject_Z (Qfloor low) <= price (base product))%Q ∧
              (price (base product) <= inject_Z (Qceiling high))%Q) as Hin.
    { intros product Hp. split.
      - eapply Qle_trans; [apply Qfloor_le|].
        by apply (proj1 (Forall_forall _ _) Hlow).
      - eapply Qle_trans; [|apply Qle_ceiling].
        by apply (proj1 (Forall_forall _ _) Hhigh). }
    split; [by eexists _, _|]. split; [exact Hin|].
    apply filter_fixed, Forall_forall. intros product Hp.
    destruct (Hin product Hp) as [H1 H2].
    unfold JS.ge. apply andb_true_iff. by rewrite !Qle_bool_iff.
  - rewrite !Hcount. clear Hcount.
    unfold getProductsByCategory, stockTotal.
    induction catalog as [|product rest IH]; [done|].
    cbn [List.filter].
    destruct product; cbn [category];
      repeat case_bool_decide; try congruence; cbn [length]; lia.
  - unfold stockInStock, stockOutOfStock, stockTotal.
    rewrite <- (filter_partition (λ p, inStock (base p)) catalog). lia.
  - exact Hcount.
Qed.
End DataFacts.

(** ** The route on the sample data

    From here on the runtime is the excerpt of the Unicode tables. *)

#[local] Existing Instance unicodeExcerpt.

(** C3, at an input: [findMatches("Artisan Bread Flour", "   ")] is still
    recursing after 1000 calls. *)
Lemma findMatches_blank_query_witness :
  normalizeString (js "   ") = [] ∧
  findMatches 1000 (js "Artisan Bread Flour") (js "   ") = None.
Proof.
  split; [reflexivity|].
  apply findMatches_blank_query_never_returns. reflexivity.
Defined.

(** C10, at an input: the one span of "bread" in "Artisan Bread Flour". *)
Lemma findMatches_spans_witness :
  normalizeString (js "bread") ≠ [] ∧
  Forall (validSpan 19 5) [(8, 13)] ∧ StronglySorted Z.lt [(8, 13)].*1.
Proof.
  assert (normalizeString (js "bread") ≠ []) as Hq by by vm_compute.
  split; [exact Hq|].
  apply (proj2 (findMatches_spans (js "Artisan Bread Flour") (js "bread") Hq)
           30%nat).
  vm_compute. reflexivity.
Defined.

(** C9, counterexample: once the grapheme joiner is stripped, the two
    marks it kept apart are out of canonical order, and the second
    normalisation reorders them. *)
Lemma normalizeString_not_idempotent :
  normalizeString Sample.joined = [97; 1425; 1456]%N ∧
  normalizeString (normalizeString Sample.joined) = [97; 1456; 1425]%N ∧
  normalizeString (normalizeString Sample.joined)
  ≠ normalizeString Sample.joined.
Proof. split; [reflexivity|]. split; [reflexivity|]. by vm_compute. Qed.

(** C9 as amended, at an input: " Café " normalises to "cafe", which
    lowercasing and decomposition leave alone. *)
Lemma normalizeString_idempotent_witness :
  toLowerCase (normalizeString Sample.cafe) = normalizeString Sample.cafe ∧
  normalizeNFD (normalizeString Sample.cafe) = normalizeString Sample.cafe ∧
  normalizeString (normalizeString Sample.cafe) = js "cafe".
Proof.
  assert (toLowerCase (normalizeString Sample.cafe) = normalizeString Sample.cafe)
    as Hlower by reflexivity.
  assert (normalizeNFD (normalizeString Sample.cafe) = normalizeString Sample.cafe)
    as Hnfd by reflexivity.
  split; [exact Hlower|]. split; [exact Hnfd|].
  rewrite (normalizeString_idempotent_on_stable_output Sample.cafe Hlower Hnfd).
  reflexivity.
Defined.

(** C7, at the input of the specification: the query "12% protein"
    against a flour product with protein content 11.5.  The difference
    the code computes is one half, exactly. *)
Lemma flour_bonus_witness :
  proteinOccurrence (js "12% protein") [] (js "12") ∧
  Qabs <$> (JS.parseInt (js "12") ≫= JS.subtract (23 # 2)) = Some (1 # 2) ∧
  scoreComponents Sample.flourProduct (js "12% protein") !! 4%nat = Some 10.
Proof.
  assert (proteinOccurrence (js "12% protein") [] (js "12")) as Ho.
  { exists [37%N], [32%N], (js "protein"), [].
    split; [reflexivity|]. split; [done|].
    split; [by repeat constructor|]. split; [by right|].
    split; [by repeat constructor|].
    unfold isProteinWord. vm_compute (js "protein").
    repeat (constructor; [by left|]). constructor. }
  assert (Qabs <$> (JS.parseInt (js "12") ≫= JS.subtract (23 # 2))
          = Some (1 # 2)) as Hdiff by reflexivity.
  split; [exact Ho|]. split; [exact Hdiff|].
  refine (proj1 (proj2 (proj2 (proj2 (proj2
            (flour_bonus_of_protein_query _ (23 # 2) true _ _ _ Ho _))))
            (1 # 2) Hdiff _) _).
  - intros before' digits' _. simpl. lia.
  - reflexivity.
  - by vm_compute.
Defined.

(** The rounding of the code, at two inputs.  The double next below 1
    against "2 protein": the exact difference is above 1, the double
    difference is 1, and the bonus is granted.  The digits
    9007199254740995 are parsed as 9007199254740996, which is 2 away
    from 9007199254740994: no bonus. *)
Example flourBonus_rounds_the_difference :
  flourBonus (9007199254740991 # 9007199254740992) (js "2 protein") = 10 ∧
  ¬ (Qabs ((9007199254740991 # 9007199254740992) - 2) <= 1)%Q.
Proof. split; [reflexivity|by vm_compute]. Qed.

Example flourBonus_rounds_the_digits :
  flourBonus 9007199254740994 (js "9007199254740995 protein") = 0 ∧
  (Qabs (9007199254740994 - 9007199254740995) <= 1)%Q.
Proof. split; [reflexivity|by vm_compute]. Qed.

(** [roundToDouble] at a few rationals: one tenth, the odd integer
    past [2 ^ 53] (a tie, to the even significand), half the least
    double (a tie, to 0), and the least rational that is rounded to an
    infinity. *)
Example roundToDouble_samples :
  JS.roundToDouble (1 # 10)
  = Some (3602879701896397 # 36028797018963968) ∧
  JS.roundToDouble 9007199254740993 = Some 9007199254740992%Q ∧
  JS.roundToDouble (1 # Z.to_pos (2 ^ 1075)) = Some 0%Q ∧
  JS.roundToDouble (inject_Z (2 ^ 1024 - 2 ^ 970)) = None ∧
  JS.roundToDouble (inject_Z (2 ^ 1024 - 2 ^ 970 - 1))
  = Some (inject_Z ((2 ^ 53 - 1) * 2 ^ 971)).
Proof. repeat split; vm_compute; reflexivity. Qed.

(** C4, at an input: the sample catalog under the query "bread". *)
Lemma finalResults_sorted_witness :
  JS.trim (q Sample.params) ≠ [] ∧
  StronglySorted
    (descending (λ product, calculateRelevanceScore product (q Sample.params)))
    [Sample.flourProduct; Sample.bannetonProduct; Sample.ovenProduct].
Proof.
  assert (JS.trim (q Sample.params) ≠ []) as Hq by by vm_compute.
  split; [exact Hq|].
  apply (proj1 (finalResults_sorted_by_score Sample.catalog Sample.params Hq)
           30%nat).
  vm_compute. reflexivity.
Defined.

(** C5, at an input: the same run, and the score of its last product. *)
Lemma finalResults_scores_positive_witness :
  JS.trim (q Sample.params) ≠ [] ∧
  0 < calculateRelevanceScore Sample.ovenProduct (q Sample.params).
Proof.
  assert (JS.trim (q Sample.params) ≠ []) as Hq by by vm_compute.
  split; [exact Hq|].
  apply (proj1 (finalResults_scores_positive Sample.catalog Sample.params Hq)
           30%nat
           [Sample.flourProduct; Sample.bannetonProduct; Sample.ovenProduct]).
  - vm_compute. reflexivity.
  - set_solver.
Defined.

(** ** The excerpt on Basic Latin

    On ASCII strings the built-ins of the excerpt are the plain ones:
    decomposition and ordering do nothing, lowercasing is idempotent.  The
    condition of the amended C9 is met there, so the normaliser is
    idempotent on every ASCII string. *)

Module UnicodeFacts.
Lemma decompose_ascii c : (c < 128)%N → Unicode.decompose c = [c].
Proof.
  intros Hc. unfold Unicode.decompose.
  destruct (list_find _ _) as [[i e]|] eqn:E; [|done].
  apply list_find_Some in E as (Hi & He & _).
  assert (Forall (λ e, (192 ≤ e.1)%N) Unicode.decompositionTable) as Htable
    by (repeat constructor; by vm_compute).
  rewrite Forall_lookup in Htable. specialize (Htable _ _ Hi). lia.
Qed.

Lemma combiningClass_ascii c : (c < 128)%N → Unicode.combiningClass c = 0%N.
Proof.
  intros Hc. unfold Unicode.combiningClass.
  destruct (list_find _ _) as [[i r]|] eqn:E; [|done].
  apply list_find_Some in E as (Hi & Hr & _).
  assert (Forall (λ r, (768 ≤ r.1.1)%N) Unicode.combiningClassTable) as Htable
    by (repeat constructor; by vm_compute).
  rewrite Forall_lookup in Htable. specialize (Htable _ _ Hi). lia.
Qed.

Lemma canonicalOrder_ascii s : isASCII s → Unicode.canonicalOrder s = s.
Proof.
  unfold Unicode.canonicalOrder. induction 1 as [|c s Hc Hs IH]; [done|].
  cbn [foldr]. rewrite IH. destruct s as [|d s]; [done|].
  cbn [Unicode.reorderInsert]. rewrite (combiningClass_ascii c Hc).
  destruct (decide _) as [[_ ?]|_]; [lia|done].
Qed.

Lemma normalizeNFD_ascii s : isASCII s → Unicode.normalizeNFD s = s.
Proof.
  intros Hs. unfold Unicode.normalizeNFD.
  assert (s ≫= Unicode.decompose = s) as ->; [|by apply canonicalOrder_ascii].
  induction Hs as [|c s Hc _ IH]; [done|].
  cbn [mbind list_bind]. by rewrite decompose_ascii, IH.
Qed.

Lemma toLowerCaseUnit_cases c :
  (c < 192)%N →
  (Unicode.toLowerCaseUnit c = c + 32 ∧ 65 ≤ c ≤ 90)%N ∨
  (Unicode.toLowerCaseUnit c = c ∧ (c < 65 ∨ 90 < c))%N.
Proof.
  intros Hc. unfold Unicode.toLowerCaseUnit.
  destruct (N.leb_spec 65 c), (N.leb_spec c 90), (N.leb_spec 192 c);
    cbn [andb orb]; try lia;
    (left; split; [reflexivity|lia]) || (right; split; [reflexivity|lia]).
Qed.

Lemma toLowerCaseUnit_ascii c :
  (c < 128)%N →
  (Unicode.toLowerCaseUnit c < 128)%N ∧
  Unicode.toLowerCaseUnit (Unicode.toLowerCaseUnit c) = Unicode.toLowerCaseUnit c.
Proof.
  intros Hc.
  destruct (toLowerCaseUnit_cases c) as [[E ?] | [E ?]]; [lia| |].
  - rewrite !E. split; [lia|].
    destruct (toLowerCaseUnit_cases (c + 32)) as [[_ ?] | [E' _]];
      [lia..|done].
  - by rewrite !E.
Qed.

Lemma toLowerCase_ascii s :
  isASCII s →
  isASCII (Unicode.toLowerCase s) ∧
  Forall (λ c, Unicode.toLowerCaseUnit c = c) (Unicode.toLowerCase s).
Proof.
  unfold Unicode.toLowerCase, isASCII.
  induction 1 as [|c s Hc _ [IH1 IH2]]; [split; constructor|].
  destruct (toLowerCaseUnit_ascii c Hc). cbn [fmap list_fmap].
  split; by constructor.
Qed.

Lemma toLowerCase_fixed s :
  Forall (λ c, Unicode.toLowerCaseUnit c = c) s → Unicode.toLowerCase s = s.
Proof.
  unfold Unicode.toLowerCase. induction 1 as [|c s Hc _ IH]; [done|].
  cbn [fmap list_fmap]. by rewrite Hc, IH.
Qed.

Lemma stripCombiningMarks_ascii s :
  isASCII s → JS.stripCombiningMarks s = s.
Proof.
  intros Hs. apply JSFacts.stripCombiningMarks_fixed. intros c Hc.
  unfold isASCII in Hs. rewrite Forall_forall in Hs. specialize (Hs c Hc).
  unfold JS.isCombiningMark. apply andb_false_iff. left. apply N.leb_gt. lia.
Qed.

Lemma trim_Forall (P : N → Prop) s : Forall P s → Forall P (JS.trim s).
Proof.
  rewrite !Forall_forall. intros H c Hc. by apply H, JSFacts.trim_incl.
Qed.

Lemma normalizeString_ascii s :
  isASCII s → normalizeString s = JS.trim (Unicode.toLowerCase s).
Proof.
  intros Hs. destruct (toLowerCase_ascii s Hs) as [Hl _].
  unfold normalizeString. cbn [normalizeNFD toLowerCase unicodeExcerpt].
  by rewrite normalizeNFD_ascii, stripCombiningMarks_ascii.
Qed.

(** The amended C9 on ASCII: no condition is left. *)
Lemma normalizeString_idempotent_ascii s :
  isASCII s → normalizeString (normalizeString s) = normalizeString s.
Proof.
  intros Hs. destruct (toLowerCase_ascii s Hs) as [Hl Hfixed].
  rewrite (normalizeString_ascii s Hs).
  rewrite normalizeString_ascii by by apply trim_Forall.
  rewrite toLowerCase_fixed by by apply trim_Forall.
  apply JSFacts.trim_idempotent.
Qed.

End UnicodeFacts.

(** ** Scenarios of the specification, evaluated *)

Example normalizeString_cafe : normalizeString Sample.cafe = js "cafe".
Proof. reflexivity. Qed.

Example findMatches_bread :
  findMatches 30 (js "Artisan Bread Flour") (js "bread") = Some [(8, 13)].
Proof. reflexivity. Qed.

(** Occurrences that overlap are all reported. *)
Example findMatches_overlapping :
  findMatches 30 (js "aaaa") (js "aa") = Some [(0, 2); (1, 3); (2, 4)].
Proof. reflexivity. Qed.

Example fuzzyMatch_whole_wheat :
  fuzzyMatch (js "whole wheat flour") (js "Whole Wheat Flour") 2 = true.
Proof. by vm_compute. Qed.

Example levenshteinDistance_kitten :
  levenshteinDistance (js "kitten") (js "sitting") = 6 ∧
  editDistance (js "kitten") (js "sitting") = 3.
Proof. split; by vm_compute. Qed.

Example score_bread :
  scoreComponents Sample.flourProduct (js "bread") = [60; 0; 0; 40; 0; 0; 5] ∧
  calculateRelevanceScore Sample.flourProduct (js "bread") = 105.
Proof. split; by vm_compute. Qed.

Example finalResults_bread :
  finalResults 30 Sample.catalog Sample.params
  = Some [Sample.flourProduct; Sample.bannetonProduct; Sample.ovenProduct].
Proof. by vm_compute. Qed.

(** Without a query the filtered set is ordered by rating. *)
Example finalResults_no_query :
  finalResults 0 Sample.catalog (Sample.withQuery [])
  = Some [Sample.bannetonProduct; Sample.flourProduct; Sample.ovenProduct].
Proof. by vm_compute. Qed.

(** The query U+0301 passes the handler's [trim] test and normalises to the
    empty string: the pipeline does not return. *)
Example finalResults_lone_accent :
  JS.trim (q (Sample.withQuery [769%N])) ≠ [] ∧
  finalResults 1000 Sample.catalog (Sample.withQuery [769%N]) = None.
Proof. split; by vm_compute. Qed.

(** Categories [{"oven"}] with the organic filter set: nothing passes. *)
Example applyFilters_oven_organic :
  applyFilters Sample.catalog Sample.ovenOrganic = [].
Proof. by vm_compute. Qed.

(** ** The further properties on the sample data *)

(** X3, at an input: "Whole Wheat Flour" and "whole wheat flour" have the
    same normal form, and match at every distance. *)
Lemma fuzzyMatch_same_normal_form_witness :
  normalizeString (js "Whole Wheat Flour")
  = normalizeString (js "whole wheat flour") ∧
  fuzzyMatch (js "Whole Wheat Flour") (js "whole wheat flour") 0 = true.
Proof.
  assert (normalizeString (js "Whole Wheat Flour")
          = normalizeString (js "whole wheat flour")) as Hn by reflexivity.
  split; [exact Hn|].
  apply (proj1 (fuzzyMatch_same_normal_form (js "Whole Wheat Flour")
                  (js "whole wheat flour")) 0); [lia|exact Hn].
Defined.

(** X5, at an input: "bread" is inside "Artisan Bread Flour". *)
Lemma calculateRelevanceScore_name_tiers_witness :
  JS.trim (js "bread") ≠ [] ∧
  60 ≤ calculateRelevanceScore Sample.flourProduct (js "bread").
Proof.
  assert (JS.trim (js "bread") ≠ []) as Hq by by vm_compute.
  split; [exact Hq|].
  apply (proj2 (proj2 (calculateRelevanceScore_name_tiers
                         Sample.flourProduct (js "bread") Hq))).
  vm_compute. reflexivity.
Defined.

(** X6, at an input: a query of two spaces. *)
Lemma calculateRelevanceScore_blank_witness :
  isBlank (js "  ") ∧
  calculateRelevanceScore Sample.flourProduct (js "  ") = 0.
Proof.
  assert (isBlank (js "  ")) as Hb by (by repeat constructor).
  split; [exact Hb|].
  apply (calculateRelevanceScore_blank Sample.flourProduct (js "  ") Hb).
Defined.

(** X7, at an input: the span (8, 13) is an occurrence of "bread". *)
Lemma findMatches_exact_witness :
  normalizeString (js "bread") ≠ [] ∧
  findMatches 30 (js "Artisan Bread Flour") (js "bread")
  = Some Scenario.breadSpans ∧
  occursAt (normalizeString (js "Artisan Bread Flour"))
    (normalizeString (js "bread")) 8.
Proof.
  assert (normalizeString (js "bread") ≠ []) as Hq by by vm_compute.
  assert (findMatches 30 (js "Artisan Bread Flour") (js "bread")
          = Some Scenario.breadSpans) as Hrun by (vm_compute; reflexivity).
  split; [exact Hq|]. split; [exact Hrun|].
  apply (proj1 (findMatches_exact 30 (js "Artisan Bread Flour") (js "bread")
                  Scenario.breadSpans Hq Hrun 8 13)).
  apply list_elem_of_singleton. reflexivity.
Defined.

(** X8, at an input: the sample catalog under a query of one space. *)
Lemma finalResults_blank_query_witness :
  isBlank (q Scenario.blankQuery) ∧
  ∃ out,
    (∀ fuel, finalResults fuel Sample.catalog Scenario.blankQuery = Some out) ∧
    out ≡ₚ applyFilters Sample.catalog Scenario.blankQuery ∧
    StronglySorted (descendingQ ratingOf) out ∧
    ∀ k, List.filter (hasKeyQ ratingOf k) out
         = List.filter (hasKeyQ ratingOf k)
             (applyFilters Sample.catalog Scenario.blankQuery).
Proof.
  assert (isBlank (q Scenario.blankQuery)) as Hb by (by repeat constructor).
  split; [exact Hb|].
  exact (finalResults_blank_query Sample.catalog Scenario.blankQuery Hb).
Defined.

(** X9, at an input: the sample catalog under the query "bread". *)
Lemma finalResults_members_witness :
  JS.trim (q Sample.params) ≠ [] ∧
  ∀ product,
    product ∈ [Sample.flourProduct; Sample.bannetonProduct; Sample.ovenProduct]
    ↔ product ∈ Sample.catalog ∧ meetsFilterRule Sample.params product ∧
      0 < calculateRelevanceScore product (q Sample.params).
Proof.
  assert (JS.trim (q Sample.params) ≠ []) as Hq by by vm_compute.
  assert (finalResults 30 Sample.catalog Sample.params
          = Some [Sample.flourProduct; Sample.bannetonProduct;
                  Sample.ovenProduct]) as Hrun by (vm_compute; reflexivity).
  split; [exact Hq|].
  exact (proj2 (finalResults_members 30 Sample.catalog Sample.params _ Hq Hrun)).
Defined.

(** X11, at an input: minimum price 50, maximum price 10. *)
Lemma applyFilters_empty_price_range_witness :
  (maxPrice Scenario.reversedPrices < minPrice Scenario.reversedPrices)%Q ∧
  applyFilters Sample.catalog Scenario.reversedPrices = [].
Proof.
  assert (maxPrice Scenario.reversedPrices
          < minPrice Scenario.reversedPrices)%Q as Hp by reflexivity.
  split; [exact Hp|].
  exact (applyFilters_empty_price_range Sample.catalog Scenario.reversedPrices
           Hp).
Defined.

(** X12, at an input: [categories=oven,oven] selects what
    [categories=oven] does. *)
Lemma applyFilters_category_set_witness :
  (∀ c, c ∈ [js "oven"; js "oven"] ↔ c ∈ categories Sample.ovenOrganic) ∧
  applyFilters Sample.catalog
    (withCategories [js "oven"; js "oven"] Sample.ovenOrganic)
  = applyFilters Sample.catalog Sample.ovenOrganic.
Proof.
  assert (∀ c, c ∈ [js "oven"; js "oven"] ↔ c ∈ categories Sample.ovenOrganic)
    as Hs.
  { intros c. cbn [categories Sample.ovenOrganic].
    rewrite !elem_of_cons. tauto. }
  split; [exact Hs|].
  exact (proj1 (applyFilters_category_set 0 Sample.catalog Sample.ovenOrganic
                  [js "oven"; js "oven"] Hs)).
Defined.

(** X13, at an input: "flour" out of [" flour,,oven "]. *)
Lemma parsed_categories_clean_witness :
  js "flour" ∈ Parsed.categories Scenario.categoriesURL ∧
  js "flour" ≠ [] ∧ JS.trim (js "flour") = js "flour" ∧ (44%N ∉ js "flour").
Proof.
  assert (js "flour" ∈ Parsed.categories Scenario.categoriesURL) as Hc.
  { vm_compute. apply list_elem_of_here. }
  split; [exact Hc|].
  exact (parsed_categories_clean Scenario.categoriesURL (js "flour") Hc).
Defined.

(** X14, at an input: the query " bread " with the sample filters. *)
Lemma buildSearchURL_read_back_witness :
  USVString.isWellFormed (JS.trim (js " bread ")) = true ∧
  Parsed.q
    (Filters.buildSearchURL Scenario.printWhole (js " bread ") Scenario.priced)
  = js "bread".
Proof.
  assert (USVString.isWellFormed (JS.trim (js " bread ")) = true) as Hwell
    by reflexivity.
  split; [exact Hwell|].
  exact (proj1 (buildSearchURL_read_back Scenario.printWhole (js " bread ")
                  Scenario.priced Hwell)).
Defined.

(** X15, at an input: at most one result for "bread" out of the index of
    the sample catalog. *)
Lemma searchIndex_results_witness :
  0 ≤ 1 ∧
  Z.of_nat
    (length (ProductIndex.searchIndex (js "bread")
               (IndexRoute.createIndex Sample.catalog) 1)) ≤ 1.
Proof.
  assert (0 ≤ 1) as Hm by lia.
  split; [exact Hm|].
  exact (proj1 (searchIndex_results (js "bread")
                  (IndexRoute.createIndex Sample.catalog) 1 Hm)).
Defined.

(** X16, at an input: the flour of the sample catalog, found in the index
    by "bread", is served by the route. *)
Lemma searchIndex_items_are_served_witness :
  normalizeString (q Sample.params) ≠ [] ∧
  indexItemOf Sample.flourProduct
  ∈ ProductIndex.searchIndex (q Sample.params)
      (IndexRoute.index Sample.catalog (filterParamsOf Sample.params)) 5 ∧
  ∃ fuel out product,
    finalResults fuel Sample.catalog Sample.params = Some out ∧
    product ∈ out ∧ indexItemOf product = indexItemOf Sample.flourProduct.
Proof.
  assert (normalizeString (q Sample.params) ≠ []) as Hq by by vm_compute.
  assert (indexItemOf Sample.flourProduct
          ∈ ProductIndex.searchIndex (q Sample.params)
              (IndexRoute.index Sample.catalog (filterParamsOf Sample.params))
              5) as Hin.
  { vm_compute. apply list_elem_of_further, list_elem_of_here. }
  split; [exact Hq|]. split; [exact Hin|].
  exact (searchIndex_items_are_served Sample.catalog Sample.params 5 _ Hq Hin).
Defined.

(** X17, at an input: "artisan bread flour" with the span of "bread". *)
Lemma splitTextWithMatches_covers_witness :
  Highlight.orderedSpans 0 Scenario.breadSpans
    (JS.len (js "artisan bread flour")) ∧
  segmentTexts
    (Highlight.splitTextWithMatches (js "artisan bread flour")
       Scenario.breadSpans)
  = [js "artisan "; js "bread"; js " flour"] ∧
  concat
    (segmentTexts
       (Highlight.splitTextWithMatches (js "artisan bread flour")
          Scenario.breadSpans))
  = js "artisan bread flour".
Proof.
  assert (Highlight.orderedSpans 0 Scenario.breadSpans
            (JS.len (js "artisan bread flour"))) as Ho.
  { vm_compute. repeat split; discriminate. }
  split; [exact Ho|]. split; [reflexivity|].
  exact (proj1 (splitTextWithMatches_covers (js "artisan bread flour")
                  Scenario.breadSpans Ho)).
Defined.

(** X21, at an input: "Rye" searched again moves to the front. *)
Lemma addSearch_bounded_witness :
  JS.trim (js "Rye") ≠ [] ∧
  (length (RecentSearches.addSearch 3 (js "Rye") None Scenario.history) ≤ 5)%nat.
Proof.
  assert (JS.trim (js "Rye") ≠ []) as Hq by by vm_compute.
  split; [exact Hq|].
  exact (proj1 (proj2 (addSearch_bounded 3 (js "Rye") None Scenario.history)
                  Hq)).
Defined.

(** X22, at an input: "Bread" after "bread" and "rye". *)
Lemma addSearch_no_duplicates_witness :
  JS.trim (js "Bread") = js "Bread" ∧
  NoDup ((λ search, toLowerCase (RecentSearches.query search))
           <$> Scenario.history) ∧
  NoDup ((λ search, toLowerCase (RecentSearches.query search))
           <$> RecentSearches.addSearch 3 (js "Bread") None Scenario.history).
Proof.
  assert (JS.trim (js "Bread") = js "Bread") as Ht by reflexivity.
  assert (NoDup ((λ search, toLowerCase (RecentSearches.query search))
                   <$> Scenario.history)) as Hn.
  { vm_compute. repeat (constructor; [by rewrite ?elem_of_cons, ?elem_of_nil; intuition discriminate|]). constructor. }
  split; [exact Ht|]. split; [exact Hn|].
  exact (addSearch_no_duplicates 3 (js "Bread") None Scenario.history Ht Hn).
Defined.

(** X23, at an input: "rye" added to the sample history and removed. *)
Lemma removeSearch_after_addSearch_witness :
  JS.trim (js "rye") = js "rye" ∧ js "rye" ≠ [] ∧
  RecentSearches.query
    <$> RecentSearches.removeSearch (js "rye")
          (RecentSearches.addSearch 3 (js "rye") None Scenario.history)
  = [js "bread"].
Proof.
  assert (JS.trim (js "rye") = js "rye") as Ht by reflexivity.
  assert (js "rye" ≠ []) as Hq by by vm_compute.
  split; [exact Ht|]. split; [exact Hq|].
  rewrite (proj1 (removeSearch_after_addSearch 3 (js "rye") None
                    Scenario.history Ht Hq)).
  reflexivity.
Defined.

(** X24, at an input: Enter on the second of three suggestions. *)
Lemma handleKeyDown_in_range_witness :
  0 ≤ KeyboardNavigation.itemCount Scenario.threeItems ∧
  -1 ≤ 1 < KeyboardNavigation.itemCount Scenario.threeItems ∧
  -1 ≤ KeyboardNavigation.press Scenario.threeItems (js "Enter") 1
     < KeyboardNavigation.itemCount Scenario.threeItems.
Proof.
  assert (0 ≤ KeyboardNavigation.itemCount Scenario.threeItems) as Hn
    by (cbn; lia).
  assert (-1 ≤ 1 < KeyboardNavigation.itemCount Scenario.threeItems) as Hi
    by (cbn; lia).
  split; [exact Hn|]. split; [exact Hi|].
  exact (proj1 (handleKeyDown_in_range Scenario.threeItems (js "Enter") 1
                  Hn Hi)).
Defined.

(** X25, at an input: four presses of ArrowDown from the last of three
    suggestions end on the first. *)
Lemma circular_navigation_witness :
  KeyboardNavigation.isEnabled Scenario.threeItems = true ∧
  KeyboardNavigation.circular Scenario.threeItems = true ∧
  0 ≤ 2 < KeyboardNavigation.itemCount Scenario.threeItems ∧
  Nat.iter 4 (KeyboardNavigation.press Scenario.threeItems (js "ArrowDown")) 2
  = 0.
Proof.
  assert (0 ≤ 2 < KeyboardNavigation.itemCount Scenario.threeItems) as Hi
    by (cbn; lia).
  split; [reflexivity|]. split; [reflexivity|]. split; [exact Hi|].
  rewrite (proj1 (circular_navigation Scenario.threeItems 2 4
                    eq_refl eq_refl Hi)).
  reflexivity.
Defined.

(** X26, at an input: minimum price 10, maximum price 50, minimum rating
    4. *)
Lemma buildSearchURL_numbers_witness :
  Scenario.readWhole (Scenario.printWhole 10) = JSNumber.Finite 10 ∧
  Scenario.readWhole (Scenario.printWhole 50) = JSNumber.Finite 50 ∧
  Scenario.readWhole (Scenario.printWhole 4) = JSNumber.Finite 4 ∧
  ParsedNumber.maxPrice Scenario.readWhole
    (Filters.buildSearchURL Scenario.printWhole (js "bread") Scenario.priced)
  = JSNumber.Finite 50.
Proof.
  assert (Scenario.readWhole (Scenario.printWhole 10) = JSNumber.Finite 10)
    as Hlow by reflexivity.
  assert (Scenario.readWhole (Scenario.printWhole 50) = JSNumber.Finite 50)
    as Hhigh by reflexivity.
  assert (Scenario.readWhole (Scenario.printWhole 4) = JSNumber.Finite 4)
    as Hstars by reflexivity.
  split; [exact Hlow|]. split; [exact Hhigh|]. split; [exact Hstars|].
  exact (proj1 (proj2 (buildSearchURL_numbers Scenario.printWhole
                         Scenario.readWhole (js "bread") Scenario.priced
                         Hlow Hhigh Hstars))).
Defined.

(** X28, at an input: the stock tag removed, the route serves the one
    product of the sample catalog that is out of stock. *)
Lemma tag_removal_inverts_flag_witness :
  Scenario.stockTag
  ∈ SearchInterface.activeFilterTags Scenario.priceRange Scenario.inStockOnly ∧
  parsedParams Scenario.readWhole
    (Filters.buildSearchURL Scenario.printWhole (js "bread")
       (Filters.filterReducer Scenario.priceRange Scenario.inStockOnly
          (FilterTag.onRemove Scenario.stockTag)))
  = Some Scenario.afterStockTag ∧
  applyFilters Sample.catalog Scenario.afterStockTag = [Sample.ovenProduct] ∧
  ∀ product,
    product ∈ applyFilters Sample.catalog Scenario.afterStockTag →
    inStock (base product) = false.
Proof.
  assert (Scenario.stockTag
          ∈ SearchInterface.activeFilterTags Scenario.priceRange
              Scenario.inStockOnly) as Hin.
  { vm_compute. apply list_elem_of_here. }
  assert (parsedParams Scenario.readWhole
            (Filters.buildSearchURL Scenario.printWhole (js "bread")
               (Filters.filterReducer Scenario.priceRange Scenario.inStockOnly
                  (FilterTag.onRemove Scenario.stockTag)))
          = Some Scenario.afterStockTag) as Hparams by reflexivity.
  split; [exact Hin|]. split; [exact Hparams|]. split; [reflexivity|].
  exact (proj2 (proj2 (proj1 (tag_removal_inverts_flag Scenario.priceRange
                                Scenario.printWhole Scenario.readWhole
                                Scenario.inStockOnly (js "bread")
                                Scenario.stockTag Sample.catalog
                                Scenario.afterStockTag Hin Hparams)
                         eq_refl))).
Defined.

(** The price range and the facets of the sample catalog. *)
Example PRICE_RANGE_sample :
  ProductData.PRICE_RANGE Sample.catalog = Some Scenario.priceRange ∧
  ProductData.getProductCount Sample.catalog <$> [flour; banneton; oven]
  = [1; 1; 1].
Proof. split; reflexivity. Qed.

(** The highlight component on "Bread and bread" with the query
    " bread ", the case folding being that of the excerpt's lowercasing:
    two spans. *)
Example findMatches_of_component_bread :
  Highlight.findMatches
    (λ c, hd c (toLowerCase [c])) (js "Bread and bread") (js " bread ")
  = [(0, 5); (10, 15)].
Proof. reflexivity. Qed.

(** Maximum price 0 is read as no maximum: the handler's fallback takes
    0 for a missing number. *)
Example maxPrice_zero_reads_5000 :
  ParsedNumber.maxPrice Scenario.readWhole
    (Filters.buildSearchURL Scenario.printWhole []
       (Filters.filterReducer Scenario.priceRange Scenario.priced
          (Filters.SET_PRICE_RANGE 0 0)))
  = JSNumber.Finite 5000.
Proof. reflexivity. Qed.

(** A lead surrogate on its own is not well formed, and the conversion
    puts U+FFFD in its place; a surrogate pair is left alone. *)
Example convert_unpaired_surrogate :
  USVString.isWellFormed [98; 55296]%N = false ∧
  USVString.convert [98; 55296]%N = [98; 65533]%N ∧
  USVString.convert [55357; 56832]%N = [55357; 56832]%N.
Proof. repeat split. Qed.

(** The guarantee of [addSearch] needs the trimmed query: the stored
    query is the trimmed one, the comparison takes the query as typed, so
    " bread" after "bread" is kept twice. *)
Example addSearch_untrimmed_repeats :
  RecentSearches.query
    <$> RecentSearches.addSearch 3 (js " bread") None Scenario.history
  = [js "bread"; js "bread"; js "rye"].
Proof. reflexivity. Qed.

(** With a first string of one code unit the distance is at most 2,
    whatever the second. *)
Example levenshteinDistance_short_first :
  levenshteinDistance (js "a") (js "bcdefgh") = 2.
Proof. reflexivity. Qed.

(** Spans that overlap repeat the text they share. *)
Example splitTextWithMatches_overlapping :
  segmentTexts (Highlight.splitTextWithMatches (js "aaa") [(0, 2); (1, 3)])
  = [js "aa"; js "aa"].
Proof. reflexivity. Qed.
